(** * Focus Grid dashboard: offline-first sync engine and due-task dispatch

    A shallow embedding of the synchronisation core of the client
    ([src/lib/db.ts], [src/lib/sync.ts], the task handlers, the task lists
    and the sync trigger of [src/App.tsx], [src/lib/date.ts],
    [src/lib/migration.ts], [src/lib/backup.ts]) and of the notification
    pipeline ([api/cron/dispatch-due.ts], the SQL functions of the Supabase
    migration, [api/_lib/web-push.ts], the endpoint that sends one push, and
    the [push] listener of the service worker).

    The file has four parts: the model, one module per source file; the terms
    in which the properties are stated; a reference platform with the data of
    a few scenarios; and the properties with their proofs, followed by the
    scenarios they are applied to.

    Conventions of the model.
    - A Dexie table keyed by [id] is a [gmap string _]; [put] is insertion at
      the record's own [id], [delete] is deletion.  IndexedDB stores a
      structured clone of what is put, so a table holds values.
    - A table of the database is the list of its rows.
    - A JavaScript [number] that is a time value or a counter is a [Z]; the
      result of [Date.prototype.getTime] is an [option Z] where [None] is
      [NaN].  The [window] query parameter is a genuine double ([float]).
    - What the platform provides (the [Date] parser, [Number], [trim], the
      time-zone arithmetic and the text formats of Postgres) is a class of
      operations that the definitions take as a parameter; what the
      environment decides (random identifiers, the clock, which requests
      fail, what the push service answers) is an argument.
    - An [async] function is the sequence of its steps; where the
      interleaving of callbacks matters ([fireSync]) the steps are the
      transitions of a state machine. *)

From Stdlib Require Import ZArith String Ascii List Bool Floats Uint63 Sorted Permutation Lia.
From stdpp Require Import base option list gmap strings sorting.

Local Open Scope Z_scope.

(** ** JavaScript values *)

Module Js.

(** Truthiness of a string: every string but the empty one. *)
Definition truthy (s : string) : bool :=
  match s with
  | EmptyString => false
  | String _ _ => true
  end.

(** Truthiness of [string | null | undefined]. *)
Definition truthy_opt (s : option string) : bool :=
  match s with
  | Some s => truthy s
  | None => false
  end.

(** [a || b] on strings. *)
Definition or_else (a : option string) (b : string) : string :=
  match a with
  | Some s => if truthy s then s else b
  | None => b
  end.

(** A time value: [None] stands for [NaN]. *)
Definition number := option Z.

(** [a > b] on numbers: false as soon as one side is [NaN]. *)
Definition gt (a b : number) : bool :=
  match a, b with
  | Some x, Some y => y <? x
  | _, _ => false
  end.

(** The host's built-ins the client relies on. *)
Class Host := {
  (** [new Date(iso).getTime()] *)
  Date_getTime : string -> number;
  (** [Number(s)] for a string [s] *)
  Number_of_string : string -> float;
  (** [new Date(ms).toISOString()]; [None] when it throws a [RangeError] *)
  Date_toISOString : Z -> option string;
  (** [s.trim()] *)
  String_trim : string -> string;
}.

End Js.

(** ** [src/types.ts] *)

Inductive TaskStatus := todo | done.
Inductive TaskPriority := high | medium | normal.

Global Instance TaskStatus_eq_dec : EqDecision TaskStatus.
Proof. solve_decision. Defined.
Global Instance TaskPriority_eq_dec : EqDecision TaskPriority.
Proof. solve_decision. Defined.

(** [EnergyLevel] is a union of string literals that no code path inspects or
    validates; the field is carried as the string it is at run time. *)

Module TaskRecord.
Record t := mk {
  id : string;
  user_id : string;
  title : string;
  status : TaskStatus;
  priority : TaskPriority;
  tags : list string;
  scheduled_date : option string;
  due_time : option string;
  estimate_minutes : option Z;
  energy : option string;
  created_at : string;
  updated_at : string;
  completed_at : option string;
  original_scheduled_date : option string;
  timezone : string;
  top3_slot : option Z;
  last_notified_at : option string;
}.
End TaskRecord.

(** [Partial<TaskRecord>] as it arrives from JSON: every field may be missing
    ([undefined] and [null] are both [None], the code treats them alike with
    [??]); [status] and [priority] are not yet checked to be one of the
    literals, [tags] is [None] when it is not an array. *)
Module Partial.
Record t := mk {
  id : option string;
  user_id : option string;
  title : option string;
  status : option string;
  priority : option string;
  tags : option (list string);
  scheduled_date : option string;
  due_time : option string;
  estimate_minutes : option Z;
  energy : option string;
  created_at : option string;
  updated_at : option string;
  completed_at : option string;
  original_scheduled_date : option string;
  timezone : option string;
  top3_slot : option Z;
  last_notified_at : option string;
}.
End Partial.

Inductive OperationType := upsert_task | delete_task.

(** [payload: TaskRecord | { id: string }] *)
Inductive Payload :=
| PayloadTask (task : TaskRecord.t)
| PayloadId (id : string).

Module QueueOperation.
Record t := mk {
  id : string;
  user_id : string;
  type : OperationType;
  task_id : string;
  payload : Payload;
  created_at : string;
  retries : Z;
}.
End QueueOperation.

(** ** [src/lib/db.ts] *)

Module Db.
Import Js.

Definition SYNC_BATCH_SIZE : nat := 100.

(** The three Dexie tables the sync engine uses. *)
Record t := mk {
  tasks : gmap string TaskRecord.t;
  queue : gmap string QueueOperation.t;
  meta : gmap string string;
}.

Definition empty : t := mk ∅ ∅ ∅.

Definition with_tasks (d : t) (ts : gmap string TaskRecord.t) : t :=
  mk ts (queue d) (meta d).
Definition with_queue (d : t) (q : gmap string QueueOperation.t) : t :=
  mk (tasks d) q (meta d).
Definition with_meta (d : t) (m : gmap string string) : t :=
  mk (tasks d) (queue d) m.

(** [db.tasks.put], [db.queue.put]: keyed by the record's [id]. *)
Definition tasks_put (ts : gmap string TaskRecord.t) (task : TaskRecord.t)
  : gmap string TaskRecord.t :=
  <[TaskRecord.id task := task]> ts.
Definition queue_put (q : gmap string QueueOperation.t) (op : QueueOperation.t)
  : gmap string QueueOperation.t :=
  <[QueueOperation.id op := op]> q.

Section WithHost.
Context `{Host}.

Definition toMs (iso : option string) : number :=
  match iso with
  | Some s => if truthy s then Date_getTime s else Some 0
  | None => Some 0
  end.

Definition isIncomingNewer (incoming : TaskRecord.t) (current : option TaskRecord.t)
  : bool :=
  match current with
  | None => true
  | Some current =>
      gt (toMs (Some (TaskRecord.updated_at incoming)))
         (toMs (Some (TaskRecord.updated_at current)))
  end.

(** One iteration of the loop of [upsertTasksFromRemote]. *)
Definition upsert_one (ts : gmap string TaskRecord.t) (incoming : TaskRecord.t)
  : gmap string TaskRecord.t :=
  let current := ts !! TaskRecord.id incoming in
  if isIncomingNewer incoming current then tasks_put ts incoming else ts.

Definition upsertTasksFromRemote (ts : gmap string TaskRecord.t)
    (incoming : list TaskRecord.t) : gmap string TaskRecord.t :=
  foldl upsert_one ts incoming.
End WithHost.

(** [crypto.randomUUID()] and [nowIso()] are passed in as [uuid] and [now]. *)
Definition enqueueTaskUpsert (uuid now : string) (q : gmap string QueueOperation.t)
    (task : TaskRecord.t) : gmap string QueueOperation.t :=
  queue_put q
    {| QueueOperation.id := uuid;
       QueueOperation.user_id := TaskRecord.user_id task;
       QueueOperation.type := upsert_task;
       QueueOperation.task_id := TaskRecord.id task;
       QueueOperation.payload := PayloadTask task;
       QueueOperation.created_at := now;
       QueueOperation.retries := 0 |}.

Definition enqueueTaskDelete (uuid now : string) (q : gmap string QueueOperation.t)
    (userId taskId : string) : gmap string QueueOperation.t :=
  queue_put q
    {| QueueOperation.id := uuid;
       QueueOperation.user_id := userId;
       QueueOperation.type := delete_task;
       QueueOperation.task_id := taskId;
       QueueOperation.payload := PayloadId taskId;
       QueueOperation.created_at := now;
       QueueOperation.retries := 0 |}.

Definition putTaskLocal (uuid now : string) (d : t) (task : TaskRecord.t)
    (shouldQueue : bool) : t :=
  let d := with_tasks d (tasks_put (tasks d) task) in
  if shouldQueue then with_queue d (enqueueTaskUpsert uuid now (queue d) task) else d.

Definition deleteTaskLocal (uuid now : string) (d : t) (userId taskId : string)
    (shouldQueue : bool) : t :=
  let d := with_tasks d (delete taskId (tasks d)) in
  if shouldQueue then with_queue d (enqueueTaskDelete uuid now (queue d) userId taskId)
  else d.

(** [db.queue.where('user_id').equals(userId).sortBy('created_at')]: the
    index delivers the owner's rows in primary-key order and [sortBy] is a
    stable sort on [created_at], so rows come out ordered by [created_at],
    then by [id].  Strings compare by code unit. *)
Definition queue_leb (a b : QueueOperation.t) : bool :=
  match String.compare (QueueOperation.created_at a) (QueueOperation.created_at b) with
  | Lt => true
  | Eq => String.leb (QueueOperation.id a) (QueueOperation.id b)
  | Gt => false
  end.
Definition queue_le (a b : QueueOperation.t) : Prop := queue_leb a b = true.
Global Instance queue_le_dec : RelDecision queue_le.
Proof. intros a b. unfold queue_le. apply _. Defined.

Definition queue_rows (q : gmap string QueueOperation.t) : list QueueOperation.t :=
  (map_to_list q).*2.

Definition owned_by (userId : string) (op : QueueOperation.t) : Prop :=
  QueueOperation.user_id op = userId.
Global Instance owned_by_dec userId op : Decision (owned_by userId op).
Proof. unfold owned_by. apply _. Defined.

Definition getPendingQueue (q : gmap string QueueOperation.t) (userId : string)
  : list QueueOperation.t :=
  take SYNC_BATCH_SIZE (merge_sort queue_le (filter (owned_by userId) (queue_rows q))).

Definition markQueueProcessed (q : gmap string QueueOperation.t) (queueId : string)
  : gmap string QueueOperation.t :=
  delete queueId q.

Definition bump (item : QueueOperation.t) : QueueOperation.t :=
  {| QueueOperation.id := QueueOperation.id item;
     QueueOperation.user_id := QueueOperation.user_id item;
     QueueOperation.type := QueueOperation.type item;
     QueueOperation.task_id := QueueOperation.task_id item;
     QueueOperation.payload := QueueOperation.payload item;
     QueueOperation.created_at := QueueOperation.created_at item;
     QueueOperation.retries := QueueOperation.retries item + 1 |}.

Definition bumpQueueRetry (q : gmap string QueueOperation.t) (queueId : string)
  : gmap string QueueOperation.t :=
  match q !! queueId with
  | None => q
  | Some item => queue_put q (bump item)
  end.

Definition setMetaValue (m : gmap string string) (key value : string)
  : gmap string string :=
  <[key := value]> m.

Definition getMetaValue (m : gmap string string) (key : string) : option string :=
  m !! key.

(** [db.tasks.where('user_id').equals(userId).toArray()]: the owner's rows in
    primary-key order. *)
Definition id_le (a b : TaskRecord.t) : Prop :=
  String.le (TaskRecord.id a) (TaskRecord.id b).
Global Instance id_le_dec : RelDecision id_le.
Proof. intros a b. unfold id_le. apply _. Defined.

Definition getAllUserTasks (ts : gmap string TaskRecord.t) (userId : string)
  : list TaskRecord.t :=
  merge_sort id_le (filter (fun t => TaskRecord.user_id t = userId) (map_to_list ts).*2).

(** [db.queue.where('user_id').equals(userId).count()], the counter shown
    beside the sync button. *)
Definition queueCount (q : gmap string QueueOperation.t) (userId : string) : nat :=
  length (filter (owned_by userId) (queue_rows q)).

End Db.

(** ** The Postgres side: column types of [public.tasks] and their JSON form *)

Module Pg.

(** [date]: what [extract(year|month|day from _)] reads. *)
Record date := mkdate { year : Z; month : Z; day : Z }.

(** [time]: [extract(hour|minute from _)], and [extract(second from _)]
    with its fraction, counted in microseconds. *)
Record time := mktime { hour : Z; minute : Z; second : Z }.

(** [timestamptz]: microseconds since the epoch. *)
Definition timestamptz := Z.

(** Built-ins of the server: the time-zone aware constructor of the due
    instant, and the text input and output functions of the column types as
    PostgREST applies them to filters and to result rows.
    [make_timestamptz] raises an error ([None]) when it does not recognise
    the time zone, or when a field or the result is out of range. *)
Class Server := {
  make_timestamptz :
    Z -> Z -> Z -> Z -> Z -> Z -> string -> option timestamptz;
  timestamptz_in : string -> option timestamptz;
  timestamptz_out : timestamptz -> string;
  date_out : date -> string;
  time_out : time -> string;
}.

(** A row of [public.tasks]. *)
Module Task.
Record t := mk {
  id : string;
  user_id : string;
  title : string;
  status : TaskStatus;
  priority : TaskPriority;
  tags : list string;
  scheduled_date : option date;
  due_time : option time;
  estimate_minutes : option Z;
  energy : option string;
  created_at : timestamptz;
  updated_at : timestamptz;
  completed_at : option timestamptz;
  original_scheduled_date : option date;
  timezone : string;
  top3_slot : option Z;
  last_notified_at : option timestamptz;
}.
End Task.

Global Instance date_eq_dec : EqDecision date.
Proof. solve_decision. Defined.
Global Instance time_eq_dec : EqDecision time.
Proof. solve_decision. Defined.
Global Instance Task_eq_dec : EqDecision Task.t.
Proof. unfold timestamptz. solve_decision. Defined.

(** A row of [public.push_subscriptions], as selected by the dispatcher. *)
Module Subscription.
Record t := mk {
  id : string;
  user_id : string;
  endpoint : string;
  p256dh : string;
  auth : string;
}.
End Subscription.

Definition status_out (s : TaskStatus) : string :=
  match s with todo => "todo" | done => "done" end.
Definition priority_out (p : TaskPriority) : string :=
  match p with high => "high" | medium => "medium" | normal => "normal" end.

(** The JSON object PostgREST returns for a row under [select('*')]. *)
Definition to_json `{Server} (r : Task.t) : Partial.t :=
  {| Partial.id := Some (Task.id r);
     Partial.user_id := Some (Task.user_id r);
     Partial.title := Some (Task.title r);
     Partial.status := Some (status_out (Task.status r));
     Partial.priority := Some (priority_out (Task.priority r));
     Partial.tags := Some (Task.tags r);
     Partial.scheduled_date := date_out <$> Task.scheduled_date r;
     Partial.due_time := time_out <$> Task.due_time r;
     Partial.estimate_minutes := Task.estimate_minutes r;
     Partial.energy := Task.energy r;
     Partial.created_at := Some (timestamptz_out (Task.created_at r));
     Partial.updated_at := Some (timestamptz_out (Task.updated_at r));
     Partial.completed_at := timestamptz_out <$> Task.completed_at r;
     Partial.original_scheduled_date := date_out <$> Task.original_scheduled_date r;
     Partial.timezone := Some (Task.timezone r);
     Partial.top3_slot := Task.top3_slot r;
     Partial.last_notified_at := timestamptz_out <$> Task.last_notified_at r |}.

End Pg.

(** ** [src/lib/sync.ts] *)

Module Sync.
Import Js.

Definition lastPullKey (userId : string) : string :=
  "tasks_last_pull_" +:+ userId.

(** The values [normalizeTaskRecord] draws from the environment when a field
    is missing: [crypto.randomUUID()] and the two [new Date().toISOString()]. *)
Record Fresh := mkFresh { uuid : string; now_created : string; now_updated : string }.

Definition normalizeTaskRecord (f : Fresh) (raw : Partial.t) : TaskRecord.t :=
  {| TaskRecord.id := default (uuid f) (Partial.id raw);
     TaskRecord.user_id := default "" (Partial.user_id raw);
     TaskRecord.title := default "" (Partial.title raw);
     TaskRecord.status :=
       if decide (Partial.status raw = Some "done") then done else todo;
     TaskRecord.priority :=
       if decide (Partial.priority raw = Some "high") then high
       else if decide (Partial.priority raw = Some "medium") then medium
       else normal;
     TaskRecord.tags := default [] (Partial.tags raw);
     TaskRecord.scheduled_date := Partial.scheduled_date raw;
     TaskRecord.due_time := Partial.due_time raw;
     TaskRecord.estimate_minutes := Partial.estimate_minutes raw;
     TaskRecord.energy := Partial.energy raw;
     TaskRecord.created_at := default (now_created f) (Partial.created_at raw);
     TaskRecord.updated_at := default (now_updated f) (Partial.updated_at raw);
     TaskRecord.completed_at := Partial.completed_at raw;
     TaskRecord.original_scheduled_date := Partial.original_scheduled_date raw;
     TaskRecord.timezone := default "UTC" (Partial.timezone raw);
     TaskRecord.top3_slot := Partial.top3_slot raw;
     TaskRecord.last_notified_at := Partial.last_notified_at raw |}.

(** A stored [TaskRecord] seen as the object it is. *)
Definition of_task (t : TaskRecord.t) : Partial.t :=
  {| Partial.id := Some (TaskRecord.id t);
     Partial.user_id := Some (TaskRecord.user_id t);
     Partial.title := Some (TaskRecord.title t);
     Partial.status := Some (Pg.status_out (TaskRecord.status t));
     Partial.priority := Some (Pg.priority_out (TaskRecord.priority t));
     Partial.tags := Some (TaskRecord.tags t);
     Partial.scheduled_date := TaskRecord.scheduled_date t;
     Partial.due_time := TaskRecord.due_time t;
     Partial.estimate_minutes := TaskRecord.estimate_minutes t;
     Partial.energy := TaskRecord.energy t;
     Partial.created_at := Some (TaskRecord.created_at t);
     Partial.updated_at := Some (TaskRecord.updated_at t);
     Partial.completed_at := TaskRecord.completed_at t;
     Partial.original_scheduled_date := TaskRecord.original_scheduled_date t;
     Partial.timezone := Some (TaskRecord.timezone t);
     Partial.top3_slot := TaskRecord.top3_slot t;
     Partial.last_notified_at := TaskRecord.last_notified_at t |}.

(** [operation.payload as TaskRecord]: the cast checks nothing. *)
Definition of_payload (p : Payload) : Partial.t :=
  match p with
  | PayloadTask t => of_task t
  | PayloadId i =>
      Partial.mk (Some i) None None None None None None None None None None None
        None None None None None
  end.

(** Whether a request came back with [error] set. *)
Inductive reply := Applied | Failed.

(** The Supabase project as the client drives it: its state is opaque, a
    write answers [Applied] or [Failed], and the [tasks] table can be read
    ([None] when the request fails). *)
Class Remote := {
  remote : Type;
  tasks_upsert : remote -> TaskRecord.t -> remote * reply;
  tasks_delete : remote -> string -> string -> remote * reply;
  tasks_table : remote -> option (list Pg.Task.t);
}.

Section WithRemote.
Context `{Host} `{Pg.Server} `{Remote}.

(** The body of the [try] block up to [markQueueProcessed]. *)
Definition send_operation (f : Fresh) (r : remote) (operation : QueueOperation.t)
  : remote * reply :=
  match QueueOperation.type operation with
  | upsert_task =>
      let task := normalizeTaskRecord f (of_payload (QueueOperation.payload operation)) in
      tasks_upsert r task
  | delete_task =>
      tasks_delete r (QueueOperation.task_id operation)
        (QueueOperation.user_id operation)
  end.

(** State of a flush: the queue table, the remote, and the operations whose
    remote application has been attempted so far, oldest first. *)
Record flush_state := mkFlush {
  fl_queue : gmap string QueueOperation.t;
  fl_remote : remote;
  fl_attempted : list QueueOperation.t;
}.

(** The [for] loop of [flushQueue]. *)
Fixpoint flush_loop (f : Fresh) (pending : list QueueOperation.t) (st : flush_state)
  : flush_state :=
  match pending with
  | [] => st
  | operation :: rest =>
      let '(r, answer) := send_operation f (fl_remote st) operation in
      let attempted := fl_attempted st ++ [operation] in
      match answer with
      | Applied =>
          flush_loop f rest
            (mkFlush (Db.markQueueProcessed (fl_queue st) (QueueOperation.id operation))
               r attempted)
      | Failed =>
          mkFlush (Db.bumpQueueRetry (fl_queue st) (QueueOperation.id operation))
            r attempted
      end
  end.

Definition flushQueue (f : Fresh) (q : gmap string QueueOperation.t) (r : remote)
    (userId : string) : flush_state :=
  let pending := Db.getPendingQueue q userId in
  flush_loop f pending (mkFlush q r []).

(** What the request built in [pullUpdates] selects:
    [.eq('user_id', userId).gt('updated_at', since)
     .order('updated_at', { ascending: true }).limit(1000)]. *)
Definition pull_filter (userId : string) (since : Pg.timestamptz) (row : Pg.Task.t)
  : Prop :=
  Pg.Task.user_id row = userId ∧ since < Pg.Task.updated_at row.
Global Instance pull_filter_dec userId since row :
  Decision (pull_filter userId since row).
Proof. unfold pull_filter. apply _. Defined.

Definition updated_le (a b : Pg.Task.t) : Prop :=
  Pg.Task.updated_at a ≤ Pg.Task.updated_at b.
Global Instance updated_le_dec : RelDecision updated_le.
Proof. intros a b. unfold updated_le. apply _. Defined.

Definition pull_request (table : list Pg.Task.t) (userId since : string)
  : option (list Pg.Task.t) :=
  cursor ← Pg.timestamptz_in since;
  Some (take 1000 (merge_sort updated_le (filter (pull_filter userId cursor) table))).

(** [pullUpdates]: [None] when the request fails and the error is thrown. *)
Definition pullUpdates (f : Fresh) (d : Db.t) (r : remote) (userId : string)
  : option Db.t :=
  let since :=
    default "1970-01-01T00:00:00.000Z" (Db.getMetaValue (Db.meta d) (lastPullKey userId)) in
  table ← tasks_table r;
  data ← pull_request table userId since;
  let normalized := (fun row => normalizeTaskRecord f (Pg.to_json row)) <$> data in
  let d := Db.with_tasks d (Db.upsertTasksFromRemote (Db.tasks d) normalized) in
  let latest := TaskRecord.updated_at <$> last normalized in
  Some (if truthy_opt latest
        then Db.with_meta d
               (Db.setMetaValue (Db.meta d) (lastPullKey userId) (default "" latest))
        else d).

(** A change-feed event: a [DELETE] with its [old] row, or an insert or
    update with its [new] row, if any. *)
Inductive change :=
| ChangeDelete (old : Partial.t)
| ChangeWrite (new : option Partial.t).

(** The callback of [subscribeTaskChanges], on the task table. *)
Definition on_change (f : Fresh) (ts : gmap string TaskRecord.t) (payload : change)
  : gmap string TaskRecord.t :=
  match payload with
  | ChangeDelete oldRow =>
      match Partial.id oldRow with
      | Some id => if truthy id then delete id ts else ts
      | None => ts
      end
  | ChangeWrite (Some new) => Db.upsertTasksFromRemote ts [normalizeTaskRecord f new]
  | ChangeWrite None => ts
  end.

(** [syncNow]: flush, then pull. *)
Definition syncNow (f : Fresh) (d : Db.t) (r : remote) (userId : string)
  : option Db.t * remote :=
  let st := flushQueue f (Db.queue d) r userId in
  (pullUpdates f (Db.with_queue d (fl_queue st)) (fl_remote st) userId, fl_remote st).
End WithRemote.

End Sync.

(** ** [src/lib/migration.ts] *)

Module Migration.
Import Js.

(** [id: number | string] *)
Inductive legacy_id := LegacyNumber (n : Z) | LegacyString (s : string).

Module LegacyTask.
Record t := mk {
  id : legacy_id;
  text : option string;
  completed : bool;
  date : option string;
  priority : option string;
  migrated : option bool;
}.
End LegacyTask.

Definition normalizePriority (value : option string) : TaskPriority :=
  if decide (value = Some "high") then high
  else if decide (value = Some "medium") then medium
  else normal.

(** [toLegacyTaskRecord]; [uuid], [now] and [today] stand for
    [crypto.randomUUID()], [nowIso()] and [todayLocalDate()].  The result is
    [None] when [toISOString] throws. *)
Definition toLegacyTaskRecord `{Host} (uuid now today : string)
    (legacy : LegacyTask.t) (userId tz : string) : option TaskRecord.t :=
  timestampFromId ←
    match LegacyTask.id legacy with
    | LegacyNumber n => if 1000000000000 <? n then Date_toISOString n else Some now
    | LegacyString _ => Some now
    end;
  let migrated := default false (LegacyTask.migrated legacy) in
  Some
    {| TaskRecord.id := uuid;
       TaskRecord.user_id := userId;
       TaskRecord.title :=
         or_else (String_trim <$> LegacyTask.text legacy) "Tâche importée";
       TaskRecord.status := if LegacyTask.completed legacy then done else todo;
       TaskRecord.priority := normalizePriority (LegacyTask.priority legacy);
       TaskRecord.tags := if migrated then ["legacy-migrated"] else [];
       TaskRecord.scheduled_date := Some (or_else (LegacyTask.date legacy) today);
       TaskRecord.due_time := None;
       TaskRecord.estimate_minutes := None;
       TaskRecord.energy := None;
       TaskRecord.created_at := timestampFromId;
       TaskRecord.updated_at := now;
       TaskRecord.completed_at := if LegacyTask.completed legacy then Some now else None;
       TaskRecord.original_scheduled_date :=
         if migrated
         then (if truthy_opt (LegacyTask.date legacy) then LegacyTask.date legacy else None)
         else None;
       TaskRecord.timezone := tz;
       TaskRecord.top3_slot := None;
       TaskRecord.last_notified_at := None |}.

Definition LEGACY_KEYS : list string :=
  ["fg_tasks"; "fg_gym_history"; "fg_meals"; "fg_meal_history"; "fg_thesis_logs";
   "fg_workout_templates"; "fg_resources"].

Definition migrationMetaKey (userId : string) : string :=
  "legacy_migration_done_" +:+ userId.

(** [JSON.parse(raw) as LegacyTask[]]: [None] when it throws.  The value is
    taken to be an array of objects, as the cast has it. *)
Class Json := { JSON_parse : string -> option (list LegacyTask.t) }.

Definition safeJsonParse `{Json} (raw : option string) (fallback : list LegacyTask.t)
  : list LegacyTask.t :=
  match raw with
  | None => fallback
  | Some s => if truthy s then default fallback (JSON_parse s) else fallback
  end.

(** [window.localStorage] is a map from keys to strings; [getItem] answers
    [null] for a key it does not hold. *)
Definition getLegacyLocalStorageSnapshot (localStorage : gmap string string)
  : list (string * option string) :=
  (fun key => (key, localStorage !! key)) <$> LEGACY_KEYS.

Module LegacyBackupRecord.
Record t := mk {
  id : string;
  user_id : string;
  payload : list (string * option string);
  created_at : string;
}.
End LegacyBackupRecord.

(** The tables [migrateLegacyDataIfNeeded] works on. *)
Record Store := mkStore {
  db : Db.t;
  legacyBackups : gmap string LegacyBackupRecord.t;
}.

(** [putLegacyBackup] *)
Definition putLegacyBackup (s : Store) (record : LegacyBackupRecord.t) : Store :=
  mkStore (db s) (<[LegacyBackupRecord.id record := record]> (legacyBackups s)).

(** What the conversion and the enqueueing of one legacy task draw from the
    environment. *)
Record Draw := mkDraw {
  task_uuid : string;
  now : string;
  today : string;
  queue_uuid : string;
  queue_now : string;
}.

(** What one call of [migrateLegacyDataIfNeeded] draws: the identifier and
    the time of the backup record, and the draws of the [i]-th iteration of
    its loop. *)
Record Environment := mkEnvironment {
  backup_uuid : string;
  backup_now : string;
  draws : nat -> Draw;
}.

(** The [for] loop over the legacy tasks, from the iteration [i] on.  The
    count is [None] when a conversion throws: the loop is left there. *)
Fixpoint migrate_loop `{Host} (draws : nat -> Draw) (i : nat)
    (legacyTasks : list LegacyTask.t) (userId timezone : string) (d : Db.t)
    (migratedTasks : nat) : Db.t * option nat :=
  match legacyTasks with
  | [] => (d, Some migratedTasks)
  | legacy :: rest =>
      let e := draws i in
      match toLegacyTaskRecord (task_uuid e) (now e) (today e) legacy userId timezone with
      | None => (d, None)
      | Some record =>
          migrate_loop draws (S i) rest userId timezone
            (Db.putTaskLocal (queue_uuid e) (queue_now e) d record true)
            (S migratedTasks)
      end
  end.

Record Summary := mkSummary { migratedTasks : nat; hadLegacyData : bool }.

(** [migrateLegacyDataIfNeeded]: the store it leaves, and what it resolves
    to ([None] when it rejects). *)
Definition migrateLegacyDataIfNeeded `{Host} `{Json} (e : Environment)
    (localStorage : gmap string string) (s : Store) (userId timezone : string)
  : Store * option Summary :=
  let alreadyDone := Db.getMetaValue (Db.meta (db s)) (migrationMetaKey userId) in
  if decide (alreadyDone = Some "yes") then (s, Some (mkSummary 0 false))
  else
    let snapshot := getLegacyLocalStorageSnapshot localStorage in
    let hasLegacyData := existsb (fun entry => bool_decide (is_Some entry.2)) snapshot in
    let s :=
      if hasLegacyData
      then putLegacyBackup s
             (LegacyBackupRecord.mk (backup_uuid e) userId snapshot (backup_now e))
      else s in
    let existingTasks := Db.getAllUserTasks (Db.tasks (db s)) userId in
    let legacyTasks := safeJsonParse (localStorage !! "fg_tasks") [] in
    let '(d, migrated) :=
      if (length existingTasks =? 0)%nat && (0 <? length legacyTasks)%nat
      then migrate_loop (draws e) 0 legacyTasks userId timezone (db s) 0
      else (db s, Some 0%nat) in
    match migrated with
    | None => (mkStore d (legacyBackups s), None)
    | Some n =>
        (mkStore
           (Db.with_meta d (Db.setMetaValue (Db.meta d) (migrationMetaKey userId) "yes"))
           (legacyBackups s),
         Some (mkSummary n hasLegacyData))
    end.

End Migration.

(** ** [src/lib/backup.ts] *)

Module Backup.
Import Js.

(** The test [isTaskArray] applies to each item. *)
Definition is_task (row : Partial.t) : bool :=
  bool_decide (is_Some (Partial.id row)) && bool_decide (is_Some (Partial.title row)).

(** The record [importBackupPayload] builds from an item that passed
    [isTaskArray]; [zone] is the device's time zone or ['UTC'], [now_updated]
    and [now_created] the two [nowIso()]. *)
Definition import_task (userId zone now_updated now_created : string) (task : Partial.t)
  : TaskRecord.t :=
  {| TaskRecord.id := default "" (Partial.id task);
     TaskRecord.user_id := userId;
     TaskRecord.title := default "" (Partial.title task);
     TaskRecord.status :=
       if decide (Partial.status task = Some "done") then done else todo;
     TaskRecord.priority :=
       if decide (Partial.priority task = Some "high") then high
       else if decide (Partial.priority task = Some "medium") then medium
       else normal;
     TaskRecord.tags := default [] (Partial.tags task);
     TaskRecord.scheduled_date := Partial.scheduled_date task;
     TaskRecord.due_time := Partial.due_time task;
     TaskRecord.estimate_minutes := Partial.estimate_minutes task;
     TaskRecord.energy := Partial.energy task;
     TaskRecord.created_at := or_else (Partial.created_at task) now_created;
     TaskRecord.updated_at := or_else (Partial.updated_at task) now_updated;
     TaskRecord.completed_at := Partial.completed_at task;
     TaskRecord.original_scheduled_date := Partial.original_scheduled_date task;
     TaskRecord.timezone := or_else (Partial.timezone task) zone;
     TaskRecord.top3_slot := Partial.top3_slot task;
     TaskRecord.last_notified_at := Partial.last_notified_at task |}.

(** [parsed.tasks] is [unknown]: it is an array or not, and an item of the
    array is an object ([Some]) or not ([None]: [null], a number, a string). *)
Definition isTaskArray (value : option (list (option Partial.t))) : bool :=
  match value with
  | None => false
  | Some items =>
      forallb (fun item =>
                 match item with
                 | None => false
                 | Some row => is_task row
                 end) items
  end.

(** What the import of one item draws from the environment. *)
Record Draw := mkDraw {
  zone : string;
  now_updated : string;
  now_created : string;
  queue_uuid : string;
  queue_now : string;
}.

(** The [for] loop over [parsed.tasks], from the iteration [i] on. *)
Fixpoint import_loop (draws : nat -> Draw) (i : nat) (userId : string)
    (tasks : list Partial.t) (d : Db.t) (importedTasks : nat) : Db.t * nat :=
  match tasks with
  | [] => (d, importedTasks)
  | task :: rest =>
      let e := draws i in
      let normalized :=
        import_task userId (zone e) (now_updated e) (now_created e) task in
      import_loop draws (S i) userId rest
        (Db.putTaskLocal (queue_uuid e) (queue_now e) d normalized true)
        (S importedTasks)
  end.

(** The items of a value that passed [isTaskArray], as the objects they are. *)
Definition task_items (value : option (list (option Partial.t))) : list Partial.t :=
  omap (fun item => item) (default [] value).

(** The first stage of [importBackupPayload], the one that writes the task
    and queue tables; the later stages write the other tables. *)
Definition import_tasks (draws : nat -> Draw) (userId : string)
    (tasks : option (list (option Partial.t))) (d : Db.t) : Db.t * nat :=
  if isTaskArray tasks
  then import_loop draws 0 userId (task_items tasks) d 0
  else (d, 0%nat).

End Backup.

(** ** [src/lib/date.ts] *)

Module Dates.
Import Js.

(** [a.localeCompare(b)]: negative, zero or positive. *)
Class Collator := { localeCompare : string -> string -> Z }.

Definition compareDateStrings `{Collator} (a b : option string) : Z :=
  if negb (truthy_opt a) && negb (truthy_opt b) then 0
  else if negb (truthy_opt a) then 1
  else if negb (truthy_opt b) then -1
  else localeCompare (default "" a) (default "" b).

Definition priorityRank (p : TaskPriority) : Z :=
  match p with high => 3 | medium => 2 | normal => 1 end.

End Dates.

(** ** The task handlers and the sync trigger of [src/App.tsx] *)

Module App.
Import Js.

(** A [Partial<TaskRecord>] built by a handler: a field is present or not,
    and a present nullable field may hold [null]. *)
Module Patch.
Record t := mk {
  status : option TaskStatus;
  scheduled_date : option (option string);
  completed_at : option (option string);
  original_scheduled_date : option (option string);
}.
Definition empty : t := mk None None None None.
End Patch.

(** [{ ...source, ...patch, updated_at }], for the fields a handler patches. *)
Definition spread (source : TaskRecord.t) (patch : Patch.t) (updated_at : string)
  : TaskRecord.t :=
  {| TaskRecord.id := TaskRecord.id source;
     TaskRecord.user_id := TaskRecord.user_id source;
     TaskRecord.title := TaskRecord.title source;
     TaskRecord.status := default (TaskRecord.status source) (Patch.status patch);
     TaskRecord.priority := TaskRecord.priority source;
     TaskRecord.tags := TaskRecord.tags source;
     TaskRecord.scheduled_date :=
       default (TaskRecord.scheduled_date source) (Patch.scheduled_date patch);
     TaskRecord.due_time := TaskRecord.due_time source;
     TaskRecord.estimate_minutes := TaskRecord.estimate_minutes source;
     TaskRecord.energy := TaskRecord.energy source;
     TaskRecord.created_at := TaskRecord.created_at source;
     TaskRecord.updated_at := updated_at;
     TaskRecord.completed_at :=
       default (TaskRecord.completed_at source) (Patch.completed_at patch);
     TaskRecord.original_scheduled_date :=
       default (TaskRecord.original_scheduled_date source)
         (Patch.original_scheduled_date patch);
     TaskRecord.timezone := TaskRecord.timezone source;
     TaskRecord.top3_slot := TaskRecord.top3_slot source;
     TaskRecord.last_notified_at := TaskRecord.last_notified_at source |}.

(** [next.completed_at = value] *)
Definition set_completed_at (next : TaskRecord.t) (value : option string)
  : TaskRecord.t :=
  {| TaskRecord.id := TaskRecord.id next;
     TaskRecord.user_id := TaskRecord.user_id next;
     TaskRecord.title := TaskRecord.title next;
     TaskRecord.status := TaskRecord.status next;
     TaskRecord.priority := TaskRecord.priority next;
     TaskRecord.tags := TaskRecord.tags next;
     TaskRecord.scheduled_date := TaskRecord.scheduled_date next;
     TaskRecord.due_time := TaskRecord.due_time next;
     TaskRecord.estimate_minutes := TaskRecord.estimate_minutes next;
     TaskRecord.energy := TaskRecord.energy next;
     TaskRecord.created_at := TaskRecord.created_at next;
     TaskRecord.updated_at := TaskRecord.updated_at next;
     TaskRecord.completed_at := value;
     TaskRecord.original_scheduled_date := TaskRecord.original_scheduled_date next;
     TaskRecord.timezone := TaskRecord.timezone next;
     TaskRecord.top3_slot := TaskRecord.top3_slot next;
     TaskRecord.last_notified_at := TaskRecord.last_notified_at next |}.

(** What one call of a handler draws from the environment:
    [crypto.randomUUID()] for the queue row (and for a new task), and the
    [nowIso()] of each use. *)
Record Stamp := mkStamp {
  uuid : string;
  task_uuid : string;
  now_created : string;
  now_updated : string;
  now_completed : string;
  now_enqueued : string;
}.

(** [tasks.find((task) => task.id === taskId)] over the live query of the
    session user's tasks. *)
Definition find_task (d : Db.t) (sessionUserId : option string) (taskId : string)
  : option TaskRecord.t :=
  userId ← sessionUserId;
  task ← Db.tasks d !! taskId;
  if decide (TaskRecord.user_id task = userId) then Some task else None.

(** The record [updateTask] writes for [source] and [patch]. *)
Definition next_task (s : Stamp) (source : TaskRecord.t) (patch : Patch.t)
  : TaskRecord.t :=
  let next := spread source patch (now_updated s) in
  let next :=
    if decide (Patch.status patch = Some done)
    then set_completed_at next
           (Some (or_else (TaskRecord.completed_at source) (now_completed s)))
    else next in
  if decide (Patch.status patch = Some todo) then set_completed_at next None else next.

Definition updateTask (s : Stamp) (d : Db.t) (sessionUserId : option string)
    (taskId : string) (patch : Patch.t) : Db.t :=
  match find_task d sessionUserId taskId with
  | None => d
  | Some source =>
      Db.putTaskLocal (uuid s) (now_enqueued s) d (next_task s source patch) true
  end.

(** The button of a task card:
    [updateTask(task.id, { status: isDone ? 'todo' : 'done' })]. *)
Definition toggle_patch (task : TaskRecord.t) : Patch.t :=
  Patch.mk (Some (if decide (TaskRecord.status task = done) then todo else done))
    None None None.

(** The patch of [handleMoveToToday]. *)
Definition move_patch (task : TaskRecord.t) (today : string) : Patch.t :=
  Patch.mk None (Some (Some today)) None
    (if negb (truthy_opt (TaskRecord.original_scheduled_date task))
        && truthy_opt (TaskRecord.scheduled_date task)
     then Some (TaskRecord.scheduled_date task) else None).

(** The record built by [handleCreateTask] and [addWeeklyReadingTask]. *)
Definition new_task (s : Stamp) (sessionUserId title : string) (priority : TaskPriority)
    (scheduledDate : option string) (zone : string) : TaskRecord.t :=
  {| TaskRecord.id := task_uuid s;
     TaskRecord.user_id := sessionUserId;
     TaskRecord.title := title;
     TaskRecord.status := todo;
     TaskRecord.priority := priority;
     TaskRecord.tags := [];
     TaskRecord.scheduled_date := scheduledDate;
     TaskRecord.due_time := None;
     TaskRecord.estimate_minutes := None;
     TaskRecord.energy := None;
     TaskRecord.created_at := now_updated s;
     TaskRecord.updated_at := now_updated s;
     TaskRecord.completed_at := None;
     TaskRecord.original_scheduled_date := None;
     TaskRecord.timezone := zone;
     TaskRecord.top3_slot := None;
     TaskRecord.last_notified_at := None |}.

(** *** [fireSync]

    An [async] function runs up to its first [await] when it is called and
    resumes when the awaited promise settles; other callbacks run in
    between.  [fireSync] is therefore two steps: [fireSync_call], up to
    [await syncNow(userId)], and [fireSync_settle], the rest.  The state
    records the calls of [syncNow] that have not settled yet. *)
Record SyncState := mkSync {
  hasSupabaseClientConfig : bool;
  isOnline : bool;
  syncInProgress : bool;
  in_flight : list string;
}.

Definition fireSync_call (st : SyncState) (userId : string) : SyncState :=
  if negb (hasSupabaseClientConfig st) || negb (isOnline st) then st
  else mkSync (hasSupabaseClientConfig st) (isOnline st) true (userId :: in_flight st).

Fixpoint remove_one (userId : string) (l : list string) : list string :=
  match l with
  | [] => []
  | x :: l => if decide (x = userId) then l else x :: remove_one userId l
  end.

(** The [finally] block, reached whether [syncNow] resolved or threw. *)
Definition fireSync_settle (st : SyncState) (userId : string) : SyncState :=
  mkSync (hasSupabaseClientConfig st) (isOnline st) false
    (remove_one userId (in_flight st)).

(** Where [fireSync] is called from. *)
Inductive trigger :=
| Bootstrap
| TimerTick
| OnlineEvent
| ChangeFeed
| LocalMutation
| SyncButton.

(** The guard each call site puts before [fireSync]: the change-feed
    listener checks [isOnline], the button is [disabled] while
    [syncInProgress] is set, the others call it as they are. *)
Definition on_trigger (st : SyncState) (t : trigger) (userId : string) : SyncState :=
  match t with
  | ChangeFeed => if isOnline st then fireSync_call st userId else st
  | SyncButton => if syncInProgress st then st else fireSync_call st userId
  | _ => fireSync_call st userId
  end.

Inductive event :=
| Trigger (t : trigger) (userId : string)
| Settled (userId : string)
| Connectivity (online : bool).

Definition step (st : SyncState) (e : event) : SyncState :=
  match e with
  | Trigger t userId => on_trigger st t userId
  | Settled userId => fireSync_settle st userId
  | Connectivity online =>
      mkSync (hasSupabaseClientConfig st) online (syncInProgress st) (in_flight st)
  end.

Definition run (st : SyncState) (es : list event) : SyncState := foldl step st es.

(** How many calls of [syncNow] for [userId] are in flight. *)
Definition flights (st : SyncState) (userId : string) : nat :=
  length (filter (fun u => u = userId) (in_flight st)).

(** *** The task lists *)

Definition sortTasks `{Dates.Collator} (a b : TaskRecord.t) : Z :=
  if decide (TaskRecord.status a ≠ TaskRecord.status b)
  then (if decide (TaskRecord.status a = todo) then -1 else 1)
  else
    let priorityDelta :=
      Dates.priorityRank (TaskRecord.priority b)
      - Dates.priorityRank (TaskRecord.priority a) in
    if decide (priorityDelta ≠ 0) then priorityDelta
    else
      let dateDelta :=
        Dates.compareDateStrings (TaskRecord.scheduled_date a)
          (TaskRecord.scheduled_date b) in
      if decide (dateDelta ≠ 0) then dateDelta
      else
        let dueDelta :=
          Dates.compareDateStrings (TaskRecord.due_time a) (TaskRecord.due_time b) in
        if decide (dueDelta ≠ 0) then dueDelta
        else
          Dates.compareDateStrings (Some (TaskRecord.updated_at b))
            (Some (TaskRecord.updated_at a)).

(** [xs.sort(compare)]: the sort is stable, an element staying before the
    later ones it does not compare greater than.  It is written here as the
    insertion of each element, from the last to the first, before the first
    element it is not after. *)
Definition not_after {A} (compare : A -> A -> Z) (a b : A) : Prop := compare a b ≤ 0.
Global Instance not_after_dec {A} (compare : A -> A -> Z) : RelDecision (not_after compare).
Proof. intros a b. unfold not_after. apply _. Defined.

Fixpoint insert_by {A} (compare : A -> A -> Z) (x : A) (sorted : list A) : list A :=
  match sorted with
  | [] => [x]
  | y :: rest =>
      if decide (not_after compare x y) then x :: sorted
      else y :: insert_by compare x rest
  end.

Definition sort_by {A} (compare : A -> A -> Z) (xs : list A) : list A :=
  foldr (insert_by compare) [] xs.

(** The live query of the session user's tasks. *)
Definition liveTasks (d : Db.t) (sessionUserId : option string) : list TaskRecord.t :=
  match sessionUserId with
  | Some userId => if truthy userId then Db.getAllUserTasks (Db.tasks d) userId else []
  | None => []
  end.

Section Lists.
Context `{Dates.Collator}.

Definition sorted_tasks (d : Db.t) (sessionUserId : option string) : list TaskRecord.t :=
  sort_by sortTasks (liveTasks d sessionUserId).

Definition openTasks (tasks : list TaskRecord.t) : list TaskRecord.t :=
  filter (fun task => TaskRecord.status task = todo) tasks.

Definition doneTasks (tasks : list TaskRecord.t) : list TaskRecord.t :=
  filter (fun task => TaskRecord.status task = done) tasks.

(** [Boolean(date && date < bound)] and [Boolean(date && date > bound)]:
    strings compare by code unit. *)
Definition before (date : option string) (bound : string) : bool :=
  match date with
  | Some s => truthy s && String.ltb s bound
  | None => false
  end.

Definition after (date : option string) (bound : string) : bool :=
  match date with
  | Some s => truthy s && String.ltb bound s
  | None => false
  end.

Definition overdueTasks (today : string) (openTasks : list TaskRecord.t)
  : list TaskRecord.t :=
  sort_by sortTasks
    (filter (fun task => before (TaskRecord.scheduled_date task) today = true) openTasks).

Definition todayTasks (today : string) (openTasks : list TaskRecord.t)
  : list TaskRecord.t :=
  sort_by sortTasks
    (filter (fun task => TaskRecord.scheduled_date task = Some today) openTasks).

Definition weekTasks (today thisWeekEnd : string) (openTasks : list TaskRecord.t)
  : list TaskRecord.t :=
  sort_by sortTasks
    (filter (fun task =>
               match TaskRecord.scheduled_date task with
               | Some s => truthy s && String.ltb today s && String.leb s thisWeekEnd
               | None => false
               end = true) openTasks).

Definition laterTasks (thisWeekEnd : string) (openTasks : list TaskRecord.t)
  : list TaskRecord.t :=
  sort_by sortTasks
    (filter (fun task =>
               negb (truthy_opt (TaskRecord.scheduled_date task))
               || after (TaskRecord.scheduled_date task) thisWeekEnd = true) openTasks).
End Lists.

(** *** [handleMoveToToday] *)

Definition handleMoveToToday (s : Stamp) (d : Db.t) (sessionUserId : option string)
    (task : TaskRecord.t) (today : string) : Db.t :=
  updateTask s d sessionUserId (TaskRecord.id task) (move_patch task today).

End App.

(** ** [supabase/migrations/202602121700_init_tasks_and_push.sql] *)

Module Sql.
Import Pg.

Definition micros_per_minute : Z := 60000000.

Section WithServer.
Context `{Server}.

(** [coalesce(nullif(task_row.timezone, ''), 'UTC')] *)
Definition zone_of (timezone : string) : string :=
  if decide (timezone = "") then "UTC" else timezone.

(** [public.task_due_at_utc]: [Some None] is SQL [null], [None] the error
    that [make_timestamptz] raises. *)
Definition task_due_at_utc (task_row : Task.t) : option (option timestamptz) :=
  match Task.scheduled_date task_row, Task.due_time task_row with
  | Some d, Some t =>
      Some <$> make_timestamptz (year d) (month d) (day d)
                 (hour t) (minute t) (second t) (zone_of (Task.timezone task_row))
  | _, _ => Some None
  end.

(** The [bounds] of [get_due_tasks]:
    [now() + make_interval(mins => greatest(window_minutes, 1))]. *)
Definition start_at (now : timestamptz) : timestamptz := now.
Definition end_at (now : timestamptz) (window_minutes : Z) : timestamptz :=
  now + Z.max window_minutes 1 * micros_per_minute.

(** A row returned by [get_due_tasks]. *)
Record due_task := mkdue {
  id : string;
  user_id : string;
  title : string;
  scheduled_date : date;
  due_time : time;
  timezone : string;
  due_at : timestamptz;
}.

(** The clauses of the [where] clause that call [task_due_at_utc], for a
    row whose due instant is [due]. *)
Definition due_condition (now : timestamptz) (window_minutes : Z)
    (t : Task.t) (due : timestamptz) : bool :=
  (start_at now <=? due)
  && (due <? end_at now window_minutes)
  && match Task.last_notified_at t with
     | None => true
     | Some notified => notified <? due
     end.

(** What the [where] clause and the select list make of the row [t]: the
    row to return, if any, or the error that [task_due_at_utc] raises
    ([None]).  The test on [status] and the two [is not null] tests read
    plain columns; the planner puts them before the clauses that call the
    function, which cost more, and a row that fails one of them is dropped
    without the function being called. *)
Definition select_due (now : timestamptz) (window_minutes : Z) (t : Task.t)
  : option (option due_task) :=
  match Task.status t, Task.scheduled_date t, Task.due_time t with
  | todo, Some d, Some tm =>
      computed ← task_due_at_utc t;
      Some (match computed with
            | Some due =>
                if due_condition now window_minutes t due
                then Some (mkdue (Task.id t) (Task.user_id t) (Task.title t) d tm
                             (Task.timezone t) due)
                else None
            | None => None
            end)
  | _, _, _ => Some None
  end.

Definition due_le (a b : due_task) : Prop := due_at a ≤ due_at b.
Global Instance due_le_dec : RelDecision due_le.
Proof. intros a b. unfold due_le. apply _. Defined.

(** [public.get_due_tasks], evaluated at [now()] = [now]: the rows it
    returns, or [None] when the evaluation of a row raises an error, which
    fails the statement as a whole. *)
Definition get_due_tasks (now : timestamptz) (window_minutes : Z)
    (tasks : list Task.t) : option (list due_task) :=
  selected ← mapM (select_due now window_minutes) tasks;
  Some (merge_sort due_le (omap (fun row => row) selected)).

Definition notify (now : timestamptz) (t : Task.t) : Task.t :=
  {| Task.id := Task.id t;
     Task.user_id := Task.user_id t;
     Task.title := Task.title t;
     Task.status := Task.status t;
     Task.priority := Task.priority t;
     Task.tags := Task.tags t;
     Task.scheduled_date := Task.scheduled_date t;
     Task.due_time := Task.due_time t;
     Task.estimate_minutes := Task.estimate_minutes t;
     Task.energy := Task.energy t;
     Task.created_at := Task.created_at t;
     Task.updated_at := now;
     Task.completed_at := Task.completed_at t;
     Task.original_scheduled_date := Task.original_scheduled_date t;
     Task.timezone := Task.timezone t;
     Task.top3_slot := Task.top3_slot t;
     Task.last_notified_at := Some now |}.

(** [public.mark_tasks_notified], evaluated at [now()] = [now]. *)
Definition mark_tasks_notified (now : timestamptz) (task_ids : list string)
    (tasks : list Task.t) : list Task.t :=
  (fun t => if decide (Task.id t ∈ task_ids) then notify now t else t) <$> tasks.
End WithServer.

End Sql.

(** ** [api/cron/dispatch-due.ts] *)

Module Cron.
Import Js Pg.

(** A query parameter: [string | string[]]. *)
Inductive qvalue := QString (s : string) | QArray (l : list string).

Record Request := mkRequest {
  headers : gmap string string;
  query : gmap string qvalue;
}.

(** [process.env], as far as the handler reads it. *)
Record ProcessEnv := mkEnv { CRON_SECRET : option string }.

(** [s.replace(pattern, replacement)] for a string pattern: the first
    occurrence only. *)
Fixpoint replace_first (pattern replacement s : string) : string :=
  if String.prefix pattern s
  then replacement +:+
       String.substring (String.length pattern)
         (String.length s - String.length pattern) s
  else match s with
       | EmptyString => EmptyString
       | String c rest => String c (replace_first pattern replacement rest)
       end.

Definition canRun (env : ProcessEnv) (request : Request) : bool :=
  if truthy_opt (headers request !! "x-vercel-cron") then true
  else
    let secret := CRON_SECRET env in
    if negb (truthy_opt secret) then true
    else
      let bearer := replace_first "Bearer " "" <$> (headers request !! "authorization") in
      bool_decide (bearer = secret).

Definition isUnsubscribedError (statusCode : option Z) : bool :=
  bool_decide (statusCode = Some 404) || bool_decide (statusCode = Some 410).

(** The integer a JSON number denotes when it is passed for a parameter of
    type [integer]: it has to be whole and within the range of [int4]. *)
Definition integer_of_float (x : float) : option Z :=
  match Prim2SF x with
  | S754_zero _ => Some 0
  | S754_finite sign m e =>
      let magnitude :=
        if 0 <=? e then Some (Z.pos m * 2 ^ e)
        else if Z.pos m mod 2 ^ (- e) =? 0 then Some (Z.pos m / 2 ^ (- e))
        else None in
      (fun v => if sign then - v else v) <$> magnitude
  | _ => None
  end.

Definition int4_of_float (x : float) : option Z :=
  v ← integer_of_float x;
  if (- 2 ^ 31 <=? v) && (v <? 2 ^ 31) then Some v else None.

Record push_payload := mkPayload {
  title : string;
  body : string;
  url : string;
  tag : string;
}.

(** How a call of [sendWebPush] ends: it returns, or throws an error whose
    [statusCode] may be missing. *)
Inductive push_result := Delivered | Refused (statusCode : option Z).

(** What is outside the handler's control during one run: the clock of the
    database at the scan and at the marking, which requests fail for a
    reason of their own (the scan also fails when it raises an error), and
    what the push service answers. *)
Record Oracle := mkOracle {
  now_scan : timestamptz;
  now_mark : timestamptz;
  due_fails : bool;
  subscriptions_fail : bool;
  mark_fails : bool;
  sendWebPush : Subscription.t -> push_payload -> push_result;
}.

(** The two tables the dispatcher works on. *)
Record World := mkWorld {
  tasks : list Task.t;
  push_subscriptions : list Subscription.t;
}.

(** What the handler does to the outside, in order. *)
Inductive effect :=
| RpcGetDueTasks (window_minutes : float)
| SelectSubscriptions (userIds : list string)
| SendWebPush (sub : Subscription.t) (payload : push_payload)
| DeleteSubscription (id : string)
| RpcMarkTasksNotified (task_ids : list string).

Inductive response_body :=
| Unauthorized
| NoDueTasks
| Dispatched (scanned notified_tasks pushes_sent : nat)
| DispatchFailed.

Record Outcome := mkOutcome {
  status : Z;
  json : response_body;
  effects : list effect;
  world : World;
}.

(** [[...new Set(xs)]]: first occurrences, in order. *)
Fixpoint uniq (seen xs : list string) : list string :=
  match xs with
  | [] => []
  | x :: xs => if decide (x ∈ seen) then uniq seen xs else x :: uniq (x :: seen) xs
  end.

(** [sentTaskIds.add(id)] on the insertion-ordered set. *)
Definition set_add (s : list string) (x : string) : list string :=
  if decide (x ∈ s) then s else s ++ [x].

(** The [byUser] map. *)
Definition group_by_user (subs : list Subscription.t)
  : gmap string (list Subscription.t) :=
  foldl (fun byUser sub =>
           let current := default [] (byUser !! Subscription.user_id sub) in
           <[Subscription.user_id sub := current ++ [sub]]> byUser)
        ∅ subs.

Definition delete_subscription (w : World) (id : string) : World :=
  mkWorld (tasks w)
    (filter (fun s => Subscription.id s ≠ id) (push_subscriptions w)).

Record progress := mkProgress {
  pr_world : World;
  pr_effects : list effect;
  sentTaskIds : list string;
  sentCount : nat;
}.

Section WithServer.
Context `{Host} `{Server}.

Definition Number_of_qvalue (v : qvalue) : float :=
  match v with
  | QString s => Number_of_string s
  | QArray l => Number_of_string (String.concat "," l)
  end.

(** [Number(request.query.window ?? 5)] *)
Definition windowMinutes (request : Request) : float :=
  match query request !! "window" with
  | Some v => Number_of_qvalue v
  | None => 5%float
  end.

(** [Number.isFinite(windowMinutes) ? windowMinutes : 5] *)
Definition window_argument (request : Request) : float :=
  let w := windowMinutes request in
  if is_finite w then w else 5%float.

Definition payload_of (task : Sql.due_task) : push_payload :=
  {| title := "Tâche à lancer maintenant";
     body := Sql.title task +:+ " • " +:+ date_out (Sql.scheduled_date task)
             +:+ " " +:+ String.substring 0 5 (time_out (Sql.due_time task));
     url := "/?tab=today&task=" +:+ Sql.id task;
     tag := "task-" +:+ Sql.id task |}.

(** The inner loop: one task, every subscription of its owner. *)
Fixpoint deliver (o : Oracle) (task : Sql.due_task) (subs : list Subscription.t)
    (st : progress) (deliveredToAtLeastOneDevice : bool) : progress * bool :=
  match subs with
  | [] => (st, deliveredToAtLeastOneDevice)
  | sub :: rest =>
      let payload := payload_of task in
      let sent := pr_effects st ++ [SendWebPush sub payload] in
      match sendWebPush o sub payload with
      | Delivered =>
          deliver o task rest
            (mkProgress (pr_world st) sent (sentTaskIds st) (S (sentCount st))) true
      | Refused statusCode =>
          if isUnsubscribedError statusCode
          then deliver o task rest
                 (mkProgress (delete_subscription (pr_world st) (Subscription.id sub))
                    (sent ++ [DeleteSubscription (Subscription.id sub)])
                    (sentTaskIds st) (sentCount st))
                 deliveredToAtLeastOneDevice
          else deliver o task rest
                 (mkProgress (pr_world st) sent (sentTaskIds st) (sentCount st))
                 deliveredToAtLeastOneDevice
      end
  end.

(** The outer loop over the due tasks. *)
Fixpoint dispatch (o : Oracle) (byUser : gmap string (list Subscription.t))
    (due : list Sql.due_task) (st : progress) : progress :=
  match due with
  | [] => st
  | task :: rest =>
      let userSubscriptions := default [] (byUser !! Sql.user_id task) in
      match userSubscriptions with
      | [] => dispatch o byUser rest st
      | _ :: _ =>
          let '(st, delivered) := deliver o task userSubscriptions st false in
          dispatch o byUser rest
            (if delivered
             then mkProgress (pr_world st) (pr_effects st)
                    (set_add (sentTaskIds st) (Sql.id task)) (sentCount st)
             else st)
      end
  end.

Definition handler (env : ProcessEnv) (o : Oracle) (w : World) (request : Request)
  : Outcome :=
  if negb (canRun env request) then mkOutcome 401 Unauthorized [] w
  else
    let arg := window_argument request in
    let asked := [RpcGetDueTasks arg] in
    match (if due_fails o then None
           else window_minutes ← int4_of_float arg;
                Sql.get_due_tasks (now_scan o) window_minutes (tasks w)) with
    | None => mkOutcome 500 DispatchFailed asked w
    | Some due =>
        match due with
        | [] => mkOutcome 200 NoDueTasks asked w
        | _ :: _ =>
            let userIds := uniq [] (Sql.user_id <$> due) in
            let asked := asked ++ [SelectSubscriptions userIds] in
            if subscriptions_fail o then mkOutcome 500 DispatchFailed asked w
            else
              let subscriptions :=
                filter (fun s => Subscription.user_id s ∈ userIds)
                  (push_subscriptions w) in
              let byUser := group_by_user subscriptions in
              let st := dispatch o byUser due (mkProgress w asked [] 0) in
              match sentTaskIds st with
              | [] =>
                  mkOutcome 200 (Dispatched (length due) 0 (sentCount st))
                    (pr_effects st) (pr_world st)
              | _ :: _ =>
                  let done := pr_effects st ++ [RpcMarkTasksNotified (sentTaskIds st)] in
                  if mark_fails o
                  then mkOutcome 500 DispatchFailed done (pr_world st)
                  else
                    mkOutcome 200
                      (Dispatched (length due) (length (sentTaskIds st)) (sentCount st))
                      done
                      (mkWorld
                         (Sql.mark_tasks_notified (now_mark o) (sentTaskIds st)
                            (tasks (pr_world st)))
                         (push_subscriptions (pr_world st)))
              end
        end
    end.
End WithServer.

End Cron.

(** ** [api/_lib/web-push.ts] *)

Module WebPush.

Record ServerPushSubscription := mkSubscription {
  endpoint : string;
  p256dh : string;
  auth : string;
}.

(** [tag] is optional. *)
Record PushPayload := mkPayload {
  title : string;
  body : string;
  url : string;
  tag : option string;
}.

(** The object whose JSON text is handed to [webpush.sendNotification]; a
    key is absent when [JSON.stringify] leaves it out, its value being
    [undefined]. *)
Record Message := mkMessage {
  m_title : option string;
  m_body : option string;
  m_url : option string;
  m_tag : option string;
  m_icon : option string;
  m_badge : option string;
}.

Definition message (payload : PushPayload) : Message :=
  {| m_title := Some (title payload);
     m_body := Some (body payload);
     m_url := Some (url payload);
     m_tag := tag payload;
     m_icon := Some "/icons/icon-192.png";
     m_badge := Some "/icons/icon-192.png" |}.

(** The payload as the dispatcher builds it, with its [tag]. *)
Definition of_dispatch (payload : Cron.push_payload) : PushPayload :=
  mkPayload (Cron.title payload) (Cron.body payload) (Cron.url payload)
    (Some (Cron.tag payload)).

End WebPush.

(** ** The [push] listener of the service worker ([src/sw.ts]) *)

Module ServiceWorker.
Import Js.

(** What [event.data.json()] evaluates to: an object with the keys of
    [PushPayload], [null], or a value of another kind (a number, a string, an
    array), every key of which reads [undefined]. *)
Inductive json_value :=
| JsonObject (payload : WebPush.Message)
| JsonNull
| JsonOther.

(** [event.data], when the message carries data: [json] is [None] when
    [json()] throws. *)
Record PushMessageData := mkData {
  json : option json_value;
  text : string;
}.

(** The arguments of [showNotification]. *)
Record Notification := mkNotification {
  title : string;
  body : string;
  icon : string;
  badge : string;
  tag : string;
  data_url : string;
}.

Definition no_keys : WebPush.Message := WebPush.mkMessage None None None None None None.

(** The listener: [None] when it throws before [showNotification] is
    reached, which is when [payload] is [undefined] or [null]. *)
Definition on_push (data : option PushMessageData) : option Notification :=
  payload ←
    match data with
    | None => None
    | Some data =>
        match json data with
        | Some (JsonObject payload) => Some payload
        | Some JsonNull => None
        | Some JsonOther => Some no_keys
        | None =>
            Some (WebPush.mkMessage None (Some (text data)) None None None None)
        end
    end;
  Some
    {| title := or_else (WebPush.m_title payload) "Rappel de tâche";
       body := or_else (WebPush.m_body payload) "Une tâche arrive maintenant.";
       icon := or_else (WebPush.m_icon payload) "/icons/icon-192.png";
       badge := or_else (WebPush.m_badge payload) "/icons/icon-192.png";
       tag := or_else (WebPush.m_tag payload) "fg-task-reminder";
       data_url := or_else (WebPush.m_url payload) "/?tab=today" |}.

End ServiceWorker.

(** ** The endpoint that sends one push ([isAuthorized] and its [handler]) *)

Module PushSend.
Import Js.

Record Body := mkBody {
  subscription : option WebPush.ServerPushSubscription;
  payload : option WebPush.PushPayload;
}.

(** [request.body] is [undefined] when the request carries none. *)
Record Request := mkRequest {
  method : string;
  headers : gmap string string;
  body : option Body;
}.

Record ProcessEnv := mkEnv { INTERNAL_API_SECRET : option string }.

Definition isAuthorized (env : ProcessEnv) (request : Request) : bool :=
  let internalSecret := INTERNAL_API_SECRET env in
  if negb (truthy_opt internalSecret) then true
  else
    let bearer :=
      Cron.replace_first "Bearer " "" <$> (headers request !! "authorization") in
    let xApiKey := headers request !! "x-api-key" in
    bool_decide (bearer = internalSecret) || bool_decide (xApiKey = internalSecret).

(** How [sendWebPush] ends: it returns, or throws an [Error] with its
    message, or throws something else. *)
Inductive send_result := Sent | ThrewError (message : string) | ThrewOther.

Inductive response_body :=
| MethodNotAllowed
| Unauthorized
| MissingSubscriptionOrPayload
| Ok
| Failed (message : string).

Record Outcome := mkOutcome {
  status : Z;
  json : response_body;
  sent : list (WebPush.ServerPushSubscription * WebPush.PushPayload);
}.

(** The handler: [None] when it throws, which is when an authorised [POST]
    carries no body. *)
Definition handler (env : ProcessEnv)
    (sendWebPush : WebPush.ServerPushSubscription -> WebPush.PushPayload -> send_result)
    (request : Request) : option Outcome :=
  if negb (bool_decide (method request = "POST"))
  then Some (mkOutcome 405 MethodNotAllowed [])
  else if negb (isAuthorized env request)
  then Some (mkOutcome 401 Unauthorized [])
  else
    body ← body request;
    match subscription body, payload body with
    | Some subscription, Some payload =>
        match sendWebPush subscription payload with
        | Sent => Some (mkOutcome 200 Ok [(subscription, payload)])
        | ThrewError message =>
            Some (mkOutcome 500 (Failed message) [(subscription, payload)])
        | ThrewOther =>
            Some (mkOutcome 500 (Failed "Push failed") [(subscription, payload)])
        end
    | _, _ => Some (mkOutcome 400 MissingSubscriptionOrPayload [])
    end.

End PushSend.

(** * The terms of the properties

    What the statements below speak of: orders on timestamps, the runs of a
    flush or of a dispatch that end well, the write operations of the client
    and the invariants they are to keep. *)

(** ** Merging *)

Section MergeTerms.
Context `{Js.Host} `{Pg.Server}.
Import Db.

(** The time value of a stamp as the [Date] parser reads it, in whole
    milliseconds; the empty stamp counts as 0, and there is none for a stamp
    the parser cannot read. *)
Definition time_value (stamp : string) : option Z :=
  match stamp with
  | EmptyString => Some 0
  | String _ _ => Js.Date_getTime stamp
  end.

(** Both stamps have a time value and that of [a] is the greater. *)
Definition later_in_ms (a b : string) : Prop :=
  ∃ x y : Z, time_value a = Some x ∧ time_value b = Some y ∧ y < x.

(** The client reads the text the server prints for the instant [t], which
    counts microseconds, as the milliseconds of [t]: the digits past the
    third of the fraction are dropped. *)
Definition read_to_the_millisecond (t : Pg.timestamptz) : Prop :=
  time_value (Pg.timestamptz_out t) = Some (t / 1000).

(** The instant of [a]'s [updated_at] is strictly after that of [b]: both
    read as time values and the first is the greater. *)
Definition updated_after (a b : TaskRecord.t) : Prop :=
  ∃ x y : Z,
    toMs (Some (TaskRecord.updated_at a)) = Some x ∧
    toMs (Some (TaskRecord.updated_at b)) = Some y ∧ y < x.

(** [settled ts x]: merging [x] into [ts] would change nothing. *)
Definition settled (ts : gmap string TaskRecord.t) (x : TaskRecord.t) : Prop :=
  isIncomingNewer x (ts !! TaskRecord.id x) = false.

End MergeTerms.

(** ** The queue *)

Section QueueTerms.
Context `{Js.Host} `{Pg.Server} `{Sync.Remote}.
Import Db Sync.

(** Every row of the queue table sits at its own [id], as [put] stores it. *)
Definition queue_keyed (q : gmap string QueueOperation.t) : Prop :=
  map_Forall (fun k op => QueueOperation.id op = k) q.

(** Ascending enqueue time. *)
Definition enqueued_le (a b : QueueOperation.t) : Prop :=
  String.le (QueueOperation.created_at a) (QueueOperation.created_at b).

(** Every operation of [ops] is applied by the remote, one after the other,
    starting from [r]; the result is the remote they leave behind. *)
Fixpoint apply_all (f : Fresh) (r : remote) (ops : list QueueOperation.t)
  : option remote :=
  match ops with
  | [] => Some r
  | op :: rest =>
      match send_operation f r op with
      | (r', Applied) => apply_all f r' rest
      | (_, Failed) => None
      end
  end.

Definition owner_sorted (q : gmap string QueueOperation.t) (userId : string)
  : list QueueOperation.t :=
  merge_sort queue_le (filter (owned_by userId) (queue_rows q)).

(** The queue once the operations [ops] have been marked processed. *)
Definition processed (q : gmap string QueueOperation.t) (ops : list QueueOperation.t)
  : gmap string QueueOperation.t :=
  foldl (fun q op => markQueueProcessed q (QueueOperation.id op)) q ops.

End QueueTerms.

(** ** Pulling *)

Section PullTerms.
Context `{Js.Host} `{Pg.Server} `{Sync.Remote}.
Import Js Db Sync.

(** The cursor a pull starts from. *)
Definition cursor_text (d : Db.t) (userId : string) : string :=
  default "1970-01-01T00:00:00.000Z" (getMetaValue (meta d) (lastPullKey userId)).

End PullTerms.

(** ** Scanning *)

Section ScanTerms.
Context `{Pg.Server}.
Import Pg.

(** The zone in which the date and the time of a task are read: its own,
    and UTC when it names none. *)
Definition own_zone (t : Task.t) : string :=
  match Task.timezone t with
  | EmptyString => "UTC"
  | String _ _ => Task.timezone t
  end.

(** The due instant of a task: its date and its time read in its own zone.
    There is none when the date or the time is missing, and none when the
    server does not know the zone. *)
Definition due_instant (t : Task.t) : option timestamptz :=
  d ← Task.scheduled_date t;
  tm ← Task.due_time t;
  make_timestamptz (year d) (month d) (day d) (hour tm) (minute tm) (second tm)
    (own_zone t).

(** An open task that has a date and a time. *)
Definition open_dated (t : Task.t) : Prop :=
  Task.status t = todo ∧ is_Some (Task.scheduled_date t) ∧ is_Some (Task.due_time t).

(** The tasks a scan at [now] is to select for a window of [window_minutes]
    minutes, one at least: open, due within the window, and not notified
    since they are due. *)
Definition selected (now : timestamptz) (window_minutes : Z) (t : Task.t) : Prop :=
  Task.status t = todo ∧
  match due_instant t with
  | Some due =>
      now ≤ due ∧ due < now + Z.max window_minutes 1 * 60000000 ∧
      match Task.last_notified_at t with
      | Some notified => notified < due
      | None => True
      end
  | None => False
  end.

Global Instance selected_dec now window_minutes t :
  Decision (selected now window_minutes t).
Proof.
  unfold selected. destruct (due_instant t); [|apply _].
  destruct (Task.last_notified_at t); apply _.
Defined.

End ScanTerms.

(** ** Dispatching *)

Section DispatchTerms.
Context `{Js.Host} `{Pg.Server}.
Import Js Pg Cron.

(** The endpoints registered for an owner when the run starts. *)
Definition owner_subscriptions (w : World) (userId : string) : list Subscription.t :=
  filter (fun s => Subscription.user_id s = userId) (push_subscriptions w).

Definition push_succeeds (o : Oracle) (task : Sql.due_task) (sub : Subscription.t)
  : bool :=
  match sendWebPush o sub (payload_of task) with
  | Delivered => true
  | Refused _ => false
  end.

(** A task is delivered when the push to one of its owner's endpoints succeeds. *)
Definition delivered (o : Oracle) (w : World) (task : Sql.due_task) : bool :=
  existsb (push_succeeds o task) (owner_subscriptions w (Sql.user_id task)).

(** What one delivery attempt does: the send, and the deletion of the
    endpoint when the push service says it is gone. *)
Definition attempt (o : Oracle) (task : Sql.due_task) (sub : Subscription.t)
  : list effect :=
  SendWebPush sub (payload_of task) ::
  match sendWebPush o sub (payload_of task) with
  | Refused statusCode =>
      if isUnsubscribedError statusCode
      then [DeleteSubscription (Subscription.id sub)] else []
  | Delivered => []
  end.

Definition attempts (o : Oracle) (w : World) (task : Sql.due_task) : list effect :=
  owner_subscriptions w (Sql.user_id task) ≫= attempt o task.

(** The ids of the delivered tasks, in scan order. *)
Definition delivered_ids (o : Oracle) (w : World) (due : list Sql.due_task)
  : list string :=
  foldl set_add [] (Sql.id <$> filter (fun t => delivered o w t = true) due).

Definition marks (es : list effect) : list (list string) :=
  omap (fun e => match e with RpcMarkTasksNotified ids => Some ids | _ => None end) es.

(** The effects of a run in which the caller is authorised and no request
    to the database fails. *)
Definition run_effects (o : Oracle) (w : World) (request : Request)
    (due : list Sql.due_task) : list effect :=
  RpcGetDueTasks (window_argument request) ::
  match due with
  | [] => []
  | _ :: _ =>
      SelectSubscriptions (uniq [] (Sql.user_id <$> due)) ::
      (due ≫= attempts o w) ++
      match delivered_ids o w due with
      | [] => []
      | _ :: _ => [RpcMarkTasksNotified (delivered_ids o w due)]
      end
  end.

End DispatchTerms.

(** ** Local edits *)

Section SnapshotTerms.
Import Db.

(** A later local edit: a put or a delete, each with the [uuid] and the
    [nowIso()] it draws for its queue row. *)
Inductive local_edit :=
| EditPut (uuid now : string) (task : TaskRecord.t) (shouldQueue : bool)
| EditDelete (uuid now userId taskId : string) (shouldQueue : bool).

Definition edit_uuid (e : local_edit) : string :=
  match e with
  | EditPut uuid _ _ _ => uuid
  | EditDelete uuid _ _ _ _ => uuid
  end.

Definition apply_edit (d : Db.t) (e : local_edit) : Db.t :=
  match e with
  | EditPut uuid now task shouldQueue => putTaskLocal uuid now d task shouldQueue
  | EditDelete uuid now userId taskId shouldQueue =>
      deleteTaskLocal uuid now d userId taskId shouldQueue
  end.

End SnapshotTerms.

(** ** Completion *)

Section CompletionTerms.
Context `{Js.Host} `{Pg.Server} `{Sync.Remote}.
Import Js Db Sync App.

(** [completed_at] is non-null exactly when the task is done. *)
Definition completion_consistent (t : TaskRecord.t) : Prop :=
  is_Some (TaskRecord.completed_at t) ↔ TaskRecord.status t = done.

(** The same, for a row as it arrives: its [status] reads ['done']. *)
Definition row_consistent (raw : Partial.t) : Prop :=
  is_Some (Partial.completed_at raw) ↔ Partial.status raw = Some "done".

Definition store_consistent (d : Db.t) : Prop :=
  map_Forall (fun _ t => completion_consistent t) (tasks d).

(** The operations that write a task record on the client: the two edits of
    a task card, the creation of a task, the migration of a legacy task, the
    import of an item of a backup, the merge of a pulled batch, a change-feed
    event, and a deletion. *)
Inductive write :=
| Toggle (s : Stamp) (sessionUserId : option string) (task : TaskRecord.t)
| MoveToToday (s : Stamp) (sessionUserId : option string) (task : TaskRecord.t)
    (today : string)
| Create (s : Stamp) (sessionUserId title : string) (priority : TaskPriority)
    (scheduledDate : option string) (zone : string)
| MigrateLegacy (s : Stamp) (today : string) (legacy : Migration.LegacyTask.t)
    (userId tz : string)
| Import (s : Stamp) (userId zone : string) (row : Partial.t)
| MergePulled (f : Fresh) (rows : list Partial.t)
| FeedEvent (f : Fresh) (payload : change)
| Remove (s : Stamp) (userId taskId : string).

Definition apply_write (d : Db.t) (w : write) : Db.t :=
  match w with
  | Toggle s sessionUserId task =>
      updateTask s d sessionUserId (TaskRecord.id task) (toggle_patch task)
  | MoveToToday s sessionUserId task today =>
      updateTask s d sessionUserId (TaskRecord.id task) (move_patch task today)
  | Create s sessionUserId title priority scheduledDate zone =>
      putTaskLocal (uuid s) (now_enqueued s) d
        (new_task s sessionUserId title priority scheduledDate zone) true
  | MigrateLegacy s today legacy userId tz =>
      match Migration.toLegacyTaskRecord (task_uuid s) (now_updated s) today
              legacy userId tz with
      | Some record => putTaskLocal (uuid s) (now_enqueued s) d record true
      | None => d
      end
  | Import s userId zone row =>
      if Backup.is_task row
      then putTaskLocal (uuid s) (now_enqueued s) d
             (Backup.import_task userId zone (now_updated s) (now_created s) row) true
      else d
  | MergePulled f rows =>
      with_tasks d (upsertTasksFromRemote (tasks d) (normalizeTaskRecord f <$> rows))
  | FeedEvent f payload => with_tasks d (on_change f (tasks d) payload)
  | Remove s userId taskId => deleteTaskLocal (uuid s) (now_enqueued s) d userId taskId true
  end.

(** The rows a write takes from outside satisfy the invariant themselves. *)
Definition rows_consistent (w : write) : Prop :=
  match w with
  | Import _ _ _ row => row_consistent row
  | MergePulled _ rows => Forall row_consistent rows
  | FeedEvent _ (ChangeWrite (Some new)) => row_consistent new
  | _ => True
  end.

End CompletionTerms.

(** ** The task table and the task lists *)

Section ViewTerms.
Context `{Dates.Collator}.
Import Dates App.


(** The collator answers with opposite signs when its arguments are swapped. *)
Definition collator_antisymmetric : Prop :=
  ∀ x y : string, Z.sgn (localeCompare y x) = - Z.sgn (localeCompare x y).

(** No task that is done stands before one that is open. *)
Definition done_last (a b : TaskRecord.t) : Prop :=
  TaskRecord.status a = done → TaskRecord.status b = done.

End ViewTerms.

(** ** Importing *)

Section ImportTerms.

(** The key under which the import stores an item. *)
Definition item_id (row : Partial.t) : string := default "" (Partial.id row).

End ImportTerms.

(** ** Endpoints that are gone *)

Section RunTerms.
Context `{Pg.Server}.
Import Pg Cron.

(** The push service answers 404 or 410 when [task] is pushed to [sub]. *)
Definition reported_gone (o : Oracle) (task : Sql.due_task) (sub : Subscription.t)
  : Prop :=
  ∃ statusCode,
    sendWebPush o sub (payload_of task) = Refused statusCode
    ∧ isUnsubscribedError statusCode = true.

End RunTerms.

(** ** A reference platform

    Executable stand-ins for the built-ins of the host and of the server, to
    run the definitions above on concrete data.  They read and write
    timestamps in the ISO 8601 forms the application exchanges
    ([2026-03-01T09:58:00.000Z], [2026-03-01T09:58:00.25+00:00]), in UTC,
    with the proleptic Gregorian calendar. *)

Module Reference.

(** Days since 1970-01-01 of a civil date, and back. *)
Definition days_from_civil (y m d : Z) : Z :=
  let y := if m <=? 2 then y - 1 else y in
  let era := y / 400 in
  let yoe := y - era * 400 in
  let doy := (153 * (if 2 <? m then m - 3 else m + 9) + 2) / 5 + d - 1 in
  let doe := yoe * 365 + yoe / 4 - yoe / 100 + doy in
  era * 146097 + doe - 719468.

Definition civil_from_days (z : Z) : Z * Z * Z :=
  let z := z + 719468 in
  let era := z / 146097 in
  let doe := z - era * 146097 in
  let yoe := (doe - doe / 1460 + doe / 36524 - doe / 146096) / 365 in
  let doy := doe - (365 * yoe + yoe / 4 - yoe / 100) in
  let mp := (5 * doy + 2) / 153 in
  let d := doy - (153 * mp + 2) / 5 + 1 in
  let m := if mp <? 10 then mp + 3 else mp - 9 in
  (if m <=? 2 then yoe + era * 400 + 1 else yoe + era * 400, m, d).

Definition micros_per_second : Z := 1000000.
Definition micros_per_day : Z := 86400 * micros_per_second.

Definition instant (y m d hh mm : Z) (second_micros : Z) : Z :=
  (days_from_civil y m d * 86400 + hh * 3600 + mm * 60) * micros_per_second
  + second_micros.

(** *** Writing *)

Definition digit (n : Z) : ascii := ascii_of_N (48 + Z.to_N (n mod 10)).
Definition two (n : Z) : string := String (digit (n / 10)) (String (digit n) "").
Definition three (n : Z) : string := String (digit (n / 100)) (two n).
Definition four (n : Z) : string := two (n / 100) +:+ two n.
Definition six (n : Z) : string := three (n / 1000) +:+ three n.

Definition date_text (y m d : Z) : string :=
  four y +:+ "-" +:+ two m +:+ "-" +:+ two d.

Definition clock_text (micros_of_day : Z) : string :=
  two (micros_of_day / (3600 * micros_per_second)) +:+ ":" +:+
  two (micros_of_day / (60 * micros_per_second) mod 60) +:+ ":" +:+
  two (micros_of_day / micros_per_second mod 60).

Fixpoint drop_zeros (l : list ascii) : list ascii :=
  match l with
  | c :: l' => if decide (c = "0"%char) then drop_zeros l' else l
  | [] => []
  end.

(** The microseconds of a second as the digits of a fraction, without the
    zeros at the end. *)
Definition fraction_text (micros : Z) : string :=
  string_of_list_ascii (rev (drop_zeros (rev (list_ascii_of_string (six micros))))).

(** [2026-03-01T09:58:00+00:00], [2026-03-01T09:58:00.25+00:00]: a fraction
    is written when there is one, up to its last digit that is not zero. *)
Definition timestamptz_text (z : Z) : string :=
  let '(y, m, d) := civil_from_days (z / micros_per_day) in
  let rest := z mod micros_per_day in
  date_text y m d +:+ "T" +:+ clock_text rest +:+
  (if rest mod micros_per_second =? 0 then ""
   else "." +:+ fraction_text (rest mod micros_per_second)) +:+ "+00:00".

(** [new Date(ms).toISOString()], for the years 0000 to 9999. *)
Definition iso_text (ms : Z) : option string :=
  let z := ms * 1000 in
  let '(y, m, d) := civil_from_days (z / micros_per_day) in
  if (0 <=? y) && (y <=? 9999)
  then Some (date_text y m d +:+ "T" +:+ clock_text (z mod micros_per_day)
             +:+ "." +:+ three (ms mod 1000) +:+ "Z")
  else None.

(** *** Reading *)

Definition digit_value (c : ascii) : option Z :=
  let n := Z.of_N (N_of_ascii c) in
  if (48 <=? n) && (n <=? 57) then Some (n - 48) else None.

(** Exactly [n] digits. *)
Fixpoint digits (n : nat) (acc : Z) (s : string) : option (Z * string) :=
  match n with
  | O => Some (acc, s)
  | S n =>
      match s with
      | String c s => v ← digit_value c; digits n (acc * 10 + v) s
      | EmptyString => None
      end
  end.

Definition expect (c : ascii) (s : string) : option string :=
  match s with
  | String c' s => if decide (c = c') then Some s else None
  | EmptyString => None
  end.

(** The digits after the decimal point, as microseconds; digits past the
    sixth are dropped. *)
Fixpoint fraction (scale acc : Z) (s : string) : Z * string :=
  match s with
  | String c s' =>
      match digit_value c with
      | Some v => fraction (scale / 10) (acc + v * scale) s'
      | None => (acc, s)
      end
  | EmptyString => (acc, s)
  end.

(** Microseconds since the epoch of a timestamp written in UTC, with [Z] or
    [+00:00] for the zone. *)
Definition read_timestamp (s : string) : option Z :=
  '(y, s) ← digits 4 0 s; s ← expect "-" s;
  '(m, s) ← digits 2 0 s; s ← expect "-" s;
  '(d, s) ← digits 2 0 s; s ← expect "T" s;
  '(hh, s) ← digits 2 0 s; s ← expect ":" s;
  '(mm, s) ← digits 2 0 s; s ← expect ":" s;
  '(ss, s) ← digits 2 0 s;
  let '(micros, s) :=
    match expect "." s with
    | Some s => fraction 100000 0 s
    | None => (0, s)
    end in
  if decide (s = "Z" ∨ s = "+00:00")
  then Some (instant y m d hh mm (ss * micros_per_second + micros))
  else None.

(** An optionally signed run of decimal digits as a double, ["Infinity"],
    and the empty string, which [Number] reads as 0; anything else is taken
    to be [NaN] here. *)
Fixpoint natural (acc : float) (s : string) : float :=
  match s with
  | EmptyString => acc
  | String c s =>
      match digit_value c with
      | Some v => natural (acc * 10 + PrimFloat.of_uint63 (Uint63.of_Z v))%float s
      | None => nan
      end
  end.

Definition number_text (s : string) : float :=
  match s with
  | EmptyString => 0%float
  | String "-" (String c s') => (- natural 0 (String c s'))%float
  | String _ _ => if decide (s = "Infinity") then infinity else natural 0 s
  end.

Definition is_space (c : ascii) : bool :=
  let n := N_of_ascii c in ((9 <=? n) && (n <=? 13) || (n =? 32))%N.

Fixpoint drop_spaces (l : list ascii) : list ascii :=
  match l with
  | c :: l' => if is_space c then drop_spaces l' else l
  | [] => []
  end.

(** [trim] for white space within ASCII. *)
Definition trim_text (s : string) : string :=
  string_of_list_ascii
    (rev (drop_spaces (rev (drop_spaces (list_ascii_of_string s))))).

#[export] Instance host : Js.Host := {|
  Js.Date_getTime s := (fun micros => micros / 1000) <$> read_timestamp s;
  Js.Number_of_string s := number_text (trim_text s);
  Js.Date_toISOString ms :=
    if (-8640000000000000 <=? ms) && (ms <=? 8640000000000000) then iso_text ms else None;
  Js.String_trim := trim_text;
|}.

(** The zones of the scenarios with their offset from UTC in minutes;
    [Asia/Tokyo] has had the same one since 1951.  Every other name stands
    for a zone the server does not know. *)
Definition zone_offset (zone : string) : option Z :=
  if decide (zone = "UTC") then Some 0
  else if decide (zone = "Asia/Tokyo") then Some 540
  else None.

#[export] Instance server : Pg.Server := {|
  Pg.make_timestamptz y m d hh mm second zone :=
    (fun offset => instant y m d hh mm second - offset * 60 * micros_per_second)
      <$> zone_offset zone;
  Pg.timestamptz_in := read_timestamp;
  Pg.timestamptz_out := timestamptz_text;
  Pg.date_out d := date_text (Pg.year d) (Pg.month d) (Pg.day d);
  Pg.time_out t :=
    clock_text ((Pg.hour t * 3600 + Pg.minute t * 60) * micros_per_second + Pg.second t);
|}.

(** A remote that holds a table of tasks, keeps a log of the writes it
    applied, and refuses the writes that concern the tasks listed in
    [refusing]. *)
Record project := mkProject {
  table : list Pg.Task.t;
  refusing : list string;
  upserted : list TaskRecord.t;
  deleted : list string;
}.

#[export] Instance remote : Sync.Remote := {|
  Sync.remote := project;
  Sync.tasks_upsert r task :=
    if decide (TaskRecord.id task ∈ refusing r) then (r, Sync.Failed)
    else (mkProject (table r) (refusing r) (upserted r ++ [task]) (deleted r),
          Sync.Applied);
  Sync.tasks_delete r taskId userId :=
    if decide (taskId ∈ refusing r) then (r, Sync.Failed)
    else (mkProject (table r) (refusing r) (upserted r) (deleted r ++ [taskId]),
          Sync.Applied);
  Sync.tasks_table r := Some (table r);
|}.

(** [localeCompare] by code unit, which is how a collation orders the digits,
    the hyphen and the colon of dates and times. *)
#[export] Instance collator : Dates.Collator := {|
  Dates.localeCompare a b :=
    match String.compare a b with
    | Lt => -1
    | Eq => 0
    | Gt => 1
    end;
|}.

End Reference.

(** ** Scenario data

    Two owners, three tasks due on the morning of 2026-03-01 (UTC), a queue of
    pending operations and the endpoints registered for push. *)

Module Scenario.
Import Reference.

Definition fresh : Sync.Fresh :=
  Sync.mkFresh "00000000-0000-4000-8000-000000000000"
    "2026-03-01T09:58:00.000Z" "2026-03-01T09:58:00.000Z".

(** *** On the device *)

Definition local_task (id user_id title updated_at : string) : TaskRecord.t :=
  {| TaskRecord.id := id;
     TaskRecord.user_id := user_id;
     TaskRecord.title := title;
     TaskRecord.status := todo;
     TaskRecord.priority := normal;
     TaskRecord.tags := [];
     TaskRecord.scheduled_date := Some "2026-03-01";
     TaskRecord.due_time := Some "10:00:00";
     TaskRecord.estimate_minutes := None;
     TaskRecord.energy := None;
     TaskRecord.created_at := "2026-03-01T08:00:00.000Z";
     TaskRecord.updated_at := updated_at;
     TaskRecord.completed_at := None;
     TaskRecord.original_scheduled_date := None;
     TaskRecord.timezone := "UTC";
     TaskRecord.top3_slot := None;
     TaskRecord.last_notified_at := None |}.

Definition report : TaskRecord.t :=
  local_task "t1" "u1" "Write report" "2026-03-01T09:00:00.000Z".
Definition report_edited : TaskRecord.t :=
  local_task "t1" "u1" "Write the report" "2026-03-01T09:05:00.000Z".
Definition groceries : TaskRecord.t :=
  local_task "t2" "u1" "Buy groceries" "2026-03-01T09:01:00.000Z".

Definition operation (id user_id : string) (type : OperationType) (task_id : string)
    (payload : Payload) (created_at : string) : QueueOperation.t :=
  QueueOperation.mk id user_id type task_id payload created_at 0.

Definition op1 : QueueOperation.t :=
  operation "q1" "u1" upsert_task "t1" (PayloadTask report) "2026-03-01T09:00:00.000Z".
Definition op2 : QueueOperation.t :=
  operation "q2" "u1" upsert_task "t2" (PayloadTask groceries) "2026-03-01T09:01:00.000Z".
Definition op3 : QueueOperation.t :=
  operation "q3" "u1" delete_task "t3" (PayloadId "t3") "2026-03-01T09:02:00.000Z".
Definition op4 : QueueOperation.t :=
  operation "q4" "u2" delete_task "t9" (PayloadId "t9") "2026-03-01T08:30:00.000Z".

(** Put in an order that is not the order of enqueueing. *)
Definition pending_queue : gmap string QueueOperation.t :=
  Db.queue_put (Db.queue_put (Db.queue_put (Db.queue_put ∅ op3) op4) op1) op2.

Definition device : Db.t :=
  Db.mk {[ "t1" := report ]} pending_queue
    {[ Sync.lastPullKey "u1" := "2026-03-01T09:00:00+00:00" ]}.


(** *** On the server *)

Definition row (id user_id title : string) (status : TaskStatus) (due_minute : Z)
    (updated_at : Pg.timestamptz) (last_notified_at : option Pg.timestamptz)
  : Pg.Task.t :=
  {| Pg.Task.id := id;
     Pg.Task.user_id := user_id;
     Pg.Task.title := title;
     Pg.Task.status := status;
     Pg.Task.priority := normal;
     Pg.Task.tags := [];
     Pg.Task.scheduled_date := Some (Pg.mkdate 2026 3 1);
     Pg.Task.due_time := Some (Pg.mktime 10 due_minute 0);
     Pg.Task.estimate_minutes := None;
     Pg.Task.energy := None;
     Pg.Task.created_at := instant 2026 3 1 8 0 0;
     Pg.Task.updated_at := updated_at;
     Pg.Task.completed_at :=
       match status with done => Some updated_at | todo => None end;
     Pg.Task.original_scheduled_date := None;
     Pg.Task.timezone := "UTC";
     Pg.Task.top3_slot := None;
     Pg.Task.last_notified_at := last_notified_at |}.

(** The report as another device left it at 09:30, due at 10:00. *)
Definition report_row : Pg.Task.t :=
  row "t1" "u1" "Write the final report" todo 0 (instant 2026 3 1 9 30 0) None.
(** A task of the second owner, due at 10:02. *)
Definition call_row : Pg.Task.t :=
  row "t5" "u2" "Call the bank" todo 2 (instant 2026 3 1 8 15 0) None.
(** A task that is done. *)
Definition laundry_row : Pg.Task.t :=
  row "t6" "u1" "Laundry" done 1 (instant 2026 3 1 9 10 0) None.

Definition server_tasks : list Pg.Task.t := [report_row; call_row; laundry_row].

(** Two later versions of the report: one written 999 microseconds after
    the version of 09:30, within the same millisecond, and one written a
    millisecond after it. *)
Definition report_row_soon : Pg.Task.t :=
  row "t1" "u1" "Write the final report, revised" todo 0
    (instant 2026 3 1 9 30 999) None.
Definition report_row_later : Pg.Task.t :=
  row "t1" "u1" "Write the final report, revised" todo 0
    (instant 2026 3 1 9 30 1000) None.

(** A task of the second owner due at 19:01 in Tokyo, which is 10:01 UTC,
    and a task whose zone no server knows. *)
Definition zoned_row (id title zone : string) : Pg.Task.t :=
  {| Pg.Task.id := id;
     Pg.Task.user_id := "u2";
     Pg.Task.title := title;
     Pg.Task.status := todo;
     Pg.Task.priority := normal;
     Pg.Task.tags := [];
     Pg.Task.scheduled_date := Some (Pg.mkdate 2026 3 1);
     Pg.Task.due_time := Some (Pg.mktime 19 1 0);
     Pg.Task.estimate_minutes := None;
     Pg.Task.energy := None;
     Pg.Task.created_at := instant 2026 3 1 8 0 0;
     Pg.Task.updated_at := instant 2026 3 1 8 20 0;
     Pg.Task.completed_at := None;
     Pg.Task.original_scheduled_date := None;
     Pg.Task.timezone := zone;
     Pg.Task.top3_slot := None;
     Pg.Task.last_notified_at := None |}.

(** A device that has pulled the version of 09:30: it holds that version and
    its cursor stands at that instant; and a project in which the report has
    been revised within the same millisecond. *)
Definition synced : Db.t :=
  Db.mk {[ "t1" := Sync.normalizeTaskRecord fresh (Pg.to_json report_row) ]} ∅
    {[ "tasks_last_pull_u1" := "2026-03-01T09:30:00+00:00" ]}.

Definition project_revised : @Sync.remote Reference.remote :=
  Reference.mkProject [report_row_soon] [] [] [].

Definition tokyo_row : Pg.Task.t := zoned_row "t8" "Call the Tokyo office" "Asia/Tokyo".
Definition martian_row : Pg.Task.t := zoned_row "t9" "Water the plants" "Mars/Olympus".

(** A project that refuses what concerns the task [t2]. *)
Definition project : @Sync.remote Reference.remote :=
  Reference.mkProject server_tasks ["t2"] [] [].

(** A project that refuses nothing. *)
Definition project_open : @Sync.remote Reference.remote :=
  Reference.mkProject server_tasks [] [] [].

(** The same project once it has applied the upsert of the report. *)
Definition project_after_report : @Sync.remote Reference.remote :=
  Reference.mkProject server_tasks ["t2"]
    [Sync.normalizeTaskRecord fresh (Sync.of_payload (PayloadTask report))] [].

Definition phone : Pg.Subscription.t :=
  Pg.Subscription.mk "s1" "u1" "https://push.example/phone" "key1" "auth1".
Definition laptop : Pg.Subscription.t :=
  Pg.Subscription.mk "s2" "u1" "https://push.example/laptop" "key2" "auth2".
Definition tablet : Pg.Subscription.t :=
  Pg.Subscription.mk "s3" "u2" "https://push.example/tablet" "key3" "auth3".

(** A row as a client that reopened a task without clearing [completed_at]
    would have left it. *)
Definition reopened_row : Partial.t :=
  {| Partial.id := Some "t7";
     Partial.user_id := Some "u1";
     Partial.title := Some "Renew passport";
     Partial.status := Some "todo";
     Partial.priority := Some "normal";
     Partial.tags := Some [];
     Partial.scheduled_date := Some "2026-03-02";
     Partial.due_time := None;
     Partial.estimate_minutes := None;
     Partial.energy := None;
     Partial.created_at := Some "2026-02-20T08:00:00+00:00";
     Partial.updated_at := Some "2026-03-01T09:40:00+00:00";
     Partial.completed_at := Some "2026-02-27T18:00:00+00:00";
     Partial.original_scheduled_date := None;
     Partial.timezone := Some "UTC";
     Partial.top3_slot := None;
     Partial.last_notified_at := None |}.

Definition world : Cron.World :=
  Cron.mkWorld server_tasks [phone; laptop; tablet].

(** The rows of the scan for the report and for the call. *)
Definition report_due : Sql.due_task :=
  Sql.mkdue "t1" "u1" "Write the final report" (Pg.mkdate 2026 3 1) (Pg.mktime 10 0 0)
    "UTC" (instant 2026 3 1 10 0 0).
Definition call_due : Sql.due_task :=
  Sql.mkdue "t5" "u2" "Call the bank" (Pg.mkdate 2026 3 1) (Pg.mktime 10 2 0)
    "UTC" (instant 2026 3 1 10 2 0).
Definition tokyo_due : Sql.due_task :=
  Sql.mkdue "t8" "u2" "Call the Tokyo office" (Pg.mkdate 2026 3 1) (Pg.mktime 19 1 0)
    "Asia/Tokyo" (instant 2026 3 1 10 1 0).

(** The scan runs at 09:58:00, the marking at 09:58:02. *)
Definition scan_time : Pg.timestamptz := instant 2026 3 1 9 58 0.
Definition mark_time : Pg.timestamptz := instant 2026 3 1 9 58 (2 * micros_per_second).

(** The phone takes the push, the laptop's endpoint is gone, the tablet's
    push service is down. *)
Definition push_service (sub : Pg.Subscription.t) (_ : Cron.push_payload)
  : Cron.push_result :=
  if decide (Pg.Subscription.id sub = "s1") then Cron.Delivered
  else if decide (Pg.Subscription.id sub = "s2") then Cron.Refused (Some 410)
  else Cron.Refused (Some 500).

Definition oracle : Cron.Oracle :=
  Cron.mkOracle scan_time mark_time false false false push_service.

(** Every push is refused. *)
Definition oracle_down : Cron.Oracle :=
  Cron.mkOracle scan_time mark_time false false false
    (fun _ _ => Cron.Refused (Some 500)).

Definition request_with (authorization : option string) : Cron.Request :=
  Cron.mkRequest
    (match authorization with
     | Some value => {[ "authorization" := value ]}
     | None => ∅
     end) ∅.

(** A call with a [window] parameter. *)
Definition request_window (window : string) : Cron.Request :=
  Cron.mkRequest ∅ {[ "window" := Cron.QString window ]}.

Definition secret_set : Cron.ProcessEnv := Cron.mkEnv (Some "s3cret").
Definition secret_unset : Cron.ProcessEnv := Cron.mkEnv None.

(** A call that carries the scheduler's marker and a token that is not the
    secret. *)
Definition marked_request : Cron.Request :=
  Cron.mkRequest {[ "x-vercel-cron" := "1"; "authorization" := "Bearer guess" ]} ∅.

(** *** Local edits *)

Definition stamp (n : string) (now : string) : App.Stamp :=
  App.mkStamp ("q-" +:+ n) ("t-" +:+ n) now now now now.

Definition stamp1 : App.Stamp := stamp "1" "2026-03-02T08:00:00.000Z".
Definition stamp2 : App.Stamp := stamp "2" "2026-03-03T08:00:00.000Z".

(** The pull of the scenario, done. *)
Definition pulled : Db.t :=
  default device (Sync.pullUpdates fresh device project "u1").

(** Tasks of every section of the plan of 2026-03-02, a Monday. *)
Definition planned (id : string) (date : option string) (status : TaskStatus)
  : TaskRecord.t :=
  {| TaskRecord.id := id;
     TaskRecord.user_id := "u1";
     TaskRecord.title := "Task " +:+ id;
     TaskRecord.status := status;
     TaskRecord.priority := normal;
     TaskRecord.tags := [];
     TaskRecord.scheduled_date := date;
     TaskRecord.due_time := None;
     TaskRecord.estimate_minutes := None;
     TaskRecord.energy := None;
     TaskRecord.created_at := "2026-03-01T08:00:00.000Z";
     TaskRecord.updated_at := "2026-03-01T08:00:00.000Z";
     TaskRecord.completed_at :=
       match status with done => Some "2026-03-01T09:00:00.000Z" | todo => None end;
     TaskRecord.original_scheduled_date := None;
     TaskRecord.timezone := "UTC";
     TaskRecord.top3_slot := None;
     TaskRecord.last_notified_at := None |}.

Definition plan : list TaskRecord.t :=
  [planned "p1" (Some "2026-03-08") todo;
   planned "p2" (Some "2026-03-01") todo;
   planned "p3" None todo;
   planned "p4" (Some "2026-03-02") todo;
   planned "p5" (Some "2026-03-09") todo;
   planned "p6" (Some "2026-03-04") todo].

Definition mixed : list TaskRecord.t :=
  [planned "p7" (Some "2026-03-01") done;
   planned "p2" (Some "2026-03-01") todo;
   planned "p8" None done;
   planned "p4" (Some "2026-03-02") todo].

(** A thousand and one tasks of [u1], all marked in the same run and so
    carrying the same [updated_at]. *)
Definition bulk_row (i : nat) : Pg.Task.t :=
  row ("b" +:+ four (Z.of_nat i)) "u1" "Bulk" todo 0 (instant 2026 3 1 9 30 0) None.
Definition bulk : list Pg.Task.t := bulk_row <$> seq 0 1001.
Definition project_bulk : @Sync.remote Reference.remote :=
  Reference.mkProject bulk [] [] [].

(** The first batch the device gets from that project. *)
Definition first_batch : list Pg.Task.t :=
  default [] (Sync.pull_request bulk "u1" (cursor_text device "u1")).

(** *** The legacy data of the first version *)

Definition quote : string := String (ascii_of_nat 34) "".
Definition key (name : string) : string := quote +:+ name +:+ quote +:+ ":".

(** One legacy task, created on 2023-11-14 and completed, as the first
    version kept it in [localStorage]. *)
Definition legacy_document : string :=
  "[{" +:+ key "id" +:+ "1700000000000," +:+ key "text" +:+ quote +:+ " Pay the rent "
  +:+ quote +:+ "," +:+ key "completed" +:+ "true}]".

Definition legacy_errand : Migration.LegacyTask.t :=
  Migration.LegacyTask.mk (Migration.LegacyNumber 1700000000000) (Some " Pay the rent ")
    true None None None.

(** [JSON.parse] on the one document of the scenario; another text is taken
    not to parse. *)
#[export] Instance legacy_json : Migration.Json := {|
  Migration.JSON_parse s :=
    if decide (s = legacy_document) then Some [legacy_errand] else None;
|}.

Definition legacy_storage : gmap string string := {[ "fg_tasks" := legacy_document ]}.

Definition migration_environment : Migration.Environment :=
  Migration.mkEnvironment "b1" "2026-03-01T07:00:00.000Z"
    (fun i =>
       Migration.mkDraw "m1" "2026-03-01T07:00:00.000Z" "2026-03-01" "q-m1"
         "2026-03-01T07:00:00.001Z").

(** A device on which nothing is stored yet, and the device of the scenario. *)
Definition new_store : Migration.Store := Migration.mkStore Db.empty ∅.
Definition used_store : Migration.Store := Migration.mkStore device ∅.

Definition migrated_store : Migration.Store :=
  (Migration.migrateLegacyDataIfNeeded migration_environment legacy_storage new_store
     "u1" "UTC").1.

Definition migrated_errand : TaskRecord.t :=
  {| TaskRecord.id := "m1";
     TaskRecord.user_id := "u1";
     TaskRecord.title := "Pay the rent";
     TaskRecord.status := done;
     TaskRecord.priority := normal;
     TaskRecord.tags := [];
     TaskRecord.scheduled_date := Some "2026-03-01";
     TaskRecord.due_time := None;
     TaskRecord.estimate_minutes := None;
     TaskRecord.energy := None;
     TaskRecord.created_at := "2023-11-14T22:13:20.000Z";
     TaskRecord.updated_at := "2026-03-01T07:00:00.000Z";
     TaskRecord.completed_at := Some "2026-03-01T07:00:00.000Z";
     TaskRecord.original_scheduled_date := None;
     TaskRecord.timezone := "UTC";
     TaskRecord.top3_slot := None;
     TaskRecord.last_notified_at := None |}.

(** *** A backup file *)

(** The report as a backup made by another account on 2026-02-28 has it. *)
Definition backup_row : Partial.t :=
  {| Partial.id := Some "t1";
     Partial.user_id := Some "u9";
     Partial.title := Some "Write report (backup)";
     Partial.status := Some "todo";
     Partial.priority := Some "high";
     Partial.tags := Some [];
     Partial.scheduled_date := Some "2026-03-01";
     Partial.due_time := None;
     Partial.estimate_minutes := None;
     Partial.energy := None;
     Partial.created_at := Some "2026-02-28T08:00:00.000Z";
     Partial.updated_at := Some "2026-02-28T08:00:00.000Z";
     Partial.completed_at := None;
     Partial.original_scheduled_date := None;
     Partial.timezone := None;
     Partial.top3_slot := None;
     Partial.last_notified_at := None |}.

(** A second copy of the same task further down in the file, done and with
    no stamp of its own. *)
Definition backup_row_again : Partial.t :=
  {| Partial.id := Some "t1";
     Partial.user_id := Some "u9";
     Partial.title := Some "Write report (second copy)";
     Partial.status := Some "done";
     Partial.priority := Some "high";
     Partial.tags := Some [];
     Partial.scheduled_date := Some "2026-02-27";
     Partial.due_time := None;
     Partial.estimate_minutes := None;
     Partial.energy := None;
     Partial.created_at := Some "2026-02-27T08:00:00.000Z";
     Partial.updated_at := None;
     Partial.completed_at := Some "2026-02-27T18:00:00.000Z";
     Partial.original_scheduled_date := None;
     Partial.timezone := None;
     Partial.top3_slot := None;
     Partial.last_notified_at := None |}.

Definition backup_items : list (option Partial.t) :=
  [Some backup_row; Some backup_row_again].

Definition import_draws (i : nat) : Backup.Draw :=
  match i with
  | O =>
      Backup.mkDraw "Europe/Paris" "2026-03-02T08:00:00.000Z" "2026-03-02T08:00:00.000Z"
        "q-i1" "2026-03-02T08:00:00.001Z"
  | S _ =>
      Backup.mkDraw "Europe/Paris" "2026-03-02T08:00:00.002Z" "2026-03-02T08:00:00.002Z"
        "q-i2" "2026-03-02T08:00:00.003Z"
  end.

(** *** The endpoint that sends one push *)

Definition internal_secret : PushSend.ProcessEnv := PushSend.mkEnv (Some "s3cret").

Definition push_request : PushSend.Request :=
  PushSend.mkRequest "POST" {[ "authorization" := "Bearer guess" ]}
    (Some (PushSend.mkBody
             (Some (WebPush.mkSubscription "https://push.example/phone" "key1" "auth1"))
             (Some (WebPush.mkPayload "Hello" "A test" "/" None)))).

End Scenario.

(** * Properties *)

(** ** Last-write-wins merge ([upsertTasksFromRemote]) *)

Section MergeFacts.
Context `{Js.Host} `{Pg.Server}.
Import Db.

Lemma gt_true_iff (a b : Js.number) :
  Js.gt a b = true ↔ ∃ x y : Z, a = Some x ∧ b = Some y ∧ y < x.
Proof.
  split.
  - destruct a as [x|], b as [y|]; simpl; try discriminate.
    intros Hlt. exists x, y. repeat split. lia.
  - intros (x & y & -> & -> & Hlt). simpl. lia.
Qed.

Lemma gt_irrefl (a : Js.number) : Js.gt a a = false.
Proof. destruct a as [x|]; simpl; [lia | reflexivity]. Qed.

(** If [c] beats [b] and [a] does not beat [b], then [a] does not beat [c]. *)
Lemma gt_false_mono (a b c : Js.number) :
  Js.gt a b = false → Js.gt c b = true → Js.gt a c = false.
Proof.
  destruct a as [x|], b as [y|], c as [z|]; simpl; try discriminate; try reflexivity.
  intros. lia.
Qed.

Lemma isIncomingNewer_some (incoming current : TaskRecord.t) :
  isIncomingNewer incoming (Some current) = true ↔ updated_after incoming current.
Proof. unfold isIncomingNewer, updated_after. apply gt_true_iff. Qed.

Lemma upsert_one_settled ts x : settled ts x → upsert_one ts x = ts.
Proof. unfold settled, upsert_one. simpl. intros ->. reflexivity. Qed.

Lemma settled_self ts x : settled (upsert_one ts x) x.
Proof.
  unfold settled, upsert_one, tasks_put. simpl.
  destruct (isIncomingNewer x (ts !! TaskRecord.id x)) eqn:E; [|exact E].
  rewrite lookup_insert_eq. simpl. apply gt_irrefl.
Qed.

Lemma settled_step ts x y : settled ts x → settled (upsert_one ts y) x.
Proof.
  unfold settled, upsert_one, tasks_put. simpl. intros Hx.
  destruct (isIncomingNewer y (ts !! TaskRecord.id y)) eqn:E; [|exact Hx].
  destruct (decide (TaskRecord.id y = TaskRecord.id x)) as [Heq|Hne].
  - rewrite Heq, lookup_insert_eq. rewrite Heq in E.
    destruct (ts !! TaskRecord.id x) as [c|]; simpl in *; [|discriminate].
    eapply gt_false_mono; eauto.
  - rewrite lookup_insert_ne by exact Hne. exact Hx.
Qed.

Lemma settled_fold (batch : list TaskRecord.t) ts x :
  settled ts x → settled (foldl upsert_one ts batch) x.
Proof.
  revert ts. induction batch as [|y batch IH]; intros ts Hx; simpl; [exact Hx|].
  apply IH, settled_step, Hx.
Qed.

Lemma upsert_settles (batch : list TaskRecord.t) ts :
  Forall (settled (upsertTasksFromRemote ts batch)) batch.
Proof.
  unfold upsertTasksFromRemote. revert ts.
  induction batch as [|y batch IH]; intros ts; simpl; constructor.
  - apply settled_fold, settled_self.
  - apply IH.
Qed.

Lemma upsert_noop (batch : list TaskRecord.t) ts :
  Forall (settled ts) batch → upsertTasksFromRemote ts batch = ts.
Proof.
  unfold upsertTasksFromRemote.
  induction 1 as [|y batch Hy _ IH]; simpl; [reflexivity|].
  rewrite upsert_one_settled by exact Hy. exact IH.
Qed.

Lemma toMs_time_value (stamp : string) : toMs (Some stamp) = time_value stamp.
Proof. by destruct stamp. Qed.

Lemma isIncomingNewer_later (incoming current : TaskRecord.t) :
  isIncomingNewer incoming (Some current) = true ↔
  later_in_ms (TaskRecord.updated_at incoming) (TaskRecord.updated_at current).
Proof.
  unfold isIncomingNewer, later_in_ms. rewrite !toMs_time_value. apply gt_true_iff.
Qed.

Lemma upsert_single ts incoming :
  upsertTasksFromRemote ts [incoming]
  = if isIncomingNewer incoming (ts !! TaskRecord.id incoming)
    then <[TaskRecord.id incoming := incoming]> ts else ts.
Proof. reflexivity. Qed.

(** C1, as the code has it.  An incoming task whose id is absent from the
    store is accepted.  Against a stored record it replaces it when the time
    value of its [updated_at], read by [Date] in whole milliseconds, is the
    greater, and the store is left as it is otherwise: on a tie, and when
    one of the two stamps cannot be read.  For two versions of a row that
    come from the server, whose instants count microseconds, this is the
    order of the instants cut to the millisecond: the later version
    replaces the stored one when it is later by a millisecond boundary, and
    not when both fall in the same millisecond.  Merging a batch a second
    time changes nothing. *)
Theorem merge_last_write_wins
    (ts : gmap string TaskRecord.t) (incoming : TaskRecord.t)
    (batch : list TaskRecord.t) :
  (ts !! TaskRecord.id incoming = None →
     upsertTasksFromRemote ts [incoming] = <[TaskRecord.id incoming := incoming]> ts)
  ∧ (∀ current, ts !! TaskRecord.id incoming = Some current →
       (later_in_ms (TaskRecord.updated_at incoming) (TaskRecord.updated_at current) →
          upsertTasksFromRemote ts [incoming]
          = <[TaskRecord.id incoming := incoming]> ts)
       ∧ (¬ later_in_ms (TaskRecord.updated_at incoming) (TaskRecord.updated_at current) →
            upsertTasksFromRemote ts [incoming] = ts))
  ∧ (∀ (f f' : Sync.Fresh) (new old : Pg.Task.t),
       incoming = Sync.normalizeTaskRecord f (Pg.to_json new) →
       ts !! TaskRecord.id incoming = Some (Sync.normalizeTaskRecord f' (Pg.to_json old)) →
       read_to_the_millisecond (Pg.Task.updated_at new) →
       read_to_the_millisecond (Pg.Task.updated_at old) →
       (Pg.Task.updated_at old / 1000 < Pg.Task.updated_at new / 1000 →
          upsertTasksFromRemote ts [incoming]
          = <[TaskRecord.id incoming := incoming]> ts)
       ∧ (Pg.Task.updated_at new / 1000 ≤ Pg.Task.updated_at old / 1000 →
            upsertTasksFromRemote ts [incoming] = ts))
  ∧ upsertTasksFromRemote (upsertTasksFromRemote ts batch) batch
    = upsertTasksFromRemote ts batch.
Proof.
  split; [|split; [|split]].
  - intros Hnone. rewrite upsert_single, Hnone. reflexivity.
  - intros current Hcur. rewrite upsert_single, Hcur. split; intros Hafter.
    + apply isIncomingNewer_later in Hafter. rewrite Hafter. reflexivity.
    + destruct (isIncomingNewer incoming (Some current)) eqn:E; [|reflexivity].
      apply isIncomingNewer_later in E. contradiction.
  - intros f f' new old -> Hcur Hnew Hold. rewrite upsert_single, Hcur.
    assert (isIncomingNewer (Sync.normalizeTaskRecord f (Pg.to_json new))
              (Some (Sync.normalizeTaskRecord f' (Pg.to_json old))) = true
            ↔ Pg.Task.updated_at old / 1000 < Pg.Task.updated_at new / 1000) as Hiff.
    { rewrite isIncomingNewer_later. unfold later_in_ms. cbn.
      unfold read_to_the_millisecond in Hnew, Hold. rewrite Hnew, Hold. split.
      - intros (x & y & [= <-] & [= <-] & Hlt). exact Hlt.
      - intros Hlt. eauto. }
    split; intros Hcmp.
    + apply Hiff in Hcmp. rewrite Hcmp. reflexivity.
    + destruct Hiff as [Hto _].
      destruct (isIncomingNewer _ _); [specialize (Hto eq_refl); lia|reflexivity].
  - apply upsert_noop, upsert_settles.
Qed.

End MergeFacts.

(** ** Queue replay ([getPendingQueue], [flushQueue]) *)

Section QueueFacts.
Context `{Js.Host} `{Pg.Server} `{Sync.Remote}.
Import Db Sync.

(** The queue table is keyed by the rows' ids from the start and under every
    operation of [db.ts] on it. *)
Lemma queue_keyed_empty : queue_keyed ∅.
Proof. apply map_Forall_empty. Qed.

Lemma queue_keyed_put q op : queue_keyed q → queue_keyed (queue_put q op).
Proof. intros Hq. unfold queue_keyed, queue_put. by apply map_Forall_insert_2. Qed.

Lemma queue_keyed_processed q queueId :
  queue_keyed q → queue_keyed (markQueueProcessed q queueId).
Proof. intros Hq. unfold queue_keyed, markQueueProcessed. by apply map_Forall_delete. Qed.

Lemma queue_keyed_bump q queueId :
  queue_keyed q → queue_keyed (bumpQueueRetry q queueId).
Proof.
  intros Hq. unfold bumpQueueRetry. destruct (q !! queueId); [|exact Hq].
  by apply queue_keyed_put.
Qed.

Global Instance queue_le_total : Total queue_le.
Proof.
  intros a b. unfold queue_le, queue_leb.
  rewrite (String.compare_antisym (QueueOperation.created_at b)).
  destruct (String.compare _ _) eqn:E; simpl; auto.
  apply String.leb_total.
Qed.

Lemma queue_le_enqueued a b : queue_le a b → enqueued_le a b.
Proof.
  unfold queue_le, queue_leb, enqueued_le, String.le, String.leb.
  destruct (String.compare _ _); simpl; auto. discriminate.
Qed.

Lemma Sorted_weaken {A} (R S : relation A) (l : list A) :
  (∀ x y, R x y → S x y) → Sorted R l → Sorted S l.
Proof.
  intros HRS. induction 1 as [|x l Hl IH Hhd]; constructor; [exact IH|].
  destruct Hhd; constructor; auto.
Qed.

Lemma StronglySorted_take {A} (R : relation A) (n : nat) (l : list A) :
  StronglySorted R l → StronglySorted R (take n l).
Proof.
  intros Hl. rewrite <- (take_drop n l) in Hl.
  apply StronglySorted_app_1_l in Hl. exact Hl.
Qed.

Lemma owner_sorted_ascending q userId :
  StronglySorted enqueued_le (owner_sorted q userId).
Proof.
  apply Sorted_StronglySorted.
  - unfold enqueued_le. intros a b c Hab Hbc. etrans; eauto.
  - eapply Sorted_weaken; [apply queue_le_enqueued|].
    apply Sorted_merge_sort. apply _.
Qed.

Lemma elem_of_queue_rows q op :
  op ∈ queue_rows q ↔ ∃ k, q !! k = Some op.
Proof.
  unfold queue_rows. rewrite list_elem_of_fmap. split.
  - intros ([k op'] & -> & Hin). exists k. by apply elem_of_map_to_list.
  - intros (k & Hk). exists (k, op). split; [done|]. by apply elem_of_map_to_list.
Qed.

Lemma elem_of_owner_sorted q userId op :
  op ∈ owner_sorted q userId ↔
  QueueOperation.user_id op = userId ∧ ∃ k, q !! k = Some op.
Proof.
  unfold owner_sorted. rewrite merge_sort_Permutation, list_elem_of_filter.
  by rewrite elem_of_queue_rows.
Qed.

Lemma queue_rows_ids q :
  queue_keyed q → QueueOperation.id <$> queue_rows q = (map_to_list q).*1.
Proof.
  intros Hq. unfold queue_rows. rewrite <- list_fmap_compose.
  apply list_fmap_ext. intros i [k op] Hi. simpl.
  apply list_elem_of_lookup_2, elem_of_map_to_list in Hi.
  exact (Hq k op Hi).
Qed.

Lemma pending_ids_NoDup q userId :
  queue_keyed q → NoDup (QueueOperation.id <$> getPendingQueue q userId).
Proof.
  intros Hq. unfold getPendingQueue.
  eapply sublist_NoDup; [|apply fmap_sublist, sublist_take].
  rewrite merge_sort_Permutation.
  eapply sublist_NoDup; [|apply fmap_sublist, sublist_filter].
  rewrite queue_rows_ids by exact Hq. apply NoDup_fst_map_to_list.
Qed.

Lemma pending_lookup q userId op :
  queue_keyed q → op ∈ getPendingQueue q userId →
  q !! QueueOperation.id op = Some op ∧ QueueOperation.user_id op = userId.
Proof.
  intros Hq Hin. unfold getPendingQueue in Hin.
  eapply elem_of_submseteq in Hin; [|apply sublist_submseteq, sublist_take].
  apply elem_of_owner_sorted in Hin as [Hu (k & Hk)].
  split; [|exact Hu]. by rewrite (Hq k op Hk).
Qed.

Lemma processed_cons q op ops :
  processed q (op :: ops) = processed (delete (QueueOperation.id op) q) ops.
Proof. reflexivity. Qed.

Lemma processed_lookup_notin ops q k :
  k ∉ QueueOperation.id <$> ops → processed q ops !! k = q !! k.
Proof.
  revert q. induction ops as [|op ops IH]; intros q Hk; [reflexivity|].
  rewrite fmap_cons, not_elem_of_cons in Hk. destruct Hk as [Hne Hk].
  rewrite processed_cons, IH by exact Hk. by apply lookup_delete_ne.
Qed.

Lemma processed_lookup_in ops q k :
  k ∈ QueueOperation.id <$> ops → processed q ops !! k = None.
Proof.
  revert q. induction ops as [|op ops IH]; intros q Hk.
  - by apply elem_of_nil in Hk.
  - rewrite processed_cons.
    destruct (decide (k ∈ QueueOperation.id <$> ops)) as [Hin|Hin].
    + by apply IH.
    + rewrite processed_lookup_notin by exact Hin.
      rewrite fmap_cons, elem_of_cons in Hk. destruct Hk as [->|Hk]; [|done].
      apply lookup_delete_eq.
Qed.

(** The loop up to the first failure. *)
Lemma flush_loop_first_failure f before failing later st r1 :
  apply_all f (fl_remote st) before = Some r1 →
  (send_operation f r1 failing).2 = Failed →
  flush_loop f (before ++ failing :: later) st
  = mkFlush
      (bumpQueueRetry (processed (fl_queue st) before) (QueueOperation.id failing))
      (send_operation f r1 failing).1
      (fl_attempted st ++ before ++ [failing]).
Proof.
  revert st. induction before as [|op before IH]; intros st Hall Hfail; simpl in *.
  - injection Hall as <-.
    destruct (send_operation f (fl_remote st) failing) as [r a]; simpl in *.
    subst a. reflexivity.
  - destruct (send_operation f (fl_remote st) op) as [r a]; destruct a; [|discriminate].
    rewrite IH by assumption. simpl. by rewrite <- (assoc_L (++)).
Qed.

(** The loop when nothing fails. *)
Lemma flush_loop_all_applied f ops st r1 :
  apply_all f (fl_remote st) ops = Some r1 →
  flush_loop f ops st
  = mkFlush (processed (fl_queue st) ops) r1 (fl_attempted st ++ ops).
Proof.
  revert st. induction ops as [|op ops IH]; intros st Hall; simpl in *.
  - injection Hall as <-. rewrite (right_id_L [] (++)). by destruct st.
  - destruct (send_operation f (fl_remote st) op) as [r a]; destruct a; [|discriminate].
    rewrite IH by assumption. simpl. by rewrite <- (assoc_L (++)).
Qed.

Lemma pending_oldest_first q userId op other k :
  op ∈ getPendingQueue q userId →
  q !! k = Some other → QueueOperation.user_id other = userId →
  other ∉ getPendingQueue q userId →
  enqueued_le op other.
Proof.
  unfold getPendingQueue. fold (owner_sorted q userId).
  intros Hop Hk Hu Hnot.
  pose proof (owner_sorted_ascending q userId) as Hs.
  rewrite <- (take_drop SYNC_BATCH_SIZE (owner_sorted q userId)) in Hs.
  eapply StronglySorted_app_1_elem_of; [exact Hs|exact Hop|].
  assert (other ∈ owner_sorted q userId) as Hin
    by (apply elem_of_owner_sorted; eauto).
  rewrite <- (take_drop SYNC_BATCH_SIZE (owner_sorted q userId)) in Hin.
  apply elem_of_app in Hin as [Hin|Hin]; [contradiction|exact Hin].
Qed.

(** C2. A flush takes the owner's pending operations oldest first, at most
    100 of them, and applies them in that order.  When the remote refuses
    one of them, the operations applied before it are gone from the queue,
    the refused one stays with its retry count raised by one and nothing
    else changed, it is the last one attempted, and every other row of the
    queue (the later operations of the batch among them) is as it was. *)
Theorem flush_stops_at_first_failure
    (f : Fresh) (q : gmap string QueueOperation.t) (r r1 : remote) (userId : string)
    (before later : list QueueOperation.t) (failing : QueueOperation.t) :
  queue_keyed q →
  getPendingQueue q userId = before ++ failing :: later →
  apply_all f r before = Some r1 →
  (send_operation f r1 failing).2 = Failed →
  (length (getPendingQueue q userId) ≤ SYNC_BATCH_SIZE)%nat
  ∧ StronglySorted enqueued_le (getPendingQueue q userId)
  ∧ (∀ op, op ∈ getPendingQueue q userId →
       q !! QueueOperation.id op = Some op ∧ QueueOperation.user_id op = userId)
  ∧ (∀ op other k, op ∈ getPendingQueue q userId →
       q !! k = Some other → QueueOperation.user_id other = userId →
       other ∉ getPendingQueue q userId → enqueued_le op other)
  ∧ fl_attempted (flushQueue f q r userId) = before ++ [failing]
  ∧ (∀ op, op ∈ before →
       fl_queue (flushQueue f q r userId) !! QueueOperation.id op = None)
  ∧ fl_queue (flushQueue f q r userId) !! QueueOperation.id failing
    = Some (bump failing)
  ∧ (∀ op, op ∈ later →
       fl_queue (flushQueue f q r userId) !! QueueOperation.id op = Some op)
  ∧ (∀ k, k ∉ QueueOperation.id <$> before → k ≠ QueueOperation.id failing →
       fl_queue (flushQueue f q r userId) !! k = q !! k).
Proof.
  intros Hq Hpending Hall Hfail.
  pose proof (pending_ids_NoDup q userId Hq) as Hnd.
  rewrite Hpending, fmap_app, fmap_cons in Hnd.
  apply NoDup_app in Hnd as (_ & Hsep & Hnd).
  apply NoDup_cons in Hnd as [Hfl _].
  assert (QueueOperation.id failing ∉ QueueOperation.id <$> before) as Hfb.
  { intros Hin. apply (Hsep _ Hin). apply list_elem_of_here. }
  assert (q !! QueueOperation.id failing = Some failing) as Hqf.
  { apply (pending_lookup q userId); [exact Hq|].
    rewrite Hpending. apply elem_of_app. right. apply list_elem_of_here. }
  assert (fl_queue (flushQueue f q r userId)
          = <[QueueOperation.id failing := bump failing]> (processed q before)
          ∧ fl_attempted (flushQueue f q r userId) = before ++ [failing])
    as [Hqueue Hlog].
  { unfold flushQueue. rewrite Hpending.
    rewrite (flush_loop_first_failure f before failing later _ r1) by assumption.
    simpl. split; [|reflexivity].
    unfold bumpQueueRetry. rewrite processed_lookup_notin, Hqf by exact Hfb.
    reflexivity. }
  rewrite Hqueue, Hlog.
  split; [|split; [|split; [|split; [|split; [|split; [|split; [|split]]]]]]].
  - unfold getPendingQueue. rewrite length_take. lia.
  - apply StronglySorted_take, owner_sorted_ascending.
  - intros op Hop. by apply pending_lookup.
  - intros op other k. apply pending_oldest_first.
  - reflexivity.
  - intros op Hop.
    assert (QueueOperation.id op ∈ QueueOperation.id <$> before) as Hin
      by (apply list_elem_of_fmap; eauto).
    rewrite lookup_insert_ne by (intros Heq; apply Hfb; by rewrite Heq).
    by apply processed_lookup_in.
  - apply lookup_insert_eq.
  - intros op Hop.
    assert (QueueOperation.id op ∈ QueueOperation.id <$> later) as Hin
      by (apply list_elem_of_fmap; eauto).
    rewrite lookup_insert_ne by (intros Heq; apply Hfl; by rewrite Heq).
    rewrite processed_lookup_notin.
    + apply (pending_lookup q userId); [exact Hq|].
      rewrite Hpending. apply elem_of_app. right. by apply list_elem_of_further.
    + intros Hb. apply (Hsep _ Hb). by apply list_elem_of_further.
  - intros k Hk Hne.
    rewrite lookup_insert_ne by done. by apply processed_lookup_notin.
Qed.

End QueueFacts.

(** ** The due-task scan ([get_due_tasks]) *)

Section ScanFacts.
Context `{Pg.Server}.
Import Pg Sql.

Global Instance due_le_total : Total due_le.
Proof. intros a b. unfold due_le. lia. Qed.

Global Instance due_le_trans : Transitive due_le.
Proof. intros a b c. unfold due_le. lia. Qed.

Lemma zone_of_own (t : Task.t) : zone_of (Task.timezone t) = own_zone t.
Proof.
  unfold zone_of, own_zone. destruct (Task.timezone t); [done|].
  by rewrite decide_False.
Qed.

Lemma task_due_at_utc_dated (t : Task.t) d tm :
  Task.scheduled_date t = Some d → Task.due_time t = Some tm →
  task_due_at_utc t = Some <$> due_instant t.
Proof.
  intros Hd Htm. unfold task_due_at_utc, due_instant.
  rewrite Hd, Htm, zone_of_own. reflexivity.
Qed.

Lemma due_condition_true now window_minutes t due :
  due_condition now window_minutes t due = true ↔
  now ≤ due ∧ due < now + Z.max window_minutes 1 * 60000000 ∧
  (Task.last_notified_at t = None ∨
   ∃ notified, Task.last_notified_at t = Some notified ∧ notified < due).
Proof.
  unfold due_condition, start_at, end_at, micros_per_minute.
  rewrite !andb_true_iff, Z.leb_le, Z.ltb_lt.
  destruct (Task.last_notified_at t) as [n|].
  - rewrite Z.ltb_lt. split.
    + intros [[? ?] ?]. repeat split; eauto.
    + intros (? & ? & [?|(n' & [= <-] & ?)]); [done|]. repeat split; auto.
  - split.
    + intros [[? ?] _]. repeat split; auto.
    + intros (? & ? & _). repeat split; auto.
Qed.

(** The rows on which the scan raises an error. *)
Lemma select_due_None now window_minutes t :
  select_due now window_minutes t = None ↔ open_dated t ∧ due_instant t = None.
Proof.
  unfold select_due, open_dated.
  destruct (Task.status t) eqn:Hs;
    [|split; [discriminate|by intros [[? _] _]]].
  destruct (Task.scheduled_date t) as [d|] eqn:Hd;
    [|split; [discriminate|intros [(_ & [? ?] & _) _]; discriminate]].
  destruct (Task.due_time t) as [tm|] eqn:Htm;
    [|split; [discriminate|intros [(_ & _ & [? ?]) _]; discriminate]].
  rewrite (task_due_at_utc_dated t d tm Hd Htm).
  destruct (due_instant t) as [due|]; simpl.
  - split; [discriminate|by intros [_ ?]].
  - split; [|done]. intros _. repeat split; eauto.
Qed.

(** The rows the scan returns. *)
Lemma select_due_Some now window_minutes t row :
  select_due now window_minutes t = Some (Some row) ↔
  ∃ d tm due,
    Task.status t = todo ∧
    Task.scheduled_date t = Some d ∧ Task.due_time t = Some tm ∧
    due_instant t = Some due ∧
    now ≤ due ∧ due < now + Z.max window_minutes 1 * 60000000 ∧
    (Task.last_notified_at t = None ∨
     ∃ notified, Task.last_notified_at t = Some notified ∧ notified < due) ∧
    row = mkdue (Task.id t) (Task.user_id t) (Task.title t) d tm (Task.timezone t) due.
Proof.
  unfold select_due.
  destruct (Task.status t) eqn:Hs;
    [|split; [discriminate|by intros (? & ? & ? & ? & _)]].
  destruct (Task.scheduled_date t) as [d|] eqn:Hd;
    [|split; [discriminate|by intros (? & ? & ? & _ & ? & _)]].
  destruct (Task.due_time t) as [tm|] eqn:Htm;
    [|split; [discriminate|by intros (? & ? & ? & _ & _ & ? & _)]].
  rewrite (task_due_at_utc_dated t d tm Hd Htm).
  destruct (due_instant t) as [due|]; simpl;
    [|split; [discriminate|by intros (? & ? & ? & _ & _ & _ & ? & _)]].
  destruct (due_condition now window_minutes t due) eqn:Hc.
  - apply due_condition_true in Hc as (Hlo & Hhi & Hn). split.
    + intros [= <-]. exists d, tm, due. repeat split; auto.
    + intros (d' & tm' & due' & _ & [= <-] & [= <-] & [= <-] & _ & _ & _ & ->).
      reflexivity.
  - split; [discriminate|].
    intros (d' & tm' & due' & _ & _ & _ & [= <-] & Hlo & Hhi & Hn & _).
    assert (due_condition now window_minutes t due = true) as Hc'
      by (apply due_condition_true; auto).
    congruence.
Qed.

Lemma select_due_selected now window_minutes t found :
  select_due now window_minutes t = Some found →
  is_Some found ↔ selected now window_minutes t.
Proof.
  intros Hsel. unfold selected. split.
  - intros [row ->]. apply select_due_Some in Hsel
      as (d & tm & due & Hs & _ & _ & -> & Hlo & Hhi & Hn & _).
    split; [exact Hs|]. split; [exact Hlo|]. split; [exact Hhi|].
    destruct Hn as [->|(n & -> & Hlt)]; done.
  - intros [Hs Hdue].
    destruct (due_instant t) as [due|] eqn:Hi; [|done].
    destruct Hdue as (Hlo & Hhi & Hn).
    unfold due_instant in Hi.
    destruct (Task.scheduled_date t) as [d|] eqn:Hd; [|discriminate].
    destruct (Task.due_time t) as [tm|] eqn:Htm; [|discriminate].
    simpl in Hi.
    assert (select_due now window_minutes t
            = Some (Some (mkdue (Task.id t) (Task.user_id t) (Task.title t) d tm
                            (Task.timezone t) due))) as Hrow.
    { apply select_due_Some. exists d, tm, due.
      unfold due_instant. rewrite Hd, Htm. simpl.
      repeat split; auto.
      destruct (Task.last_notified_at t) as [n|]; [right; eauto|by left]. }
    rewrite Hrow in Hsel. injection Hsel as <-. eauto.
Qed.

(** When the scan raises an error. *)
Lemma get_due_tasks_None now window_minutes (tasks : list Task.t) :
  get_due_tasks now window_minutes tasks = None ↔
  ∃ t, t ∈ tasks ∧ open_dated t ∧ due_instant t = None.
Proof.
  unfold get_due_tasks.
  destruct (mapM (select_due now window_minutes) tasks) as [found|] eqn:Hm; simpl.
  - split; [discriminate|]. intros (t & Ht & Hbad).
    apply mapM_Some in Hm.
    apply list_elem_of_lookup in Ht as [i Hi].
    destruct (Forall2_lookup_l _ _ _ _ _ Hm Hi) as (? & _ & Hsel).
    apply (select_due_None now window_minutes) in Hbad. congruence.
  - split; [|done]. intros _. apply mapM_None, Exists_exists in Hm as (t & Ht & Hn).
    exists t. split; [exact Ht|]. by apply (select_due_None now window_minutes).
Qed.

Lemma get_due_tasks_Some now window_minutes (tasks : list Task.t) rows :
  get_due_tasks now window_minutes tasks = Some rows →
  ∃ found,
    Forall2 (fun t x => select_due now window_minutes t = Some x) tasks found
    ∧ rows = merge_sort due_le (omap (fun row => row) found).
Proof.
  unfold get_due_tasks.
  destruct (mapM (select_due now window_minutes) tasks) as [found|] eqn:Hm;
    [|discriminate].
  simpl. intros [= <-]. exists found. split; [by apply mapM_Some|reflexivity].
Qed.

(** Membership in the result of a scan that returns. *)
Lemma elem_of_get_due_tasks
    (now : timestamptz) (window_minutes : Z) (tasks : list Task.t)
    (rows : list due_task) (row : due_task) :
  get_due_tasks now window_minutes tasks = Some rows →
  row ∈ rows ↔
  ∃ t d tm due,
    t ∈ tasks ∧
    Task.status t = todo ∧
    Task.scheduled_date t = Some d ∧
    Task.due_time t = Some tm ∧
    due_instant t = Some due ∧
    now ≤ due ∧ due < now + Z.max window_minutes 1 * 60000000 ∧
    (Task.last_notified_at t = None ∨
     ∃ notified, Task.last_notified_at t = Some notified ∧ notified < due) ∧
    row = mkdue (Task.id t) (Task.user_id t) (Task.title t) d tm (Task.timezone t) due.
Proof.
  intros Hget. apply get_due_tasks_Some in Hget as (found & Hall & ->).
  rewrite merge_sort_Permutation, list_elem_of_omap. split.
  - intros (x & Hx & ->).
    apply list_elem_of_lookup in Hx as [i Hi].
    destruct (Forall2_lookup_r _ _ _ _ _ Hall Hi) as (t & Ht & Hsel).
    apply select_due_Some in Hsel as (d & tm & due & Hrest).
    exists t, d, tm, due. split; [by eapply list_elem_of_lookup_2|exact Hrest].
  - intros (t & d & tm & due & Ht & Hrest).
    apply list_elem_of_lookup in Ht as [i Hi].
    destruct (Forall2_lookup_l _ _ _ _ _ Hall Hi) as (x & Hx & Hsel).
    assert (select_due now window_minutes t = Some (Some row)) as Hrow
      by (apply select_due_Some; exists d, tm, due; exact Hrest).
    exists (Some row). split; [|reflexivity].
    rewrite Hrow in Hsel. injection Hsel as <-. by eapply list_elem_of_lookup_2.
Qed.

Lemma get_due_tasks_length now window_minutes (tasks : list Task.t) rows :
  get_due_tasks now window_minutes tasks = Some rows →
  length rows = length (filter (selected now window_minutes) tasks).
Proof.
  intros Hget. apply get_due_tasks_Some in Hget as (found & Hall & ->).
  rewrite merge_sort_Permutation.
  induction Hall as [|t x tasks found Hsel _ IH]; [reflexivity|].
  rewrite filter_cons. pose proof (select_due_selected _ _ _ _ Hsel) as Hiff.
  destruct x as [row|]; cbn [omap list_omap].
  - rewrite decide_True by (apply Hiff; eauto). simpl. by rewrite IH.
  - rewrite decide_False; [exact IH|]. intros Hs. apply Hiff in Hs. by destruct Hs.
Qed.

(** C4, as the code has it.  The scan raises an error, and returns no row,
    exactly when an open task with a date and a time names a zone the
    server does not know.  When it returns, it returns one row for each
    task that is open, has a scheduled date and a due time, has its due
    instant (date and time read in the task's own zone, UTC when it names
    none) in [now, now + window), and was never notified or was notified
    strictly before that instant; the rows come ordered by due instant.
    The window is the effective one, of one minute at least. *)
Theorem due_tasks_selected_and_ordered
    (now : timestamptz) (window_minutes : Z) (tasks : list Task.t) :
  (get_due_tasks now window_minutes tasks = None ↔
   ∃ t, t ∈ tasks ∧ open_dated t ∧ due_instant t = None)
  ∧ ∀ rows, get_due_tasks now window_minutes tasks = Some rows →
      (∀ row, row ∈ rows ↔
         ∃ t d tm due,
           t ∈ tasks ∧
           Task.status t = todo ∧
           Task.scheduled_date t = Some d ∧
           Task.due_time t = Some tm ∧
           due_instant t = Some due ∧
           now ≤ due ∧ due < now + Z.max window_minutes 1 * 60000000 ∧
           (Task.last_notified_at t = None ∨
            ∃ notified, Task.last_notified_at t = Some notified ∧ notified < due) ∧
           row = mkdue (Task.id t) (Task.user_id t) (Task.title t) d tm
                   (Task.timezone t) due)
      ∧ StronglySorted (fun a b => due_at a ≤ due_at b) rows
      ∧ length rows = length (filter (selected now window_minutes) tasks).
Proof.
  split; [apply get_due_tasks_None|]. intros rows Hget.
  split; [intros row; by apply elem_of_get_due_tasks|].
  split; [|by apply get_due_tasks_length].
  apply get_due_tasks_Some in Hget as (found & _ & ->).
  apply (StronglySorted_merge_sort due_le); apply _.
Qed.

(** Arguments at or below one minute all scan the same window. *)
Lemma get_due_tasks_clamped now window_minutes tasks :
  get_due_tasks now window_minutes tasks
  = get_due_tasks now (Z.max window_minutes 1) tasks.
Proof.
  unfold get_due_tasks. f_equal. apply mapM_ext. intros t.
  unfold select_due, due_condition, end_at.
  by rewrite (Z.max_l (Z.max window_minutes 1) 1) by lia.
Qed.

(** Marking changes neither whether a task is open and dated nor its due
    instant. *)
Lemma notify_open_dated now t : open_dated (notify now t) ↔ open_dated t.
Proof. reflexivity. Qed.

Lemma notify_due_instant now t : due_instant (notify now t) = due_instant t.
Proof. reflexivity. Qed.

End ScanFacts.

(** ** The scheduled job trigger ([handler], [canRun]) *)

Section TriggerFacts.
Context `{Js.Host} `{Pg.Server}.
Import Js Pg Cron.

Lemma canRun_false (env : ProcessEnv) (request : Request) :
  canRun env request = false ↔
  truthy_opt (headers request !! "x-vercel-cron") = false ∧
  truthy_opt (CRON_SECRET env) = true ∧
  replace_first "Bearer " "" <$> (headers request !! "authorization")
  ≠ CRON_SECRET env.
Proof.
  unfold canRun.
  destruct (truthy_opt (headers request !! "x-vercel-cron")).
  { split; [discriminate|]. intros [? _]. discriminate. }
  destruct (truthy_opt (CRON_SECRET env)); simpl.
  - rewrite bool_decide_eq_false. tauto.
  - split; [discriminate|]. intros (_ & ? & _). discriminate.
Qed.

(** A header of the form [Bearer <token>] is read as [<token>]. *)
Lemma prefix_empty (s : string) : String.prefix "" s = true.
Proof. by destruct s. Qed.

Lemma substring_all (s : string) : String.substring 0 (String.length s) s = s.
Proof. induction s as [|c s IH]; [reflexivity|]. cbn. by rewrite IH. Qed.

Lemma replace_first_bearer (token : string) :
  replace_first "Bearer " "" ("Bearer " +:+ token) = token.
Proof.
  cbv [String.append]. cbn. rewrite prefix_empty. cbn.
  rewrite Nat.sub_0_r. apply substring_all.
Qed.

Lemma handler_unauthorized env o w request :
  canRun env request = false →
  handler env o w request = mkOutcome 401 Unauthorized [] w.
Proof. intros Hno. unfold handler. rewrite Hno. reflexivity. Qed.

Lemma handler_asks_first env o w request :
  canRun env request = true →
  ∃ rest, effects (handler env o w request)
          = RpcGetDueTasks (window_argument request) :: rest.
Proof.
  intros Hrun. unfold handler. rewrite Hrun. simpl.
  destruct (if due_fails o then None else _) as [[|task due]|];
    [by eexists| |by eexists].
  destruct (subscriptions_fail o); [by eexists|].
  assert (∀ byUser due st,
            ∃ more, pr_effects (dispatch o byUser due st) = pr_effects st ++ more)
    as Hgrow.
  { assert (∀ t subs st b,
              ∃ more, pr_effects (deliver o t subs st b).1 = pr_effects st ++ more)
      as Hdel.
    { intros t subs. induction subs as [|sub subs IH]; intros st b; simpl.
      - exists []. by rewrite (right_id_L [] (++)).
      - destruct (sendWebPush o sub (payload_of t)) as [|code];
          [|destruct (isUnsubscribedError code)];
          match goal with |- context [deliver o t subs ?s ?f] =>
            destruct (IH s f) as [more ->] end; simpl;
          rewrite <- ?(assoc_L (++)); by eexists. }
    intros byUser due0. induction due0 as [|t due0 IH]; intros st; simpl.
    - exists []. by rewrite (right_id_L [] (++)).
    - destruct (default [] (byUser !! Sql.user_id t)) as [|sub subs]; [apply IH|].
      destruct (Hdel t (sub :: subs) st false) as [more Hmore].
      destruct (deliver o t (sub :: subs) st false) as [st' b]. simpl in Hmore.
      destruct b.
      + match goal with |- context [dispatch o byUser due0 ?s] =>
          destruct (IH s) as [more' ->] end. simpl. rewrite Hmore.
        rewrite <- (assoc_L (++)). by eexists.
      + destruct (IH st') as [more' ->]. rewrite Hmore.
        rewrite <- (assoc_L (++)). by eexists. }
  match goal with |- context [dispatch o ?b ?d ?s] =>
    destruct (Hgrow b d s) as [more Hmore]; set (final := dispatch o b d s) in * end.
  destruct (sentTaskIds final); [|destruct (mark_fails o)]; simpl;
    rewrite Hmore; simpl; by eexists.
Qed.

(** The rows an authorised run works on are those of the scan for the
    window it asks for. *)
Lemma handler_scans_the_asked_window env o w request window_minutes due :
  canRun env request = true →
  due_fails o = false →
  int4_of_float (window_argument request) = Some window_minutes →
  Sql.get_due_tasks (now_scan o) window_minutes (tasks w) = Some due →
  match json (handler env o w request) with
  | NoDueTasks => due = []
  | Dispatched scanned _ _ => scanned = length due
  | DispatchFailed => due ≠ []
  | Unauthorized => False
  end.
Proof.
  intros Hrun Hdue Harg Hscan. unfold handler.
  rewrite Hrun, Hdue, Harg. cbn [negb mbind option_bind]. rewrite Hscan.
  destruct due as [|task due]; [reflexivity|]. cbv beta iota zeta.
  destruct (subscriptions_fail o); [discriminate|].
  destruct (sentTaskIds _); [reflexivity|].
  destruct (mark_fails o); [discriminate|reflexivity].
Qed.

(** C10. The scan window is always positive.  A scan that returns has
    selected within [now, now + max(window_minutes, 1) minutes): every row
    is due in that interval and every open task due in it, and not yet
    notified since, has its row; so an argument of zero or less scans the
    window of one minute.  An authorised call asks for 5 minutes when the
    [window] parameter is absent or does not read as a finite number, and
    for the number it reads otherwise; the rows it works on are those of
    the scan for the window it asks for. *)
Theorem scan_window_positive
    (now : timestamptz) (window_minutes : Z) (tasks : list Task.t)
    (rows : list Sql.due_task)
    (env : ProcessEnv) (o : Oracle) (w : World) (request : Request) :
  Sql.get_due_tasks now window_minutes tasks = Some rows →
  (∀ row, row ∈ rows →
     now ≤ Sql.due_at row ∧ Sql.due_at row < now + Z.max window_minutes 1 * 60000000)
  ∧ (∀ t due,
       t ∈ tasks → Task.status t = todo → due_instant t = Some due →
       (∀ notified, Task.last_notified_at t = Some notified → notified < due) →
       now ≤ due → due < now + Z.max window_minutes 1 * 60000000 →
       ∃ row, row ∈ rows ∧ Sql.id row = Task.id t ∧ Sql.due_at row = due)
  ∧ (window_minutes ≤ 0 → Sql.get_due_tasks now 1 tasks = Some rows)
  ∧ (canRun env request = true →
       (query request !! "window" = None →
          ∃ rest, effects (handler env o w request) = RpcGetDueTasks 5 :: rest)
       ∧ (∀ s, query request !! "window" = Some (QString s) →
            ∃ rest,
              effects (handler env o w request)
              = RpcGetDueTasks
                  (if is_finite (Number_of_string s) then Number_of_string s else 5)
                :: rest)
       ∧ (∀ l, query request !! "window" = Some (QArray l) →
            ∃ rest,
              effects (handler env o w request)
              = RpcGetDueTasks
                  (if is_finite (Number_of_string (String.concat "," l))
                   then Number_of_string (String.concat "," l) else 5)
                :: rest)
       ∧ (due_fails o = false →
          ∀ asked rest minutes due,
            effects (handler env o w request) = RpcGetDueTasks asked :: rest →
            int4_of_float asked = Some minutes →
            Sql.get_due_tasks (now_scan o) minutes (Cron.tasks w) = Some due →
            match json (handler env o w request) with
            | NoDueTasks => due = []
            | Dispatched scanned _ _ => scanned = length due
            | DispatchFailed => due ≠ []
            | Unauthorized => False
            end)).
Proof.
  intros Hscan. split; [|split; [|split]].
  - intros row Hrow.
    apply (elem_of_get_due_tasks _ _ _ _ _ Hscan) in Hrow
      as (t & d & tm & due & _ & _ & _ & _ & _ & Hlo & Hhi & _ & ->). auto.
  - intros t due Ht Hs Hdue Hnot Hlo Hhi.
    pose proof Hdue as Hdated. unfold due_instant in Hdated.
    destruct (Task.scheduled_date t) as [d|] eqn:Hd; [|discriminate].
    destruct (Task.due_time t) as [tm|] eqn:Htm; [|discriminate].
    exists (Sql.mkdue (Task.id t) (Task.user_id t) (Task.title t) d tm
              (Task.timezone t) due).
    split; [|split; reflexivity].
    apply (elem_of_get_due_tasks _ _ _ _ _ Hscan).
    exists t, d, tm, due. repeat split; auto.
    destruct (Task.last_notified_at t) as [n|]; [right; eauto|by left].
  - intros Hle. rewrite <- Hscan, (get_due_tasks_clamped now window_minutes).
    by rewrite Z.max_r by lia.
  - intros Hrun. destruct (handler_asks_first env o w request Hrun) as [rest Hfirst].
    split; [|split; [|split]].
    + intros Hq. exists rest. rewrite Hfirst.
      unfold window_argument, windowMinutes. by rewrite Hq.
    + intros s Hq. exists rest. rewrite Hfirst.
      unfold window_argument, windowMinutes. by rewrite Hq.
    + intros l Hq. exists rest. rewrite Hfirst.
      unfold window_argument, windowMinutes. by rewrite Hq.
    + intros Hdue asked rest' minutes due Heff Harg Hget.
      rewrite Hfirst in Heff. injection Heff as <- _.
      by apply (handler_scans_the_asked_window env o w request minutes due).
Qed.

(** C7, as the code has it.  When a non-empty shared secret is configured,
    a call that carries no scheduler-origin marker and whose [Authorization]
    header is absent, or differs from the secret once its first ["Bearer "]
    is removed (for a header [Bearer <token>]: the token is not the secret),
    is answered 401 and nothing else happens: no query, no push, no
    deletion, no marking, and both tables are as they were. *)
Theorem unauthorized_call_rejected
    (env : ProcessEnv) (o : Oracle) (w : World) (request : Request) (secret : string) :
  CRON_SECRET env = Some secret →
  truthy secret = true →
  truthy_opt (headers request !! "x-vercel-cron") = false →
  replace_first "Bearer " "" <$> (headers request !! "authorization") ≠ Some secret →
  handler env o w request = mkOutcome 401 Unauthorized [] w.
Proof.
  intros Hsecret Hset Hmarker Hbearer. apply handler_unauthorized, canRun_false.
  rewrite Hsecret. simpl. auto.
Qed.

End TriggerFacts.

(** ** Pulling remote changes ([pullUpdates]) *)

Section PullFacts.
Context `{Js.Host} `{Pg.Server} `{Sync.Remote}.
Import Js Db Sync.

Global Instance updated_le_total : Total updated_le.
Proof. intros a b. unfold updated_le. lia. Qed.

Global Instance updated_le_trans : Transitive updated_le.
Proof. intros a b c. unfold updated_le. lia. Qed.

Global Instance updated_le_refl : Reflexive updated_le.
Proof. intros a. unfold updated_le. lia. Qed.

Lemma pull_request_rows table userId since cursor :
  Pg.timestamptz_in since = Some cursor →
  ∃ batch,
    pull_request table userId since = Some batch ∧
    (∀ row, row ∈ batch →
       row ∈ table ∧ Pg.Task.user_id row = userId ∧ cursor < Pg.Task.updated_at row) ∧
    StronglySorted updated_le batch ∧
    (length batch ≤ 1000)%nat.
Proof.
  intros Hin. unfold pull_request. rewrite Hin. simpl. eexists. split; [reflexivity|].
  split; [|split].
  - intros row Hrow.
    eapply elem_of_submseteq in Hrow; [|apply sublist_submseteq, sublist_take].
    rewrite merge_sort_Permutation in Hrow.
    apply list_elem_of_filter in Hrow as [[Hu Hlt] Ht]. auto.
  - apply StronglySorted_take, StronglySorted_merge_sort; apply _.
  - rewrite length_take. lia.
Qed.

Lemma StronglySorted_last_max {A} (R : relation A) `{!Reflexive R}
    (l : list A) (x y : A) :
  StronglySorted R l → last l = Some x → y ∈ l → R y x.
Proof.
  intros Hs Hlast Hy. apply last_Some in Hlast as [l' ->].
  apply elem_of_app in Hy as [Hy|Hy].
  - eapply StronglySorted_app_1_elem_of; [exact Hs|exact Hy|apply list_elem_of_here].
  - apply list_elem_of_singleton in Hy as ->. reflexivity.
Qed.


End PullFacts.

(** ** Fan-out delivery and marking ([handler]) *)

Section DispatchFacts.
Context `{Js.Host} `{Pg.Server}.
Import Js Pg Cron.

Lemma deliver_spec o task subs st flag :
  pr_effects (deliver o task subs st flag).1 = pr_effects st ++ (subs ≫= attempt o task)
  ∧ sentTaskIds (deliver o task subs st flag).1 = sentTaskIds st
  ∧ tasks (pr_world (deliver o task subs st flag).1) = tasks (pr_world st)
  ∧ (deliver o task subs st flag).2 = flag || existsb (push_succeeds o task) subs.
Proof.
  revert st flag. induction subs as [|sub subs IH]; intros st flag.
  - simpl. rewrite (right_id_L [] (++)), orb_false_r. auto.
  - rewrite bind_cons. cbn [deliver existsb].
    unfold attempt at 1, push_succeeds at 1.
    destruct (sendWebPush o sub (payload_of task)) as [|code];
      [|destruct (isUnsubscribedError code)];
      match goal with |- context [deliver o task subs ?s ?b] =>
        destruct (IH s b) as (-> & -> & -> & ->) end;
      cbn [pr_effects sentTaskIds pr_world tasks delete_subscription];
      rewrite <- ?(assoc_L (++)); cbn [app orb]; rewrite ?orb_true_r; auto.
Qed.

Lemma dispatch_spec o w byUser due st :
  (∀ task, task ∈ due →
     default [] (byUser !! Sql.user_id task) = owner_subscriptions w (Sql.user_id task)) →
  pr_effects (dispatch o byUser due st) = pr_effects st ++ (due ≫= attempts o w)
  ∧ sentTaskIds (dispatch o byUser due st)
    = foldl set_add (sentTaskIds st)
        (Sql.id <$> filter (fun t => delivered o w t = true) due)
  ∧ tasks (pr_world (dispatch o byUser due st)) = tasks (pr_world st).
Proof.
  revert st. induction due as [|task due IH]; intros st Hby.
  - simpl. by rewrite (right_id_L [] (++)).
  - assert (∀ t, t ∈ due →
              default [] (byUser !! Sql.user_id t) = owner_subscriptions w (Sql.user_id t))
      as Hby' by (intros t Ht; apply Hby; by apply list_elem_of_further).
    pose proof (Hby task (list_elem_of_here _ _)) as Hsubs.
    rewrite bind_cons, filter_cons. cbn [dispatch]. rewrite Hsubs.
    pose proof (eq_refl : delivered o w task
              = existsb (push_succeeds o task)
                  (owner_subscriptions w (Sql.user_id task))) as Hdel.
    unfold attempts at 1. clear Hsubs Hby. revert Hdel.
    generalize (delivered o w task).
    generalize (owner_subscriptions w (Sql.user_id task)).
    intros [|sub subs] ? ->.
    + cbn [existsb mbind list_bind app]. rewrite decide_False by discriminate.
      by apply IH.
    + destruct (deliver_spec o task (sub :: subs) st false) as (He & Hs & Ht & Hd).
      destruct (deliver o task (sub :: subs) st false) as [st' flag].
      cbn [fst snd orb] in He, Hs, Ht, Hd. subst flag.
      destruct (existsb (push_succeeds o task) (sub :: subs)) eqn:Hex.
      * rewrite decide_True by reflexivity.
        match goal with |- context [dispatch o byUser due ?s] =>
          destruct (IH s Hby') as (-> & -> & ->) end.
        cbn [pr_effects sentTaskIds pr_world fmap list_fmap foldl].
        rewrite He, Hs, Ht, <- (assoc_L (++)). auto.
      * rewrite decide_False by discriminate.
        destruct (IH st' Hby') as (-> & -> & ->).
        rewrite He, Hs, Ht, <- (assoc_L (++)). auto.
Qed.

Lemma group_by_user_fold (subs : list Subscription.t)
    (byUser : gmap string (list Subscription.t)) (userId : string) :
  default []
    (foldl (fun byUser sub =>
              let current := default [] (byUser !! Subscription.user_id sub) in
              <[Subscription.user_id sub := current ++ [sub]]> byUser)
       byUser subs !! userId)
  = default [] (byUser !! userId)
    ++ filter (fun s => Subscription.user_id s = userId) subs.
Proof.
  revert byUser. induction subs as [|sub subs IH]; intros byUser.
  - cbn [foldl]. rewrite filter_nil. by rewrite (right_id_L [] (++)).
  - cbn [foldl]. rewrite IH, filter_cons.
    destruct (decide (Subscription.user_id sub = userId)) as [->|Hne].
    + rewrite lookup_insert_eq. cbn [default id]. by rewrite <- (assoc_L (++)).
    + by rewrite lookup_insert_ne.
Qed.

Lemma group_by_user_lookup subs userId :
  default [] (group_by_user subs !! userId)
  = filter (fun s => Subscription.user_id s = userId) subs.
Proof. unfold group_by_user. by rewrite group_by_user_fold, lookup_empty. Qed.

Lemma elem_of_uniq xs seen x : x ∈ uniq seen xs ↔ x ∈ xs ∧ x ∉ seen.
Proof.
  revert seen. induction xs as [|y xs IH]; intros seen; simpl.
  - split; [by intros ?%elem_of_nil|by intros [?%elem_of_nil _]].
  - destruct (decide (y ∈ seen)) as [Hy|Hy].
    + rewrite IH, elem_of_cons. split; [tauto|].
      intros [[->|?] ?]; [done|tauto].
    + rewrite elem_of_cons, IH, !elem_of_cons.
      destruct (decide (x = y)) as [->|Hne]; [tauto|]. split.
      * intros [?|[? ?]]; [done|]. split; [tauto|]. tauto.
      * intros [[?|?] ?]; [done|]. right. split; [done|]. intros [?|?]; done.
Qed.

Lemma filter_owner_among (all : list Subscription.t) (userIds : list string) userId :
  userId ∈ userIds →
  filter (fun s => Subscription.user_id s = userId)
    (filter (fun s => Subscription.user_id s ∈ userIds) all)
  = filter (fun s => Subscription.user_id s = userId) all.
Proof.
  intros Hin. induction all as [|s all IH]; [reflexivity|].
  rewrite !filter_cons.
  destruct (decide (Subscription.user_id s = userId)) as [Heq|Hne].
  - rewrite decide_True by (by rewrite Heq).
    rewrite filter_cons, decide_True by exact Heq. by rewrite IH.
  - destruct (decide (Subscription.user_id s ∈ userIds)); [|exact IH].
    rewrite filter_cons, decide_False by exact Hne. exact IH.
Qed.

Lemma elem_of_fold_set_add (xs acc : list string) x :
  x ∈ foldl set_add acc xs ↔ x ∈ acc ∨ x ∈ xs.
Proof.
  revert acc. induction xs as [|y xs IH]; intros acc; simpl.
  - split; [auto|]. intros [?|?%elem_of_nil]; done.
  - rewrite IH. unfold set_add. rewrite elem_of_cons.
    destruct (decide (y ∈ acc)) as [Hy|Hy].
    + split; [tauto|]. intros [?|[->|?]]; auto.
    + rewrite elem_of_app, list_elem_of_singleton. tauto.
Qed.

Lemma mark_nothing now (ts : list Task.t) : Sql.mark_tasks_notified now [] ts = ts.
Proof.
  unfold Sql.mark_tasks_notified. induction ts as [|t ts IH]; [reflexivity|].
  rewrite fmap_cons, IH. rewrite decide_False; [done|]. apply not_elem_of_nil.
Qed.

Lemma marks_app (es1 es2 : list effect) : marks (es1 ++ es2) = marks es1 ++ marks es2.
Proof. apply omap_app. Qed.

Lemma marks_attempts o w (due : list Sql.due_task) : marks (due ≫= attempts o w) = [].
Proof.
  induction due as [|task due IH]; [reflexivity|].
  rewrite bind_cons, marks_app, IH, (right_id_L [] (++)).
  unfold attempts. induction (owner_subscriptions w (Sql.user_id task)) as [|sub subs IHs];
    [reflexivity|].
  rewrite bind_cons, marks_app, IHs, (right_id_L [] (++)).
  unfold attempt. destruct (sendWebPush o sub (payload_of task)) as [|code];
    [reflexivity|]. by destruct (isUnsubscribedError code).
Qed.

Lemma elem_of_delivered_ids o w (due : list Sql.due_task) (id : string) :
  id ∈ delivered_ids o w due ↔
  ∃ task sub,
    task ∈ due ∧ Sql.id task = id ∧
    sub ∈ push_subscriptions w ∧
    Subscription.user_id sub = Sql.user_id task ∧
    sendWebPush o sub (payload_of task) = Delivered.
Proof.
  unfold delivered_ids. rewrite elem_of_fold_set_add, list_elem_of_fmap. split.
  - intros [Hnil|(task & -> & Htask)]; [by apply elem_of_nil in Hnil|].
    apply list_elem_of_filter in Htask as [Hdel Htask].
    unfold delivered in Hdel. apply existsb_exists in Hdel as (sub & Hsub & Hok).
    apply list_elem_of_In, list_elem_of_filter in Hsub as [Hu Hsub].
    exists task, sub. repeat split; auto.
    unfold push_succeeds in Hok. by destruct (sendWebPush o sub (payload_of task)).
  - intros (task & sub & Htask & <- & Hsub & Hu & Hok). right.
    exists task. split; [reflexivity|]. apply list_elem_of_filter. split; [|exact Htask].
    unfold delivered. apply existsb_exists. exists sub. split.
    + apply list_elem_of_In, list_elem_of_filter. auto.
    + unfold push_succeeds. by rewrite Hok.
Qed.

Lemma elem_of_attempts o w (task : Sql.due_task) (sub : Subscription.t) :
  sub ∈ push_subscriptions w → Subscription.user_id sub = Sql.user_id task →
  SendWebPush sub (payload_of task) ∈ attempts o w task.
Proof.
  intros Hsub Hu. unfold attempts. apply list_elem_of_bind. exists sub. split.
  - unfold attempt. apply list_elem_of_here.
  - apply list_elem_of_filter. auto.
Qed.

Lemma handler_run env o w request window_minutes due :
  canRun env request = true →
  due_fails o = false → subscriptions_fail o = false → mark_fails o = false →
  int4_of_float (window_argument request) = Some window_minutes →
  Sql.get_due_tasks (now_scan o) window_minutes (tasks w) = Some due →
  effects (handler env o w request) = run_effects o w request due
  ∧ tasks (world (handler env o w request))
    = Sql.mark_tasks_notified (now_mark o) (delivered_ids o w due) (tasks w).
Proof.
  intros Hrun Hdue Hsubs Hmark Harg Hscan. unfold handler.
  rewrite Hrun, Hdue, Hsubs, Hmark, Harg. cbn [negb mbind option_bind].
  rewrite Hscan. clear Hscan.
  destruct due as [|task0 due0].
  { cbn. by rewrite mark_nothing. }
  cbv beta iota zeta.
  assert (task0 :: due0 ≠ []) as Hne by discriminate.
  revert Hne. generalize (task0 :: due0). intros due Hne.
  destruct (dispatch_spec o w
              (group_by_user
                 (filter (fun s => Subscription.user_id s ∈ uniq [] (Sql.user_id <$> due))
                    (push_subscriptions w)))
              due
              (mkProgress w
                 ([RpcGetDueTasks (window_argument request)]
                  ++ [SelectSubscriptions (uniq [] (Sql.user_id <$> due))]) [] 0))
    as (He & Hs & Ht).
  { intros task Htask. rewrite group_by_user_lookup. apply filter_owner_among.
    apply elem_of_uniq. split; [|apply not_elem_of_nil].
    apply list_elem_of_fmap. eauto. }
  cbn [pr_effects sentTaskIds pr_world] in He, Hs, Ht.
  fold (delivered_ids o w due) in Hs.
  assert (run_effects o w request due
          = ([RpcGetDueTasks (window_argument request)]
             ++ [SelectSubscriptions (uniq [] (Sql.user_id <$> due))])
            ++ (due ≫= attempts o w)
            ++ match delivered_ids o w due with
               | [] => []
               | _ :: _ => [RpcMarkTasksNotified (delivered_ids o w due)]
               end) as ->.
  { unfold run_effects. by destruct due. }
  match goal with |- context [dispatch o ?b due ?st] =>
    generalize dependent (dispatch o b due st) end.
  intros final He Hs Ht. rewrite Hs.
  destruct (delivered_ids o w due) as [|id0 ids].
  - cbn [effects world]. by rewrite He, Ht, mark_nothing, (right_id_L [] (++)).
  - cbn [effects world tasks]. by rewrite He, Ht, <- (assoc_L (++)).
Qed.

(** C5, as the code has it.  In a run where the caller is authorised and
    no database request fails ([due] is what the scan returns), the push is
    attempted for every due task at every endpoint registered for its
    owner; a task counts as delivered exactly when one of these attempts
    succeeds; marking is requested after all attempts, once and for exactly
    the delivered tasks when there is at least one, and not at all when
    there is none; and it sets [last_notified_at] and [updated_at] of those
    tasks to the time of the marking, whatever their due instant. *)
Theorem dispatch_marks_delivered_once
    (env : ProcessEnv) (o : Oracle) (w : World) (request : Request)
    (window_minutes : Z) (due : list Sql.due_task) :
  canRun env request = true →
  due_fails o = false → subscriptions_fail o = false → mark_fails o = false →
  int4_of_float (window_argument request) = Some window_minutes →
  Sql.get_due_tasks (now_scan o) window_minutes (tasks w) = Some due →
  (∀ task sub,
     task ∈ due →
     sub ∈ push_subscriptions w →
     Subscription.user_id sub = Sql.user_id task →
     SendWebPush sub (payload_of task) ∈ effects (handler env o w request))
  ∧ (∀ id,
       id ∈ delivered_ids o w due ↔
       ∃ task sub,
         task ∈ due ∧
         Sql.id task = id ∧
         sub ∈ push_subscriptions w ∧
         Subscription.user_id sub = Sql.user_id task ∧
         sendWebPush o sub (payload_of task) = Delivered)
  ∧ effects (handler env o w request) = run_effects o w request due
  ∧ marks (effects (handler env o w request))
    = match delivered_ids o w due with
      | [] => []
      | id :: ids => [id :: ids]
      end
  ∧ tasks (world (handler env o w request))
    = Sql.mark_tasks_notified (now_mark o) (delivered_ids o w due) (tasks w)
  ∧ (∀ t, Task.last_notified_at (Sql.notify (now_mark o) t) = Some (now_mark o)
          ∧ Task.updated_at (Sql.notify (now_mark o) t) = now_mark o).
Proof.
  intros Hrun Hdue Hsubs Hmark Harg Hscan.
  destruct (handler_run env o w request window_minutes due
              Hrun Hdue Hsubs Hmark Harg Hscan) as [He Ht].
  split; [|split; [|split; [|split; [|split]]]].
  - intros task sub Htask Hsub Hu. rewrite He. unfold run_effects.
    destruct due as [|task0 due0] eqn:Edue; [by apply elem_of_nil in Htask|].
    rewrite <- Edue in *. do 2 apply list_elem_of_further.
    apply elem_of_app. left. apply list_elem_of_bind. exists task.
    split; [|exact Htask]. by apply elem_of_attempts.
  - intros id. apply elem_of_delivered_ids.
  - exact He.
  - rewrite He. unfold run_effects.
    destruct due as [|task0 due0] eqn:Edue; [reflexivity|].
    rewrite <- Edue. cbn [marks omap list_omap].
    fold (marks ((due ≫= attempts o w) ++
                 match delivered_ids o w due with
                 | [] => []
                 | _ :: _ => [RpcMarkTasksNotified (delivered_ids o w due)]
                 end)).
    rewrite marks_app, marks_attempts.
    by destruct (delivered_ids o w due).
  - exact Ht.
  - intros t. split; reflexivity.
Qed.

End DispatchFacts.

(** ** The sync trigger ([fireSync]) *)

Section TriggerSyncFacts.
Import App.

Lemma flights_call st userId :
  hasSupabaseClientConfig st = true → isOnline st = true →
  flights (fireSync_call st userId) userId = S (flights st userId).
Proof.
  intros Hc Ho. unfold fireSync_call, flights. rewrite Hc, Ho. simpl.
  rewrite filter_cons, decide_True by reflexivity. reflexivity.
Qed.

(** C6, as the code has it.  [fireSync] has no single-flight guard: while
    the client is configured and online, every trigger other than the sync
    button starts a call of [syncNow] of its own, whether or not one is in
    flight already, so the number in flight grows by one each time; only
    the sync button is held back, and only while [syncInProgress] is set. *)
Theorem fireSync_starts_a_sync_per_trigger (st : SyncState) (userId : string) :
  hasSupabaseClientConfig st = true →
  isOnline st = true →
  (∀ t, t ≠ SyncButton →
     flights (on_trigger st t userId) userId = S (flights st userId))
  ∧ (syncInProgress st = true → on_trigger st SyncButton userId = st)
  ∧ (syncInProgress st = false →
       flights (on_trigger st SyncButton userId) userId = S (flights st userId)).
Proof.
  intros Hc Ho. split; [|split].
  - intros t Ht. destruct t; simpl; rewrite ?Ho; try by apply flights_call.
    contradiction.
  - intros Hp. simpl. by rewrite Hp.
  - intros Hp. simpl. rewrite Hp. by apply flights_call.
Qed.

End TriggerSyncFacts.

(** ** Queue payloads are snapshots ([enqueueTaskUpsert], [putTaskLocal]) *)

Section SnapshotFacts.
Import Db.

Lemma apply_edit_queue d e k :
  edit_uuid e ≠ k → queue (apply_edit d e) !! k = queue d !! k.
Proof.
  intros Hne. destruct e as [uuid now task [|]|uuid now userId taskId [|]]; simpl;
    unfold putTaskLocal, deleteTaskLocal, enqueueTaskUpsert, enqueueTaskDelete,
      queue_put; simpl; try reflexivity; by rewrite lookup_insert_ne.
Qed.

(** C8. The payload of a queued upsert is the task as it was when it was
    enqueued: whatever is put or deleted locally afterwards, with queue ids
    of their own, the row enqueued for [task] still carries [task]. *)
Theorem queued_payload_is_snapshot
    (uuid now : string) (d : Db.t) (task : TaskRecord.t) (edits : list local_edit) :
  Forall (fun e => edit_uuid e ≠ uuid) edits →
  queue (foldl apply_edit (putTaskLocal uuid now d task true) edits) !! uuid
  = Some {| QueueOperation.id := uuid;
            QueueOperation.user_id := TaskRecord.user_id task;
            QueueOperation.type := upsert_task;
            QueueOperation.task_id := TaskRecord.id task;
            QueueOperation.payload := PayloadTask task;
            QueueOperation.created_at := now;
            QueueOperation.retries := 0 |}.
Proof.
  intros Hfresh.
  assert (∀ d0, queue (foldl apply_edit d0 edits) !! uuid = queue d0 !! uuid) as Hkeep.
  { induction Hfresh as [|e edits He _ IH]; intros d0; simpl; [reflexivity|].
    rewrite IH. by apply apply_edit_queue. }
  rewrite Hkeep. unfold putTaskLocal, enqueueTaskUpsert, queue_put. simpl.
  apply lookup_insert_eq.
Qed.

End SnapshotFacts.

(** ** [completed_at] and [status] *)

Section CompletionFacts.
Context `{Js.Host} `{Pg.Server} `{Sync.Remote}.
Import Js Db Sync App.

Lemma normalize_consistent f raw :
  completion_consistent (normalizeTaskRecord f raw) ↔ row_consistent raw.
Proof.
  unfold completion_consistent, row_consistent, normalizeTaskRecord. simpl.
  destruct (decide (Partial.status raw = Some "done")) as [->|Hne].
  - tauto.
  - split; intros Hiff; split; intros Hx; try done; exfalso.
    + by apply Hiff in Hx.
    + by apply Hiff in Hx.
Qed.

Lemma import_consistent userId zone n1 n2 raw :
  completion_consistent (Backup.import_task userId zone n1 n2 raw) ↔ row_consistent raw.
Proof.
  unfold completion_consistent, row_consistent, Backup.import_task. simpl.
  destruct (decide (Partial.status raw = Some "done")) as [->|Hne].
  - tauto.
  - split; intros Hiff; split; intros Hx; try done; exfalso.
    + by apply Hiff in Hx.
    + by apply Hiff in Hx.
Qed.

(** A status edit leaves a consistent record, whatever the record was. *)
Lemma next_task_status s source patch :
  is_Some (Patch.status patch) → completion_consistent (next_task s source patch).
Proof.
  intros [st Hst]. unfold completion_consistent, next_task. rewrite Hst.
  destruct st; repeat case_decide; try done; simpl; rewrite Hst; simpl.
  - split; [intros [? [=]]|discriminate].
  - split; [done|eauto].
Qed.

(** An edit that touches neither [status] nor [completed_at] keeps what the
    record had. *)
Lemma next_task_other s source patch :
  Patch.status patch = None → Patch.completed_at patch = None →
  completion_consistent source → completion_consistent (next_task s source patch).
Proof.
  intros Hst Hc. unfold completion_consistent, next_task. rewrite Hst.
  repeat case_decide; try done. simpl. by rewrite Hst, Hc.
Qed.

Lemma new_task_consistent s u title p date zone :
  completion_consistent (new_task s u title p date zone).
Proof. unfold completion_consistent. simpl. split; [intros [? [=]]|discriminate]. Qed.

Lemma legacy_consistent uuid now today legacy userId tz record :
  Migration.toLegacyTaskRecord uuid now today legacy userId tz = Some record →
  completion_consistent record.
Proof.
  unfold Migration.toLegacyTaskRecord. intros Hrec.
  apply bind_Some in Hrec as (stamp & _ & [= <-]).
  unfold completion_consistent. simpl.
  destruct (Migration.LegacyTask.completed legacy); split; eauto; try done.
Qed.

Lemma put_consistent uuid now d task q :
  store_consistent d → completion_consistent task →
  store_consistent (putTaskLocal uuid now d task q).
Proof.
  unfold store_consistent, putTaskLocal, tasks_put. intros Hd Ht.
  destruct q; simpl; by apply map_Forall_insert_2.
Qed.

Lemma upsert_consistent (batch : list TaskRecord.t) ts :
  map_Forall (fun _ t => completion_consistent t) ts →
  Forall completion_consistent batch →
  map_Forall (fun _ t => completion_consistent t) (upsertTasksFromRemote ts batch).
Proof.
  unfold upsertTasksFromRemote. intros Hts Hb. revert ts Hts.
  induction Hb as [|x batch Hx _ IH]; intros ts Hts; simpl; [exact Hts|].
  apply IH. unfold upsert_one, tasks_put. simpl.
  destruct (isIncomingNewer x (ts !! TaskRecord.id x)); [|exact Hts].
  by apply map_Forall_insert_2.
Qed.

Lemma update_consistent s d session taskId patch :
  (is_Some (Patch.status patch)
   ∨ Patch.status patch = None ∧ Patch.completed_at patch = None) →
  store_consistent d → store_consistent (updateTask s d session taskId patch).
Proof.
  intros Hpatch Hd. unfold updateTask.
  destruct (find_task d session taskId) as [source|] eqn:Hfind; [|exact Hd].
  apply put_consistent; [exact Hd|].
  destruct Hpatch as [Hst|[Hst Hc]]; [by apply next_task_status|].
  apply next_task_other; [done..|].
  unfold find_task in Hfind.
  apply bind_Some in Hfind as (u & _ & Hfind).
  apply bind_Some in Hfind as (t & Ht & Hfind).
  destruct (decide (TaskRecord.user_id t = u)); [|discriminate].
  injection Hfind as <-. exact (Hd _ _ Ht).
Qed.

(** C9, as the code has it.  A status edit, the creation of a task and the
    conversion of a legacy task produce records whose [completed_at] is set
    exactly when they are done; normalisation and import pass [status] and
    [completed_at] on as they came, so the record they produce satisfies this
    exactly when the row does; and every operation that writes a task record
    keeps the invariant on the store, provided the rows it takes from outside
    (a pulled batch, a change-feed row, an imported row) satisfy it. *)
Theorem writes_keep_completion_consistent (d : Db.t) (w : write) :
  store_consistent d → rows_consistent w →
  store_consistent (apply_write d w)
  ∧ (∀ s source patch,
       is_Some (Patch.status patch) → completion_consistent (next_task s source patch))
  ∧ (∀ s userId title priority date zone,
       completion_consistent (new_task s userId title priority date zone))
  ∧ (∀ uuid now today legacy userId tz record,
       Migration.toLegacyTaskRecord uuid now today legacy userId tz = Some record →
       completion_consistent record)
  ∧ (∀ f raw, completion_consistent (normalizeTaskRecord f raw) ↔ row_consistent raw)
  ∧ (∀ userId zone now_updated now_created raw,
       completion_consistent (Backup.import_task userId zone now_updated now_created raw)
       ↔ row_consistent raw).
Proof.
  intros Hd Hw.
  split; [|split; [|split; [|split; [|split]]]];
    [|apply next_task_status|apply new_task_consistent|apply legacy_consistent
     |apply normalize_consistent|apply import_consistent].
  destruct w as [s u task|s u task today|s u title p date zone
    |s today legacy userId tz|s userId zone row|f rows|f payload|s userId taskId];
    cbn [apply_write rows_consistent] in *.
  - apply update_consistent; [|exact Hd]. left. unfold toggle_patch. simpl. eauto.
  - apply update_consistent; [|exact Hd]. right. by unfold move_patch.
  - apply put_consistent; [exact Hd|apply new_task_consistent].
  - destruct (Migration.toLegacyTaskRecord _ _ _ _ _ _) as [record|] eqn:E; [|exact Hd].
    apply put_consistent; [exact Hd|]. by eapply legacy_consistent.
  - destruct (Backup.is_task row); [|exact Hd].
    apply put_consistent; [exact Hd|]. by apply import_consistent.
  - unfold store_consistent. simpl. apply upsert_consistent; [exact Hd|].
    apply Forall_fmap. eapply Forall_impl; [exact Hw|].
    intros raw Hraw. by apply normalize_consistent.
  - unfold store_consistent. cbn [tasks with_tasks].
    destruct payload as [oldRow|[new|]]; cbn [on_change].
    + destruct (Partial.id oldRow) as [i|]; [|exact Hd].
      destruct (truthy i); [|exact Hd]. by apply map_Forall_delete.
    + apply upsert_consistent; [exact Hd|].
      constructor; [|constructor]. by apply normalize_consistent.
    + exact Hd.
  - unfold store_consistent, deleteTaskLocal. simpl. by apply map_Forall_delete.
Qed.

End CompletionFacts.

(** ** Marking again, and scanning after a marking *)

Section MarkingFacts.
Context `{Pg.Server}.
Import Pg Sql.

Lemma notify_id now t : Task.id (notify now t) = Task.id t.
Proof. reflexivity. Qed.

Lemma notify_notify now1 now2 t : notify now2 (notify now1 t) = notify now2 t.
Proof. reflexivity. Qed.

(** X1. Marking the same tasks a second time leaves them as one marking at
    the second time would: each call refreshes [last_notified_at] and
    [updated_at] without condition. *)
Theorem marking_twice_keeps_the_second_time
    (now1 now2 : timestamptz) (task_ids : list string) (tasks : list Task.t) :
  mark_tasks_notified now2 task_ids (mark_tasks_notified now1 task_ids tasks)
  = mark_tasks_notified now2 task_ids tasks.
Proof.
  unfold mark_tasks_notified. rewrite <- list_fmap_compose.
  apply list_fmap_ext. intros i t _. simpl.
  destruct (decide (Task.id t ∈ task_ids)) as [Hin|Hout].
  - rewrite notify_id, decide_True by exact Hin. apply notify_notify.
  - by rewrite decide_False.
Qed.

Lemma elem_of_mark now task_ids (tasks : list Task.t) t :
  t ∈ tasks → Task.id t ∈ task_ids →
  notify now t ∈ mark_tasks_notified now task_ids tasks.
Proof.
  intros Ht Hid. unfold mark_tasks_notified. apply list_elem_of_fmap.
  exists t. split; [|exact Ht]. by rewrite decide_True.
Qed.

(** Marking does not make a scan fail. *)
Lemma marked_scan_returns now marked window_minutes task_ids (tasks : list Task.t) :
  (∀ t, t ∈ tasks → open_dated t → is_Some (due_instant t)) →
  is_Some (get_due_tasks now window_minutes (mark_tasks_notified marked task_ids tasks)).
Proof.
  intros Hzones.
  destruct (get_due_tasks _ _ _) as [rows|] eqn:Hget; [by eexists|].
  apply get_due_tasks_None in Hget as (t' & Ht' & Hopen & Hnone).
  unfold mark_tasks_notified in Ht'. apply list_elem_of_fmap in Ht' as (t & -> & Ht).
  assert (open_dated t ∧ due_instant t = None) as [Hopen' Hnone'].
  { destruct (decide (Task.id t ∈ task_ids)); auto. }
  destruct (Hzones t Ht Hopen') as [due Hdue]. congruence.
Qed.

(** X2. A task that was marked before its due instant is selected again by
    any later scan whose window still holds that instant: the marking records the
    time of the dispatch, and the scan only leaves out tasks marked at or
    after their due instant.  The scan returns as long as every open task
    with a date and a time names a zone that the server knows. *)
Theorem marked_before_due_is_selected_again
    (now marked : timestamptz) (window_minutes : Z) (task_ids : list string)
    (tasks : list Task.t) (t : Task.t) (d : date) (tm : time) (due : timestamptz) :
  (∀ other, other ∈ tasks → open_dated other → is_Some (due_instant other)) →
  t ∈ tasks →
  Task.id t ∈ task_ids →
  Task.status t = todo →
  Task.scheduled_date t = Some d →
  Task.due_time t = Some tm →
  due_instant t = Some due →
  marked < due →
  now ≤ due →
  due < now + Z.max window_minutes 1 * 60000000 →
  ∃ rows,
    get_due_tasks now window_minutes (mark_tasks_notified marked task_ids tasks)
    = Some rows
    ∧ mkdue (Task.id t) (Task.user_id t) (Task.title t) d tm (Task.timezone t) due
      ∈ rows.
Proof.
  intros Hzones Ht Hid Hs Hd Htm Hdue Hmarked Hlo Hhi.
  destruct (marked_scan_returns now marked window_minutes task_ids tasks Hzones)
    as [rows Hget].
  exists rows. split; [exact Hget|].
  apply (elem_of_get_due_tasks _ _ _ _ _ Hget).
  exists (notify marked t), d, tm, due.
  split; [by apply elem_of_mark|].
  repeat split; auto. right. exists marked. auto.
Qed.

End MarkingFacts.

(** ** A flush that meets no refusal *)

Section FlushFacts.
Context `{Sync.Remote}.
Import Db Sync.

(** X3. When the remote applies every pending operation, the flush attempts
    them all, in order, removes each of them from the queue and leaves the
    other rows as they were. *)
Theorem flush_applies_the_whole_batch
    (f : Fresh) (q : gmap string QueueOperation.t) (r r1 : remote) (userId : string) :
  apply_all f r (getPendingQueue q userId) = Some r1 →
  fl_attempted (flushQueue f q r userId) = getPendingQueue q userId
  ∧ fl_remote (flushQueue f q r userId) = r1
  ∧ (∀ op, op ∈ getPendingQueue q userId →
       fl_queue (flushQueue f q r userId) !! QueueOperation.id op = None)
  ∧ (∀ k, k ∉ QueueOperation.id <$> getPendingQueue q userId →
       fl_queue (flushQueue f q r userId) !! k = q !! k).
Proof.
  intros Hall. unfold flushQueue.
  rewrite (flush_loop_all_applied f _ _ r1) by exact Hall. simpl.
  split; [reflexivity|]. split; [reflexivity|]. split.
  - intros op Hop. apply processed_lookup_in, list_elem_of_fmap. eauto.
  - intros k Hk. by apply processed_lookup_notin.
Qed.

End FlushFacts.

(** ** The order on strings *)

Section StringOrder.

Lemma compare_refl (s : string) : String.compare s s = Eq.
Proof.
  pose proof (String.compare_antisym s s) as Hs.
  destruct (String.compare s s); simpl in Hs; congruence.
Qed.

Lemma compare_Lt_le (a b : string) : String.compare a b = Lt → String.le a b.
Proof. intros Hc. unfold String.le, String.leb. by rewrite Hc. Qed.

Lemma compare_Lt_trans (a b c : string) :
  String.compare a b = Lt → String.compare b c = Lt → String.compare a c = Lt.
Proof.
  intros Hab Hbc.
  assert (String.le a c) as Hac
    by (transitivity b; apply compare_Lt_le; assumption).
  destruct (String.compare a c) eqn:E; [| reflexivity |].
  - apply String.compare_eq_iff in E. subst c.
    rewrite String.compare_antisym, Hab in Hbc. discriminate.
  - unfold String.le, String.leb in Hac. rewrite E in Hac. contradiction.
Qed.

Lemma string_leb_le (a b : string) : String.leb a b = true ↔ String.le a b.
Proof. unfold String.le. symmetry. apply Is_true_true. Qed.

Lemma truthy_app_l (a b : string) : Js.truthy a = true → Js.truthy (a +:+ b) = true.
Proof. by destruct a. Qed.

Lemma truthy_app_r (a b : string) : Js.truthy b = true → Js.truthy (a +:+ b) = true.
Proof. intros Hb. destruct a; [exact Hb|reflexivity]. Qed.

Lemma or_else_truthy (a : option string) (b : string) :
  Js.truthy b = true → Js.truthy (Js.or_else a b) = true.
Proof.
  intros Hb. unfold Js.or_else. destruct a as [s|]; [|exact Hb].
  destruct (Js.truthy s) eqn:E; [exact E|exact Hb].
Qed.

Lemma or_else_Some (s d : string) : Js.truthy s = true → Js.or_else (Some s) d = s.
Proof. intros Hs. unfold Js.or_else. by rewrite Hs. Qed.

Lemma filter_none {A} (P : A → Prop) `{∀ x, Decision (P x)} (l : list A) :
  (∀ x, x ∈ l → ¬ P x) → filter P l = [].
Proof.
  intros Hno. destruct (filter P l) as [|x l'] eqn:E; [reflexivity|].
  assert (x ∈ filter P l) as Hx by (rewrite E; left).
  apply list_elem_of_filter in Hx as [HP Hin]. by destruct (Hno x Hin).
Qed.

End StringOrder.

(** ** What a merge keeps ([upsertTasksFromRemote]) *)

Section MergeBounds.
Context `{Js.Host}.
Import Db.

Lemma upsert_one_lookup ts y id :
  upsert_one ts y !! id = ts !! id
  ∨ (TaskRecord.id y = id ∧ upsert_one ts y !! id = Some y
     ∧ isIncomingNewer y (ts !! id) = true).
Proof.
  unfold upsert_one, tasks_put.
  destruct (isIncomingNewer y (ts !! TaskRecord.id y)) eqn:E; [|by left].
  destruct (decide (TaskRecord.id y = id)) as [<-|Hne].
  - right. by rewrite lookup_insert_eq.
  - left. by rewrite lookup_insert_ne.
Qed.

Lemma upsert_one_is_Some ts y id :
  is_Some (upsert_one ts y !! id) ↔ is_Some (ts !! id) ∨ TaskRecord.id y = id.
Proof.
  unfold upsert_one, tasks_put.
  destruct (isIncomingNewer y (ts !! TaskRecord.id y)) eqn:E.
  - rewrite lookup_insert_is_Some.
    destruct (decide (TaskRecord.id y = id)); intuition auto.
  - split; [auto|]. intros [?| <-]; [done|].
    destruct (ts !! TaskRecord.id y) eqn:E2; [eauto|]. simpl in E. discriminate.
Qed.

Lemma upsert_lookup_from (batch : list TaskRecord.t) ts id stored :
  upsertTasksFromRemote ts batch !! id = Some stored →
  ts !! id = Some stored ∨ (stored ∈ batch ∧ TaskRecord.id stored = id).
Proof.
  unfold upsertTasksFromRemote. revert ts.
  induction batch as [|y batch IH]; intros ts; simpl; [auto|].
  intros Hs. apply IH in Hs as [Hs|[Hin Hid]].
  - destruct (upsert_one_lookup ts y id) as [Heq|(Hid & Hy & _)].
    + left. congruence.
    + right. rewrite Hy in Hs. injection Hs as <-. split; [left|done].
  - right. split; [by right|done].
Qed.
(** X4. A merge never drops a record and never invents one: an id is stored
    after the merge exactly when it was stored before or occurs in the
    batch; what is stored under an id is the record stored before or a
    record of the batch with that id; and an id the batch does not mention
    keeps its record. *)
Theorem merge_keeps_every_record
    (ts : gmap string TaskRecord.t) (batch : list TaskRecord.t) (id : string) :
  (is_Some (upsertTasksFromRemote ts batch !! id)
   ↔ is_Some (ts !! id) ∨ id ∈ TaskRecord.id <$> batch)
  ∧ (∀ stored, upsertTasksFromRemote ts batch !! id = Some stored →
       ts !! id = Some stored ∨ (stored ∈ batch ∧ TaskRecord.id stored = id))
  ∧ (id ∉ TaskRecord.id <$> batch → upsertTasksFromRemote ts batch !! id = ts !! id).
Proof.
  unfold upsertTasksFromRemote.
  assert (Hsome : ∀ batch ts,
    is_Some (foldl upsert_one ts batch !! id)
    ↔ is_Some (ts !! id) ∨ id ∈ TaskRecord.id <$> batch).
  { clear. induction batch as [|y batch IH]; intros ts; simpl.
    - rewrite elem_of_nil. tauto.
    - rewrite IH, upsert_one_is_Some, elem_of_cons.
      split; [intros [[?|?]|?]|intros [?|[?|?]]]; auto. }
  assert (Hfrom : ∀ batch ts stored,
    foldl upsert_one ts batch !! id = Some stored →
    ts !! id = Some stored ∨ (stored ∈ batch ∧ TaskRecord.id stored = id)).
  { clear. induction batch as [|y batch IH]; intros ts stored; simpl; [auto|].
    intros Hs. apply IH in Hs as [Hs|[Hin Hid]].
    - destruct (upsert_one_lookup ts y id) as [Heq|(Hid & Hy & _)].
      + left. congruence.
      + right. rewrite Hy in Hs. injection Hs as <-. split; [left|done].
    - right. split; [by right|done]. }
  split; [apply Hsome|]. split; [apply Hfrom|].
  intros Hout. destruct (foldl upsert_one ts batch !! id) as [stored|] eqn:E.
  - apply Hfrom in E as [E|[Hin Hid]]; [done|].
    exfalso. apply Hout, list_elem_of_fmap. eauto.
  - destruct (ts !! id) eqn:E2; [|done].
    assert (is_Some (foldl upsert_one ts batch !! id)) as [? ?]
      by (apply Hsome; left; eauto).
    congruence.
Qed.

Lemma updated_after_gt (a b : TaskRecord.t) :
  updated_after a b ↔
  Js.gt (toMs (Some (TaskRecord.updated_at a))) (toMs (Some (TaskRecord.updated_at b))) = true.
Proof. unfold updated_after. by rewrite gt_true_iff. Qed.

Lemma updated_after_trans a b c : updated_after a b → updated_after b c → updated_after a c.
Proof.
  intros (x & y & Hx & Hy & Hlt) (y' & z & Hy' & Hz & Hlt').
  exists x, z. rewrite Hy in Hy'. injection Hy' as <-. repeat split; auto. lia.
Qed.

Lemma updated_after_asym a b : updated_after a b → ¬ updated_after b a.
Proof.
  intros (x & y & Hx & Hy & Hlt) (y' & x' & Hy' & Hx' & Hlt').
  rewrite Hy in Hy'. rewrite Hx in Hx'. injection Hy' as <-. injection Hx' as <-. lia.
Qed.

(** X5. After a merge no record of the batch, and no record stored before,
    is strictly newer than the record then stored under its id. *)
Theorem merge_result_is_newest
    (ts : gmap string TaskRecord.t) (batch : list TaskRecord.t) :
  (∀ incoming stored,
     incoming ∈ batch →
     upsertTasksFromRemote ts batch !! TaskRecord.id incoming = Some stored →
     ¬ updated_after incoming stored)
  ∧ (∀ id previous stored,
       ts !! id = Some previous →
       upsertTasksFromRemote ts batch !! id = Some stored →
       ¬ updated_after previous stored).
Proof.
  split.
  - intros incoming stored Hin Hs.
    pose proof (upsert_settles batch ts) as Hall.
    rewrite Forall_forall in Hall. specialize (Hall _ Hin).
    unfold settled in Hall. rewrite Hs in Hall.
    rewrite <- isIncomingNewer_some. by rewrite Hall.
  - unfold upsertTasksFromRemote. revert ts.
    induction batch as [|y batch IH]; intros ts id previous stored Hp Hs; simpl in Hs.
    + rewrite Hp in Hs. injection Hs as <-. intros Hafter.
      by apply (updated_after_asym _ _ Hafter).
    + destruct (upsert_one_lookup ts y id) as [Heq|(Hid & Hy & Hnew)].
      * eapply IH; [|exact Hs]. by rewrite Heq.
      * rewrite Hp in Hnew. apply isIncomingNewer_some in Hnew.
        intros Hafter. apply (IH _ _ _ _ Hy Hs).
        by apply (updated_after_trans _ previous).
Qed.
End MergeBounds.

(** ** The queue after a flush ([flushQueue], [getPendingQueue]) *)

Section RetryFacts.
Context `{Sync.Remote}.
Import Db Sync.

Global Instance queue_le_trans : Transitive queue_le.
Proof.
  intros a b c. unfold queue_le, queue_leb.
  destruct (String.compare (QueueOperation.created_at a) (QueueOperation.created_at b))
    eqn:Eab; [| |discriminate];
  destruct (String.compare (QueueOperation.created_at b) (QueueOperation.created_at c))
    eqn:Ebc; try discriminate.
  - apply String.compare_eq_iff in Eab, Ebc. rewrite Eab, Ebc, compare_refl.
    intros Hab Hbc.
    assert (String.le (QueueOperation.id a) (QueueOperation.id c)) as Hac.
    { transitivity (QueueOperation.id b); apply string_leb_le; assumption. }
    by apply string_leb_le.
  - apply String.compare_eq_iff in Eab. rewrite Eab, Ebc. done.
  - apply String.compare_eq_iff in Ebc. rewrite <- Ebc, Eab. done.
  - by rewrite (compare_Lt_trans _ _ _ Eab Ebc).
Qed.

Lemma queue_le_antisym a b :
  queue_le a b → queue_le b a → QueueOperation.id a = QueueOperation.id b.
Proof.
  unfold queue_le, queue_leb.
  rewrite (String.compare_antisym (QueueOperation.created_at b)).
  destruct (String.compare (QueueOperation.created_at a) (QueueOperation.created_at b));
    simpl; intros Hab Hba; try discriminate.
  by apply String.leb_antisym.
Qed.

Lemma owner_sorted_strongly q userId : StronglySorted queue_le (owner_sorted q userId).
Proof. apply StronglySorted_merge_sort; apply _. Qed.

Lemma owner_sorted_ids_NoDup q userId :
  queue_keyed q → NoDup (QueueOperation.id <$> owner_sorted q userId).
Proof.
  intros Hq. unfold owner_sorted. rewrite merge_sort_Permutation.
  eapply sublist_NoDup; [|apply fmap_sublist, sublist_filter].
  rewrite queue_rows_ids by exact Hq. apply NoDup_fst_map_to_list.
Qed.

Lemma owner_sorted_lookup q userId op :
  queue_keyed q → op ∈ owner_sorted q userId →
  q !! QueueOperation.id op = Some op ∧ QueueOperation.user_id op = userId.
Proof.
  intros Hq Hin. apply elem_of_owner_sorted in Hin as [Hu (k & Hk)].
  split; [|exact Hu]. by rewrite (Hq k op Hk).
Qed.

Lemma queue_le_bump_l a b : queue_le (bump a) b ↔ queue_le a b.
Proof. reflexivity. Qed.

Lemma queue_le_bump_r a b : queue_le a (bump b) ↔ queue_le a b.
Proof. reflexivity. Qed.

(** The owner's rows after a flush that stopped at [failing]. *)
Lemma owner_sorted_after_refusal q userId before failing tail :
  queue_keyed q →
  owner_sorted q userId = before ++ failing :: tail →
  owner_sorted (bumpQueueRetry (processed q before) (QueueOperation.id failing)) userId
  = bump failing :: tail.
Proof.
  intros Hq HL.
  pose proof (owner_sorted_strongly q userId) as Hsorted.
  pose proof (owner_sorted_ids_NoDup q userId Hq) as Hnd.
  rewrite HL in Hsorted, Hnd.
  assert (Hmem : ∀ x, x ∈ before ++ failing :: tail →
            q !! QueueOperation.id x = Some x ∧ QueueOperation.user_id x = userId).
  { intros x Hx. apply owner_sorted_lookup; [exact Hq|]. by rewrite HL. }
  rewrite fmap_app, fmap_cons in Hnd.
  apply NoDup_app in Hnd as (Hnd1 & Hdisj & Hnd2).
  apply NoDup_cons in Hnd2 as [Hfail_tail Hnd_tail].
  assert (Hfail_before : QueueOperation.id failing ∉ QueueOperation.id <$> before).
  { intros Hin. apply (Hdisj _ Hin). apply list_elem_of_here. }
  destruct (Hmem failing) as [Hfq Hfu]; [apply elem_of_app; right; apply list_elem_of_here|].
  set (q' := bumpQueueRetry (processed q before) (QueueOperation.id failing)).
  assert (Hq'f : q' !! QueueOperation.id failing = Some (bump failing)).
  { unfold q', bumpQueueRetry. rewrite processed_lookup_notin by exact Hfail_before.
    rewrite Hfq. unfold queue_put. simpl. by rewrite lookup_insert_eq. }
  assert (Hq'o : ∀ k, k ≠ QueueOperation.id failing →
            q' !! k = if decide (k ∈ QueueOperation.id <$> before) then None else q !! k).
  { intros k Hk. unfold q', bumpQueueRetry.
    rewrite processed_lookup_notin by exact Hfail_before. rewrite Hfq.
    unfold queue_put. simpl. rewrite lookup_insert_ne by done.
    destruct (decide _) as [Hin|Hout].
    - by apply processed_lookup_in.
    - by apply processed_lookup_notin. }
  symmetry. apply (StronglySorted_unique_strong queue_le).
  - intros x1 x2 Hx1 Hx2 H12 H21.
    pose proof (queue_le_antisym _ _ H12 H21) as Hid.
    apply elem_of_owner_sorted in Hx2 as [_ (k & Hk)].
    assert (queue_keyed q') as Hq'keyed.
    { unfold q'. apply queue_keyed_bump.
      clear -Hq. revert q Hq. induction before as [|b before IH]; intros q Hq; [done|].
      rewrite processed_cons. apply IH. by apply queue_keyed_processed. }
    pose proof (Hq'keyed k x2 Hk) as Hk2. simpl in Hk2. subst k.
    apply elem_of_cons in Hx1 as [->|Hx1].
    + simpl in Hid. rewrite <- Hid, Hq'f in Hk. by injection Hk.
    + assert (QueueOperation.id x1 ≠ QueueOperation.id failing) as Hne.
      { intros Heq. apply Hfail_tail. rewrite <- Heq. apply list_elem_of_fmap. eauto. }
      rewrite <- Hid, Hq'o in Hk by exact Hne.
      destruct (decide _); [discriminate|].
      destruct (Hmem x1) as [Hx1q _]; [apply elem_of_app; right; by right|].
      rewrite Hx1q in Hk. by injection Hk.
  - apply StronglySorted_app_1_r in Hsorted.
    inversion Hsorted as [|? ? Htail Hhd]; subst.
    constructor; [exact Htail|]. exact Hhd.
  - apply owner_sorted_strongly.
  - unfold owner_sorted. rewrite merge_sort_Permutation.
    apply NoDup_Permutation.
    + apply (NoDup_fmap_1 QueueOperation.id). rewrite fmap_cons. simpl.
      by apply NoDup_cons.
    + apply (NoDup_fmap_1 QueueOperation.id).
      eapply sublist_NoDup; [|apply fmap_sublist, sublist_filter].
      rewrite queue_rows_ids; [apply NoDup_fst_map_to_list|].
      unfold q'. apply queue_keyed_bump.
      clear -Hq. revert q Hq. induction before as [|b before IH]; intros q Hq; [done|].
      rewrite processed_cons. apply IH. by apply queue_keyed_processed.
    + intros x. rewrite list_elem_of_filter, elem_of_queue_rows, elem_of_cons. split.
      * intros [->|Hx].
        -- split; [exact Hfu|]. eauto.
        -- destruct (Hmem x) as [Hxq Hxu]; [apply elem_of_app; right; by right|].
           split; [exact Hxu|]. exists (QueueOperation.id x).
           rewrite Hq'o.
           ++ rewrite decide_False; [exact Hxq|].
              intros Hin. apply (Hdisj _ Hin). right. apply list_elem_of_fmap. eauto.
           ++ intros Heq. apply Hfail_tail. rewrite <- Heq. apply list_elem_of_fmap. eauto.
      * intros [Hu (k & Hk)].
        destruct (decide (k = QueueOperation.id failing)) as [->|Hne].
        -- left. rewrite Hq'f in Hk. by injection Hk.
        -- right. rewrite Hq'o in Hk by exact Hne.
           destruct (decide (k ∈ _)) as [|Hout]; [discriminate|].
           assert (x ∈ owner_sorted q userId) as Hin
             by (apply elem_of_owner_sorted; eauto).
           rewrite HL in Hin. pose proof (Hq k x Hk) as Hkx. simpl in Hkx. subst k.
           apply elem_of_app in Hin as [Hin|Hin].
           ++ exfalso. apply Hout, list_elem_of_fmap. eauto.
           ++ apply elem_of_cons in Hin as [->|Hin]; [done|exact Hin].
Qed.

(** X6. After a flush that stopped at a refused operation, the next batch
    starts with that operation, its retry count raised, followed by the
    owner's remaining operations in their order: nothing overtakes it. *)
Theorem refused_operation_is_retried_first
    (f : Fresh) (q : gmap string QueueOperation.t) (r r1 : remote) (userId : string)
    (before later : list QueueOperation.t) (failing : QueueOperation.t) :
  queue_keyed q →
  getPendingQueue q userId = before ++ failing :: later →
  apply_all f r before = Some r1 →
  (send_operation f r1 failing).2 = Failed →
  getPendingQueue (fl_queue (flushQueue f q r userId)) userId
  = take SYNC_BATCH_SIZE
      (bump failing :: drop (S (length before)) (owner_sorted q userId)).
Proof.
  intros Hq Hpending Hall Hfail.
  unfold flushQueue. rewrite Hpending.
  rewrite (flush_loop_first_failure f before failing later _ r1) by assumption.
  cbn [fl_queue].
  unfold getPendingQueue in Hpending |- *. fold (owner_sorted q userId) in Hpending.
  fold (owner_sorted (bumpQueueRetry (processed q before) (QueueOperation.id failing))
          userId).
  set (tail := later ++ drop SYNC_BATCH_SIZE (owner_sorted q userId)).
  assert (owner_sorted q userId = before ++ failing :: tail) as HL.
  { rewrite <- (take_drop SYNC_BATCH_SIZE (owner_sorted q userId)) at 1.
    rewrite Hpending. by rewrite <- (assoc_L (++)). }
  rewrite (owner_sorted_after_refusal q userId before failing tail Hq HL).
  do 2 f_equal. rewrite HL.
  rewrite (cons_middle failing before tail), (assoc_L (++)).
  rewrite drop_app_length'; [reflexivity|]. rewrite length_app. simpl. lia.
Qed.
Lemma queue_keyed_processed_all q ops : queue_keyed q → queue_keyed (processed q ops).
Proof.
  revert q. induction ops as [|b ops IH]; intros q Hq; [done|].
  rewrite processed_cons. apply IH. by apply queue_keyed_processed.
Qed.

Lemma processed_lookup q ops k :
  processed q ops !! k = if decide (k ∈ QueueOperation.id <$> ops) then None else q !! k.
Proof.
  destruct (decide _) as [Hin|Hout].
  - by apply processed_lookup_in.
  - by apply processed_lookup_notin.
Qed.

(** The owner's rows once a first part of them has been marked processed. *)
Lemma owner_sorted_processed q userId before tail :
  queue_keyed q →
  owner_sorted q userId = before ++ tail →
  owner_sorted (processed q before) userId = tail.
Proof.
  intros Hq HL.
  pose proof (owner_sorted_strongly q userId) as Hsorted.
  pose proof (owner_sorted_ids_NoDup q userId Hq) as Hnd.
  rewrite HL in Hsorted, Hnd.
  assert (Hmem : ∀ x, x ∈ before ++ tail →
            q !! QueueOperation.id x = Some x ∧ QueueOperation.user_id x = userId).
  { intros x Hx. apply owner_sorted_lookup; [exact Hq|]. by rewrite HL. }
  rewrite fmap_app in Hnd. apply NoDup_app in Hnd as (Hnd1 & Hdisj & Hnd2).
  pose proof (queue_keyed_processed_all q before Hq) as Hq'.
  symmetry. apply (StronglySorted_unique_strong queue_le).
  - intros x1 x2 Hx1 Hx2 H12 H21.
    pose proof (queue_le_antisym _ _ H12 H21) as Hid.
    apply elem_of_owner_sorted in Hx2 as [_ (k & Hk)].
    pose proof (Hq' k x2 Hk) as Hk2. simpl in Hk2. subst k.
    rewrite processed_lookup in Hk. destruct (decide _); [discriminate|].
    destruct (Hmem x1) as [Hx1q _]; [apply elem_of_app; by right|].
    rewrite <- Hid, Hx1q in Hk. by injection Hk.
  - by apply StronglySorted_app_1_r in Hsorted.
  - apply owner_sorted_strongly.
  - unfold owner_sorted. rewrite merge_sort_Permutation.
    apply NoDup_Permutation.
    + by apply (NoDup_fmap_1 QueueOperation.id).
    + apply (NoDup_fmap_1 QueueOperation.id).
      eapply sublist_NoDup; [|apply fmap_sublist, sublist_filter].
      rewrite queue_rows_ids by exact Hq'. apply NoDup_fst_map_to_list.
    + intros x. rewrite list_elem_of_filter, elem_of_queue_rows. split.
      * intros Hx. destruct (Hmem x) as [Hxq Hxu]; [apply elem_of_app; by right|].
        split; [exact Hxu|]. exists (QueueOperation.id x).
        rewrite processed_lookup, decide_False; [exact Hxq|].
        intros Hin. apply (Hdisj _ Hin). apply list_elem_of_fmap. eauto.
      * intros [Hu (k & Hk)]. rewrite processed_lookup in Hk.
        destruct (decide (k ∈ _)) as [|Hout]; [discriminate|].
        assert (x ∈ owner_sorted q userId) as Hin
          by (apply elem_of_owner_sorted; eauto).
        rewrite HL in Hin. pose proof (Hq k x Hk) as Hkx. simpl in Hkx. subst k.
        apply elem_of_app in Hin as [Hin|Hin]; [|exact Hin].
        exfalso. apply Hout, list_elem_of_fmap. eauto.
Qed.

Lemma queueCount_owner_sorted q userId :
  queueCount q userId = length (owner_sorted q userId).
Proof. unfold queueCount, owner_sorted. by rewrite merge_sort_Permutation. Qed.

(** X7. After a flush in which every operation was applied, the next batch
    is the owner's next 100 operations in order, and the owner's queue
    counter has gone down by 100, to zero when fewer were pending. *)
Theorem applied_batch_leaves_the_rest
    (f : Fresh) (q : gmap string QueueOperation.t) (r r1 : remote) (userId : string) :
  queue_keyed q →
  apply_all f r (getPendingQueue q userId) = Some r1 →
  getPendingQueue (fl_queue (flushQueue f q r userId)) userId
  = take SYNC_BATCH_SIZE (drop SYNC_BATCH_SIZE (owner_sorted q userId))
  ∧ queueCount (fl_queue (flushQueue f q r userId)) userId
    = (queueCount q userId - SYNC_BATCH_SIZE)%nat.
Proof.
  intros Hq Hall. unfold flushQueue.
  rewrite (flush_loop_all_applied f _ _ r1) by exact Hall. cbn [fl_queue].
  assert (owner_sorted (processed q (getPendingQueue q userId)) userId
          = drop SYNC_BATCH_SIZE (owner_sorted q userId)) as Hrest.
  { apply owner_sorted_processed; [exact Hq|].
    unfold getPendingQueue. fold (owner_sorted q userId). by rewrite take_drop. }
  split.
  - unfold getPendingQueue at 1.
    fold (owner_sorted (processed q (getPendingQueue q userId)) userId).
    by rewrite Hrest.
  - rewrite !queueCount_owner_sorted, Hrest. apply length_drop.
Qed.
End RetryFacts.

Section FlushBounds.
Context `{Sync.Remote}.
Import Db Sync.

Lemma bumpQueueRetry_lookup q queueId k op :
  queue_keyed q →
  bumpQueueRetry q queueId !! k = Some op →
  ∃ op0, q !! k = Some op0 ∧ (op = op0 ∨ op = bump op0).
Proof.
  intros Hq. unfold bumpQueueRetry.
  destruct (q !! queueId) as [item|] eqn:E; [|eauto].
  unfold queue_put. simpl. pose proof (Hq _ _ E) as Hid. simpl in Hid. rewrite Hid.
  destruct (decide (k = queueId)) as [->|Hne].
  - rewrite lookup_insert_eq. intros [= <-]. eauto.
  - rewrite lookup_insert_ne by done. eauto.
Qed.

Lemma bumpQueueRetry_other q queueId k :
  queue_keyed q → k ≠ queueId → bumpQueueRetry q queueId !! k = q !! k.
Proof.
  intros Hq Hne. unfold bumpQueueRetry.
  destruct (q !! queueId) as [item|] eqn:E; [|done].
  unfold queue_put. simpl. pose proof (Hq _ _ E) as Hid. simpl in Hid. rewrite Hid.
  by rewrite lookup_insert_ne.
Qed.

Lemma flush_loop_bounds f pending st :
  queue_keyed (fl_queue st) →
  queue_keyed (fl_queue (flush_loop f pending st))
  ∧ (∀ k, k ∉ QueueOperation.id <$> pending →
       fl_queue (flush_loop f pending st) !! k = fl_queue st !! k)
  ∧ (∀ k op, fl_queue (flush_loop f pending st) !! k = Some op →
       ∃ op0, fl_queue st !! k = Some op0 ∧ (op = op0 ∨ op = bump op0))
  ∧ ∃ attempted, attempted `prefix_of` pending
      ∧ fl_attempted (flush_loop f pending st) = fl_attempted st ++ attempted.
Proof.
  revert st. induction pending as [|operation rest IH]; intros st Hq; simpl.
  - split; [exact Hq|]. split; [done|]. split; [eauto|].
    exists []. split; [done|]. by rewrite (right_id_L [] (++)).
  - destruct (send_operation f (fl_remote st) operation) as [r answer].
    destruct answer.
    + destruct (IH (mkFlush (markQueueProcessed (fl_queue st) (QueueOperation.id operation))
                      r (fl_attempted st ++ [operation])))
        as (Hk & Hout & Hfrom & attempted & Hpre & Hlog).
      { simpl. by apply queue_keyed_processed. }
      simpl in *. split; [exact Hk|]. split; [|split].
      * intros k Hnot. rewrite not_elem_of_cons in Hnot. destruct Hnot as [Hne Hnot].
        rewrite Hout by exact Hnot. by apply lookup_delete_ne.
      * intros k op Hop. destruct (Hfrom k op Hop) as (op0 & Hop0 & Hor).
        unfold markQueueProcessed in Hop0. apply lookup_delete_Some in Hop0 as [_ Hop0].
        eauto.
      * exists (operation :: attempted). split; [by apply prefix_cons|].
        rewrite Hlog. by rewrite <- (assoc_L (++)).
    + simpl. split; [by apply queue_keyed_bump|]. split; [|split].
      * intros k Hnot. rewrite not_elem_of_cons in Hnot. destruct Hnot as [Hne Hnot].
        by apply bumpQueueRetry_other.
      * intros k op. by apply bumpQueueRetry_lookup.
      * exists [operation]. split; [|done]. apply prefix_cons, prefix_nil.
Qed.

(** X8. Whatever the remote answers, a flush attempts a prefix of the
    pending batch, at most 100 operations; it leaves the rows of the other
    owners as they are; and it adds no row: every row of the queue afterwards
    was there before, unchanged or with one more retry. *)
Theorem flush_touches_only_the_owner_rows
    (f : Fresh) (q : gmap string QueueOperation.t) (r : remote) (userId : string) :
  queue_keyed q →
  fl_attempted (flushQueue f q r userId) `prefix_of` getPendingQueue q userId
  ∧ (length (fl_attempted (flushQueue f q r userId)) ≤ SYNC_BATCH_SIZE)%nat
  ∧ (∀ k op, q !! k = Some op → QueueOperation.user_id op ≠ userId →
       fl_queue (flushQueue f q r userId) !! k = Some op)
  ∧ (∀ k op, fl_queue (flushQueue f q r userId) !! k = Some op →
       ∃ op0, q !! k = Some op0 ∧ (op = op0 ∨ op = bump op0))
  ∧ queue_keyed (fl_queue (flushQueue f q r userId)).
Proof.
  intros Hq. unfold flushQueue.
  destruct (flush_loop_bounds f (getPendingQueue q userId) (mkFlush q r []) Hq)
    as (Hk & Hout & Hfrom & attempted & Hpre & Hlog).
  simpl in *. rewrite Hlog.
  split; [exact Hpre|]. split; [|split; [|split; [exact Hfrom|exact Hk]]].
  - apply prefix_length in Hpre. etrans; [exact Hpre|].
    unfold getPendingQueue. rewrite length_take. lia.
  - intros k op Hop Hother. rewrite Hout; [exact Hop|].
    intros Hin. apply list_elem_of_fmap in Hin as (p & -> & Hp).
    destruct (pending_lookup q userId p Hq Hp) as [Hpq Hpu].
    rewrite Hpq in Hop. injection Hop as <-. contradiction.
Qed.

End FlushBounds.

(** ** What is sent and what is pulled ([normalizeTaskRecord], [pullUpdates]) *)

Section SyncFacts.
Context `{Js.Host} `{Pg.Server} `{Sync.Remote}.
Import Js Db Sync.

Lemma status_out_done s : Pg.status_out s = "done" ↔ s = done.
Proof. destruct s; simpl; split; congruence. Qed.

Lemma normalize_of_task (f : Fresh) (t : TaskRecord.t) :
  normalizeTaskRecord f (of_task t) = t.
Proof.
  destruct t as [? ? ? status priority ? ? ? ? ? ? ? ? ? ? ? ?].
  unfold normalizeTaskRecord, of_task. simpl.
  f_equal.
  - destruct status; simpl; repeat case_decide; congruence.
  - destruct priority; simpl; repeat case_decide; congruence.
Qed.

(** X9. Normalisation leaves a complete task record as it is, so the
    upsert a flush sends for an enqueued task carries exactly the record
    that was enqueued. *)
Theorem flush_sends_the_stored_record
    (f : Fresh) (r : remote) (task : TaskRecord.t) (uuid now : string) (q : gmap string QueueOperation.t) :
  normalizeTaskRecord f (of_task task) = task
  ∧ (∀ operation,
       enqueueTaskUpsert uuid now q task !! uuid = Some operation →
       send_operation f r operation = tasks_upsert r task).
Proof.
  split; [apply normalize_of_task|].
  intros operation. unfold enqueueTaskUpsert, queue_put. simpl.
  rewrite lookup_insert_eq. intros [= <-].
  unfold send_operation. simpl. by rewrite normalize_of_task.
Qed.

Lemma normalize_json_owner f row :
  TaskRecord.user_id (normalizeTaskRecord f (Pg.to_json row)) = Pg.Task.user_id row.
Proof. reflexivity. Qed.

Lemma lastPullKey_inj a b : lastPullKey a = lastPullKey b → a = b.
Proof.
  unfold lastPullKey. cbv [String.append String.app]. intros Heq. by simplify_eq.
Qed.

Lemma pullUpdates_Some f d r userId d' :
  pullUpdates f d r userId = Some d' →
  ∃ table batch,
    tasks_table r = Some table ∧
    pull_request table userId (cursor_text d userId) = Some batch ∧
    tasks d' = upsertTasksFromRemote (tasks d)
                 ((fun row => normalizeTaskRecord f (Pg.to_json row)) <$> batch) ∧
    queue d' = queue d ∧
    (meta d' = meta d ∨ ∃ latest, meta d' = <[lastPullKey userId := latest]> (meta d)).
Proof.
  unfold pullUpdates. fold (cursor_text d userId).
  destruct (tasks_table r) as [table|]; [|discriminate]. simpl.
  destruct (pull_request table userId (cursor_text d userId)) as [batch|] eqn:Hreq;
    [|discriminate].
  simpl. intros [= <-]. exists table, batch. split; [done|]. split; [done|].
  destruct (truthy_opt _); simpl; eauto 10.
Qed.

(** X10. A pull leaves the queue alone, moves no cursor but its owner's
    (the cursors of the other owners sit under other keys), and every task
    record it writes belongs to its owner. *)
Theorem pull_writes_only_its_owner
    (f : Fresh) (d d' : Db.t) (r : remote) (userId : string) :
  pullUpdates f d r userId = Some d' →
  queue d' = queue d
  ∧ (∀ key, key ≠ lastPullKey userId →
       getMetaValue (meta d') key = getMetaValue (meta d) key)
  ∧ (∀ other, other ≠ userId →
       getMetaValue (meta d') (lastPullKey other)
       = getMetaValue (meta d) (lastPullKey other))
  ∧ (∀ id stored, tasks d' !! id = Some stored →
       tasks d !! id = Some stored ∨ TaskRecord.user_id stored = userId).
Proof.
  intros Hpull.
  destruct (pullUpdates_Some _ _ _ _ _ Hpull)
    as (table & batch & Htable & Hreq & Htasks & Hqueue & Hmeta).
  assert (Hkeys : ∀ key, key ≠ lastPullKey userId →
            getMetaValue (meta d') key = getMetaValue (meta d) key).
  { intros key Hne. unfold getMetaValue.
    destruct Hmeta as [->|[latest ->]]; [done|]. by rewrite lookup_insert_ne. }
  split; [exact Hqueue|]. split; [exact Hkeys|]. split.
  - intros other Hne. apply Hkeys. intros Heq. by apply lastPullKey_inj in Heq.
  - intros id stored Hs. rewrite Htasks in Hs.
    apply upsert_lookup_from in Hs as [Hs|[Hin _]]; [by left|right].
    apply list_elem_of_fmap in Hin as (row & -> & Hrow).
    rewrite normalize_json_owner.
    unfold pull_request in Hreq.
    destruct (Pg.timestamptz_in _) as [cursor|]; [|discriminate]. simpl in Hreq.
    injection Hreq as <-.
    eapply elem_of_submseteq in Hrow; [|apply sublist_submseteq, sublist_take].
    rewrite merge_sort_Permutation in Hrow.
    by apply list_elem_of_filter in Hrow as [[Hu _] _].
Qed.

(** X11. When a pull was not cut at 1000 rows and the server reads back
    the timestamps it prints, pulling again from the unchanged server
    changes nothing: neither the tasks nor the cursor. *)
Theorem second_pull_changes_nothing
    (f f' : Fresh) (d : Db.t) (r : remote) (userId : string)
    (table : list Pg.Task.t) (cursor : Pg.timestamptz) :
  tasks_table r = Some table →
  Pg.timestamptz_in (cursor_text d userId) = Some cursor →
  (∀ row, row ∈ table → truthy (Pg.timestamptz_out (Pg.Task.updated_at row)) = true) →
  (∀ row, row ∈ table →
     Pg.timestamptz_in (Pg.timestamptz_out (Pg.Task.updated_at row))
     = Some (Pg.Task.updated_at row)) →
  (length (filter (pull_filter userId cursor) table) ≤ 1000)%nat →
  ∃ d', pullUpdates f d r userId = Some d' ∧ pullUpdates f' d' r userId = Some d'.
Proof.
  intros Htable Hcursor Hprint Hread Hall.
  unfold pullUpdates at 1. fold (cursor_text d userId). rewrite Htable. simpl.
  unfold pull_request. rewrite Hcursor. simpl.
  rewrite take_ge by (by rewrite merge_sort_Permutation).
  set (batch := merge_sort updated_le (filter (pull_filter userId cursor) table)).
  assert (Hbatch : ∀ row, row ∈ batch ↔ pull_filter userId cursor row ∧ row ∈ table).
  { intros row. unfold batch. rewrite merge_sort_Permutation. apply list_elem_of_filter. }
  rewrite fmap_last.
  destruct (last batch) as [newest|] eqn:Hlast; simpl.
  - assert (newest ∈ batch) as Hin by (by apply last_Some_elem_of).
    apply Hbatch in Hin as [[Hu Hlt] Hin].
    rewrite (Hprint newest Hin). simpl.
    eexists. split; [reflexivity|].
    unfold pullUpdates. cbn [meta with_meta with_tasks tasks queue].
    unfold getMetaValue, setMetaValue. rewrite lookup_insert_eq. simpl.
    rewrite Htable. simpl. unfold pull_request. rewrite (Hread newest Hin). simpl.
    assert (filter (pull_filter userId (Pg.Task.updated_at newest)) table = []) as ->.
    { apply filter_none. intros row Hrow [Hru Hrlt].
      assert (row ∈ batch) as Hrb.
      { apply Hbatch. split; [|exact Hrow]. split; [exact Hru|]. lia. }
      assert (StronglySorted updated_le batch) as Hs
        by (apply StronglySorted_merge_sort; apply _).
      pose proof (StronglySorted_last_max updated_le batch newest row Hs Hlast Hrb) as Hle.
      unfold updated_le in Hle. lia. }
    reflexivity.
  - eexists. split; [reflexivity|].
    unfold pullUpdates. cbn [meta with_meta with_tasks tasks queue].
    fold (cursor_text d userId). rewrite Htable. simpl.
    unfold pull_request. rewrite Hcursor. simpl.
    rewrite take_ge by (by rewrite merge_sort_Permutation).
    fold batch. rewrite fmap_last, Hlast. simpl.
    apply last_None in Hlast. rewrite Hlast. reflexivity.
Qed.

(** X23. After a pull the cursor stands at the [updated_at] of the last row
    of the batch, and a later pull asks for rows strictly after it: a row of
    the table that carries that same [updated_at] and was left out of the
    batch, cut at 1000, is in no later batch either. *)
Theorem rows_tied_with_a_cut_batch_are_skipped
    (f : Fresh) (d : Db.t) (r : remote) (userId : string)
    (table batch : list Pg.Task.t) (newest : Pg.Task.t) :
  tasks_table r = Some table →
  pull_request table userId (cursor_text d userId) = Some batch →
  last batch = Some newest →
  truthy (Pg.timestamptz_out (Pg.Task.updated_at newest)) = true →
  Pg.timestamptz_in (Pg.timestamptz_out (Pg.Task.updated_at newest))
  = Some (Pg.Task.updated_at newest) →
  ∃ d',
    pullUpdates f d r userId = Some d'
    ∧ cursor_text d' userId = Pg.timestamptz_out (Pg.Task.updated_at newest)
    ∧ ∀ row batch',
        row ∈ table →
        Pg.Task.id row ∉ Pg.Task.id <$> batch →
        Pg.Task.updated_at row = Pg.Task.updated_at newest →
        pull_request table userId (cursor_text d' userId) = Some batch' →
        row ∉ batch ++ batch'.
Proof.
  intros Htable Hreq Hlast Hprint Hread.
  unfold pullUpdates. fold (cursor_text d userId).
  rewrite Htable. simpl. rewrite Hreq. simpl. rewrite fmap_last, Hlast. simpl.
  rewrite Hprint. eexists. split; [reflexivity|].
  assert (∀ d0 ts m, cursor_text (with_meta (with_tasks d0 ts)
                        (setMetaValue m (lastPullKey userId)
                           (Pg.timestamptz_out (Pg.Task.updated_at newest)))) userId
                     = Pg.timestamptz_out (Pg.Task.updated_at newest)) as Hcursor.
  { intros d0 ts m. unfold cursor_text. simpl.
    unfold getMetaValue, setMetaValue. by rewrite lookup_insert_eq. }
  rewrite Hcursor. split; [reflexivity|].
  intros row batch' Hrow Hcut Htie Hnext Hin.
  apply elem_of_app in Hin as [Hin|Hin].
  - apply Hcut, list_elem_of_fmap. eauto.
  - destruct (pull_request_rows table userId _ _ Hread) as (b & Hb & Hrows & _).
    rewrite Hb in Hnext. injection Hnext as <-.
    destruct (Hrows row Hin) as (_ & _ & Hlt). lia.
Qed.

End SyncFacts.

(** ** The legacy migration ([migrateLegacyDataIfNeeded]) *)

Section MigrationFacts.
Context `{Js.Host} `{Migration.Json}.
Import Js Db Migration.

Lemma migrate_loop_tasks draws i legacyTasks userId timezone d n d' result :
  migrate_loop draws i legacyTasks userId timezone d n = (d', result) →
  meta d' = meta d
  ∧ ∀ id stored, tasks d' !! id = Some stored →
      tasks d !! id = Some stored
      ∨ (TaskRecord.user_id stored = userId
         ∧ truthy (TaskRecord.title stored) = true
         ∧ TaskRecord.timezone stored = timezone).
Proof.
  revert i d n. induction legacyTasks as [|legacy rest IH]; intros i d n; simpl.
  - intros [= <- <-]. auto.
  - destruct (toLegacyTaskRecord _ _ _ legacy userId timezone) as [record|] eqn:E.
    + intros Hloop. apply IH in Hloop as [Hmeta Hfrom].
      split; [exact Hmeta|].
      intros id stored Hs. apply Hfrom in Hs as [Hs|Hs]; [|by right].
      unfold putTaskLocal, with_queue, with_tasks, tasks_put in Hs. simpl in Hs.
      destruct (decide (TaskRecord.id record = id)) as [<-|Hne].
      * rewrite lookup_insert_eq in Hs. injection Hs as <-. right.
        unfold toLegacyTaskRecord in E.
        destruct (match LegacyTask.id legacy with
                  | LegacyNumber n0 => _ | LegacyString _ => _ end) as [stamp|];
          [|discriminate].
        simpl in E. injection E as <-. simpl.
        split; [reflexivity|]. split; [|reflexivity]. by apply or_else_truthy.
      * rewrite lookup_insert_ne in Hs by done. by left.
    + intros [= <- <-]. auto.
Qed.

Lemma getAllUserTasks_elem ts userId t :
  t ∈ getAllUserTasks ts userId ↔ TaskRecord.user_id t = userId ∧ ∃ k, ts !! k = Some t.
Proof.
  unfold getAllUserTasks. rewrite merge_sort_Permutation, list_elem_of_filter.
  rewrite list_elem_of_fmap. split.
  - intros [Hu ([k t'] & -> & Hin)]. split; [exact Hu|].
    exists k. by apply elem_of_map_to_list.
  - intros [Hu (k & Hk)]. split; [exact Hu|]. exists (k, t). split; [done|].
    by apply elem_of_map_to_list.
Qed.

(** X12. A migration that completes sets the owner's flag, and every later
    call for that owner changes nothing and reports no migrated task,
    whatever the local storage then holds. *)
Theorem migration_runs_once
    (e e' : Environment) (localStorage localStorage' : gmap string string)
    (s s1 : Store) (userId timezone timezone' : string) (summary : Summary) :
  migrateLegacyDataIfNeeded e localStorage s userId timezone = (s1, Some summary) →
  getMetaValue (meta (db s1)) (migrationMetaKey userId) = Some "yes"
  ∧ migrateLegacyDataIfNeeded e' localStorage' s1 userId timezone'
    = (s1, Some (mkSummary 0 false)).
Proof.
  intros Hrun.
  assert (getMetaValue (meta (db s1)) (migrationMetaKey userId) = Some "yes") as Hflag.
  { unfold migrateLegacyDataIfNeeded in Hrun.
    destruct (decide (getMetaValue (meta (db s)) (migrationMetaKey userId) = Some "yes"))
      as [Hyes|Hno].
    - injection Hrun as <- _. exact Hyes.
    - match type of Hrun with
      | (let '(d, migrated) := ?p in _) = _ => destruct p as [d [n|]]
      end; [|discriminate].
      injection Hrun as <- _. simpl. unfold getMetaValue, setMetaValue.
      apply lookup_insert_eq. }
  split; [exact Hflag|].
  unfold migrateLegacyDataIfNeeded. by rewrite decide_True.
Qed.

(** X13. When the owner already has a task stored, the migration converts
    nothing: it completes, reports no migrated task, and leaves the task and
    queue tables as they are. *)
Theorem migration_keeps_existing_tasks
    (e : Environment) (localStorage : gmap string string) (s : Store)
    (userId timezone : string) (key : string) (existing : TaskRecord.t) :
  tasks (db s) !! key = Some existing →
  TaskRecord.user_id existing = userId →
  ∃ s1 summary,
    migrateLegacyDataIfNeeded e localStorage s userId timezone = (s1, Some summary)
    ∧ migratedTasks summary = 0%nat
    ∧ tasks (db s1) = tasks (db s)
    ∧ queue (db s1) = queue (db s).
Proof.
  intros Hkey Hown. unfold migrateLegacyDataIfNeeded.
  destruct (decide _) as [Hyes|Hno]; [eauto 10|].
  set (s' := if existsb _ _ then _ else s).
  assert (db s' = db s) as Hdb by (unfold s'; by destruct (existsb _ _)).
  assert (existing ∈ getAllUserTasks (tasks (db s')) userId) as Hin.
  { apply getAllUserTasks_elem. rewrite Hdb. eauto. }
  destruct (getAllUserTasks (tasks (db s')) userId) as [|t l] eqn:E.
  { by apply elem_of_nil in Hin. }
  simpl. rewrite Hdb. eauto 10.
Qed.

(** X14. Every task record a migration writes belongs to the owner, has a
    title that is not empty (the legacy text trimmed, or the placeholder
    when that is empty or missing) and carries the time zone passed in. *)
Theorem migrated_tasks_belong_to_the_user
    (e : Environment) (localStorage : gmap string string) (s s1 : Store)
    (userId timezone : string) (result : option Summary) :
  migrateLegacyDataIfNeeded e localStorage s userId timezone = (s1, result) →
  ∀ id stored, tasks (db s1) !! id = Some stored →
    tasks (db s) !! id = Some stored
    ∨ (TaskRecord.user_id stored = userId
       ∧ truthy (TaskRecord.title stored) = true
       ∧ TaskRecord.timezone stored = timezone).
Proof.
  unfold migrateLegacyDataIfNeeded.
  destruct (decide _) as [Hyes|Hno]; [intros [= <- _]; auto|].
  set (s' := if existsb _ _ then _ else s).
  assert (db s' = db s) as Hdb by (unfold s'; by destruct (existsb _ _)).
  destruct (_ && _).
  - destruct (migrate_loop _ _ _ _ _ _ _) as [d migrated] eqn:Hloop.
    apply migrate_loop_tasks in Hloop as [_ Hfrom]. rewrite Hdb in Hfrom.
    destruct migrated; intros [= <- _]; simpl; exact Hfrom.
  - intros [= <- _]. simpl. rewrite Hdb. auto.
Qed.

End MigrationFacts.

(** ** The import of a backup ([importBackupPayload]) *)

Section ImportFacts.
Import Js Db Backup.

Lemma import_loop_spec draws userId rows i d n :
  (import_loop draws i userId rows d n).2 = (n + length rows)%nat
  ∧ (∀ id, id ∉ item_id <$> rows →
       tasks (import_loop draws i userId rows d n).1 !! id = tasks d !! id)
  ∧ (∀ id, id ∈ item_id <$> rows →
       ∃ row e, row ∈ rows ∧ item_id row = id
         ∧ tasks (import_loop draws i userId rows d n).1 !! id
           = Some (import_task userId (zone e) (now_updated e) (now_created e) row)).
Proof.
  revert i d n. induction rows as [|row rest IH]; intros i d n.
  - simpl. split; [lia|]. split; [done|]. intros id Hin. by apply elem_of_nil in Hin.
  - cbn [import_loop]. rewrite fmap_cons. destruct (IH (S i)
                (putTaskLocal (queue_uuid (draws i)) (queue_now (draws i)) d
                   (import_task userId (zone (draws i)) (now_updated (draws i))
                      (now_created (draws i)) row) true) (S n))
      as (Hcount & Hout & Hin).
    split; [rewrite Hcount; simpl; lia|]. split.
    + intros id Hnot. apply not_elem_of_cons in Hnot as [Hne Hnot].
      rewrite Hout by exact Hnot. simpl. unfold tasks_put. simpl.
      by rewrite lookup_insert_ne.
    + intros id Hid.
      destruct (decide (id ∈ item_id <$> rest)) as [Hrest|Hrest].
      * destruct (Hin id Hrest) as (row' & e & Hrow' & Hid' & Hlook).
        exists row', e. split; [by right|]. auto.
      * apply elem_of_cons in Hid as [->|Hid]; [|contradiction].
        exists row, (draws i). split; [left|]. split; [reflexivity|].
        rewrite Hout by exact Hrest. simpl. unfold tasks_put. simpl.
        apply lookup_insert_eq.
Qed.

Lemma isTaskArray_true items :
  isTaskArray (Some items) = true ↔
  ∀ item, item ∈ items →
    ∃ row, item = Some row ∧ is_Some (Partial.id row) ∧ is_Some (Partial.title row).
Proof.
  simpl. induction items as [|item items IH]; simpl.
  - split; [|done]. intros _ item Hin. by apply elem_of_nil in Hin.
  - rewrite andb_true_iff, IH. split.
    + intros [Hitem Hall] item' Hin. apply elem_of_cons in Hin as [->|Hin]; [|auto].
      destruct item as [row|]; [|discriminate]. exists row. split; [done|].
      unfold is_task in Hitem. apply andb_true_iff in Hitem as [H1 H2].
      by apply bool_decide_eq_true in H1, H2.
    + intros Hall. split; [|intros item' Hin; apply Hall; by right].
      destruct (Hall item) as (row & -> & Hid & Htitle); [left|].
      unfold is_task. apply andb_true_iff. split; by apply bool_decide_eq_true.
Qed.

Lemma task_items_all items :
  isTaskArray (Some items) = true → Some <$> task_items (Some items) = items.
Proof.
  unfold task_items. simpl.
  induction items as [|item items IH]; intros Hall; [done|].
  simpl in Hall. apply andb_prop in Hall as [Hitem Hall].
  destruct item as [row|]; [|discriminate]. cbn. f_equal. by apply IH.
Qed.

(** X15. The import of tasks is all or nothing: when [tasks] is not an
    array, or one of its items is not an object or lacks a string [id] or
    [title], no task is imported and the store is left as it is; otherwise
    every item is imported. *)
Theorem import_is_all_or_nothing
    (draws : nat → Draw) (userId : string) (items : list (option Partial.t)) (d : Db.t) :
  (None ∈ items → import_tasks draws userId (Some items) d = (d, 0%nat))
  ∧ (∀ row, Some row ∈ items → Partial.id row = None ∨ Partial.title row = None →
       import_tasks draws userId (Some items) d = (d, 0%nat))
  ∧ import_tasks draws userId None d = (d, 0%nat)
  ∧ (isTaskArray (Some items) = true →
       (import_tasks draws userId (Some items) d).2 = length items).
Proof.
  assert (Hbad : isTaskArray (Some items) = false →
            import_tasks draws userId (Some items) d = (d, 0%nat)).
  { intros Hb. unfold import_tasks. by rewrite Hb. }
  split; [|split; [|split]].
  - intros Hin. apply Hbad. apply not_true_is_false. intros Ht.
    destruct (proj1 (isTaskArray_true items) Ht None Hin) as (? & ? & _). discriminate.
  - intros row Hin Hmiss. apply Hbad. apply not_true_is_false. intros Ht.
    destruct (proj1 (isTaskArray_true items) Ht (Some row) Hin) as (? & [= <-] & Hid & Ht').
    destruct Hmiss as [Hm|Hm]; rewrite Hm in *; by eapply is_Some_None.
  - reflexivity.
  - intros Ht. unfold import_tasks. rewrite Ht.
    destruct (import_loop_spec draws userId (task_items (Some items)) 0 d 0) as [-> _].
    simpl. rewrite <- (task_items_all items Ht) at 2. by rewrite length_fmap.
Qed.

(** The record stored under the id of an item that no later item
    repeats is the one built from that item. *)
Lemma import_loop_last draws userId rows i d n k row :
  rows !! k = Some row →
  (∀ j later, (k < j)%nat → rows !! j = Some later → item_id later ≠ item_id row) →
  tasks (import_loop draws i userId rows d n).1 !! item_id row
  = Some (import_task userId (zone (draws (i + k)%nat)) (now_updated (draws (i + k)%nat))
            (now_created (draws (i + k)%nat)) row).
Proof.
  revert i d n k. induction rows as [|first rest IH]; intros i d n k Hk Hlast.
  - by rewrite lookup_nil in Hk.
  - cbn [import_loop]. destruct k as [|k].
    + injection Hk as ->.
      destruct (import_loop_spec draws userId rest (S i)
                  (putTaskLocal (queue_uuid (draws i)) (queue_now (draws i)) d
                     (import_task userId (zone (draws i)) (now_updated (draws i))
                        (now_created (draws i)) row) true) (S n))
        as (_ & Hout & _).
      rewrite Hout.
      * rewrite Nat.add_0_r. simpl. unfold tasks_put. simpl. apply lookup_insert_eq.
      * intros Hin. apply list_elem_of_fmap in Hin as (later & Heq & Hlater).
        apply list_elem_of_lookup in Hlater as [j Hj].
        apply (Hlast (S j) later); [lia|exact Hj|by symmetry].
    + rewrite (IH (S i) _ (S n) k).
      * by rewrite Nat.add_succ_r.
      * exact Hk.
      * intros j later Hlt Hj. apply (Hlast (S j) later); [lia|exact Hj].
Qed.

(** X16. An imported item is stored under its [id] as the record the
    import builds from it: a record of the importing user, whatever owner
    the file names and whatever was stored under that [id] before, with the
    title, the status, the dates and the stamps of the item.  When several
    items have the same [id], the last of them is the one stored.  The ids
    the file does not mention keep their records. *)
Theorem import_overrides_and_takes_ownership
    (draws : nat → Draw) (userId : string) (items : list (option Partial.t)) (d : Db.t) :
  isTaskArray (Some items) = true →
  (∀ k row id,
     items !! k = Some (Some row) →
     Partial.id row = Some id →
     (∀ j later, (k < j)%nat → items !! j = Some (Some later) →
        Partial.id later ≠ Some id) →
     ∃ stored,
       tasks (import_tasks draws userId (Some items) d).1 !! id = Some stored
       ∧ stored
         = import_task userId (zone (draws k)) (now_updated (draws k))
             (now_created (draws k)) row
       ∧ TaskRecord.id stored = id
       ∧ TaskRecord.user_id stored = userId
       ∧ Partial.title row = Some (TaskRecord.title stored)
       ∧ (TaskRecord.status stored = done ↔ Partial.status row = Some "done")
       ∧ TaskRecord.scheduled_date stored = Partial.scheduled_date row
       ∧ TaskRecord.due_time stored = Partial.due_time row
       ∧ TaskRecord.completed_at stored = Partial.completed_at row
       ∧ TaskRecord.updated_at stored
         = match Partial.updated_at row with
           | Some (String c rest) => String c rest
           | _ => now_updated (draws k)
           end)
  ∧ (∀ id, (∀ row, Some row ∈ items → Partial.id row ≠ Some id) →
       tasks (import_tasks draws userId (Some items) d).1 !! id = tasks d !! id).
Proof.
  intros Ht. unfold import_tasks. rewrite Ht.
  destruct (import_loop_spec draws userId (task_items (Some items)) 0 d 0)
    as (_ & Hout & _).
  assert (Hmem : ∀ row, row ∈ task_items (Some items) ↔ Some row ∈ items).
  { intros row. rewrite <- (task_items_all items Ht) at 2.
    rewrite list_elem_of_fmap. split; [eauto|]. by intros (? & [= <-] & ?). }
  assert (Hids : ∀ row, Some row ∈ items →
            Partial.id row = Some (item_id row) ∧ is_Some (Partial.title row)).
  { intros row Hrow.
    destruct (proj1 (isTaskArray_true items) Ht _ Hrow) as (? & [= <-] & [i Hi] & Htitle).
    unfold item_id. by rewrite Hi. }
  assert (Hlook : ∀ k row, task_items (Some items) !! k = Some row ↔
            items !! k = Some (Some row)).
  { intros k row. rewrite <- (task_items_all items Ht) at 2.
    rewrite list_lookup_fmap. destruct (task_items (Some items) !! k); simpl; split;
      congruence. }
  split.
  - intros k row id Hk Hid Hlast.
    assert (item_id row = id) as Hitem by (unfold item_id; by rewrite Hid).
    pose proof (import_loop_last draws userId (task_items (Some items)) 0 d 0 k row)
      as Hstored.
    rewrite Hitem in Hstored. cbn [Nat.add] in Hstored.
    eexists. split; [apply Hstored|].
    + by apply Hlook.
    + intros j later Hlt Hj Heq. apply Hlook in Hj.
      apply (Hlast j later Hlt Hj).
      destruct (Hids later) as [-> _]; [by eapply list_elem_of_lookup_2|].
      by rewrite Heq.
    + destruct (Hids row) as [_ [title Htitle]]; [by eapply list_elem_of_lookup_2|].
      split; [reflexivity|]. cbn. rewrite Hid, Htitle. cbn.
      split; [reflexivity|]. split; [reflexivity|]. split; [reflexivity|].
      split; [by case_decide|].
      split; [reflexivity|]. split; [reflexivity|]. split; [reflexivity|].
      by destruct (Partial.updated_at row) as [[|c rest]|].
  - intros id Hno. apply Hout. intros Hid.
    apply list_elem_of_fmap in Hid as (row & -> & Hrow). apply Hmem in Hrow.
    apply (Hno row Hrow). by apply Hids.
Qed.

End ImportFacts.

(** ** The task lists ([sortTasks] and the sections of the plan) *)

Section ListFacts.
Context `{Dates.Collator}.
Import Js Db App.

Lemma filter_partition4 {A} (P1 P2 P3 P4 : A → Prop)
    `{∀ x, Decision (P1 x)} `{∀ x, Decision (P2 x)}
    `{∀ x, Decision (P3 x)} `{∀ x, Decision (P4 x)} (l : list A) :
  (∀ x, (P1 x ∧ ¬ P2 x ∧ ¬ P3 x ∧ ¬ P4 x) ∨ (¬ P1 x ∧ P2 x ∧ ¬ P3 x ∧ ¬ P4 x)
        ∨ (¬ P1 x ∧ ¬ P2 x ∧ P3 x ∧ ¬ P4 x) ∨ (¬ P1 x ∧ ¬ P2 x ∧ ¬ P3 x ∧ P4 x)) →
  filter P1 l ++ filter P2 l ++ filter P3 l ++ filter P4 l ≡ₚ l.
Proof.
  intros Hone. induction l as [|x l IH]; [reflexivity|].
  rewrite !filter_cons.
  destruct (Hone x) as [(?&?&?&?)|[(?&?&?&?)|[(?&?&?&?)|(?&?&?&?)]]];
    destruct (decide (P1 x)); try contradiction;
    destruct (decide (P2 x)); try contradiction;
    destruct (decide (P3 x)); try contradiction;
    destruct (decide (P4 x)); try contradiction.
  - simpl. by constructor.
  - rewrite <- app_comm_cons, <- Permutation_middle. by constructor.
  - rewrite <- app_comm_cons, (assoc_L (++) (filter P1 l)), <- Permutation_middle.
    rewrite <- (assoc_L (++)). by constructor.
  - rewrite !(assoc_L (++)), <- Permutation_middle.
    rewrite <- !(assoc_L (++)). by constructor.
Qed.

Lemma insert_by_Permutation {A} (compare : A → A → Z) (x : A) (sorted : list A) :
  insert_by compare x sorted ≡ₚ x :: sorted.
Proof.
  induction sorted as [|y rest IH]; [reflexivity|]. simpl.
  destruct (decide _); [reflexivity|]. rewrite IH. apply Permutation_swap.
Qed.

Lemma sort_by_Permutation {A} (compare : A → A → Z) (xs : list A) :
  sort_by compare xs ≡ₚ xs.
Proof.
  unfold sort_by. induction xs as [|x xs IH]; [reflexivity|]. simpl.
  by rewrite insert_by_Permutation, IH.
Qed.

Lemma insert_by_Sorted {A} (compare : A → A → Z) (x : A) (sorted : list A) :
  Total (not_after compare) →
  Sorted (not_after compare) sorted →
  Sorted (not_after compare) (insert_by compare x sorted).
Proof.
  intros Htotal. induction 1 as [|y rest Hrest IH Hhd]; simpl.
  - by repeat constructor.
  - destruct (decide (not_after compare x y)) as [Hxy|Hxy].
    + constructor; [by constructor|by constructor].
    + constructor; [exact IH|].
      assert (not_after compare y x) as Hyx by (by destruct (Htotal x y)).
      destruct Hhd as [|z rest Hyz]; simpl; [by constructor|].
      destruct (decide _); by constructor.
Qed.

Lemma sort_by_Sorted {A} (compare : A → A → Z) (xs : list A) :
  Total (not_after compare) → Sorted (not_after compare) (sort_by compare xs).
Proof.
  intros Htotal. unfold sort_by. induction xs as [|x xs IH]; simpl; [constructor|].
  by apply insert_by_Sorted.
Qed.

(** X17. With today's date not after the end of the week, the four
    sections of the plan (overdue, today, this week, later) hold every open
    task exactly once. *)
Theorem sections_partition_the_open_tasks
    (today thisWeekEnd : string) (open : list TaskRecord.t) :
  truthy today = true →
  String.leb today thisWeekEnd = true →
  overdueTasks today open ++ todayTasks today open
    ++ weekTasks today thisWeekEnd open ++ laterTasks thisWeekEnd open
  ≡ₚ open.
Proof.
  intros Htoday Hweek.
  unfold overdueTasks, todayTasks, weekTasks, laterTasks.
  rewrite !sort_by_Permutation.
  apply filter_partition4. intros task.
  unfold before, after.
  destruct (TaskRecord.scheduled_date task) as [s|]; simpl.
  2: { right. right. right. repeat split; congruence. }
  destruct (truthy s) eqn:Hs; simpl.
  2: { right. right. right. repeat split; try congruence. }
  unfold String.ltb, String.leb in *.
  rewrite (String.compare_antisym s today).
  rewrite (String.compare_antisym s thisWeekEnd).
  destruct (String.compare today s) eqn:E1; simpl.
  - apply String.compare_eq_iff in E1. subst s.
    right. left. rewrite (String.compare_antisym today thisWeekEnd) in Hweek.
    destruct (String.compare thisWeekEnd today); simpl in *; repeat split; congruence.
  - assert (Some s ≠ Some today) as Hne
      by (intros [= ->]; rewrite compare_refl in E1; discriminate).
    destruct (String.compare thisWeekEnd s) eqn:E2; simpl.
    + right. right. left. repeat split; congruence.
    + right. right. right. repeat split; congruence.
    + right. right. left. repeat split; congruence.
  - assert (Some s ≠ Some today) as Hne
      by (intros [= ->]; rewrite compare_refl in E1; discriminate).
    left. assert (String.compare thisWeekEnd s ≠ Lt) as Hno.
    { intros E2. pose proof (String.compare_antisym today s) as E3.
      rewrite E1 in E3. simpl in E3.
      destruct (String.compare s today) eqn:E4; try discriminate.
      pose proof (compare_Lt_trans _ _ _ E2 E4) as E5.
      rewrite String.compare_antisym, E5 in Hweek. discriminate. }
    destruct (String.compare thisWeekEnd s); simpl; repeat split; congruence.
Qed.

End ListFacts.

Section SortFacts.
Context `{Dates.Collator}.
Import Js Db App Dates.

Lemma compareDateStrings_antisym a b :
  collator_antisymmetric →
  Z.sgn (compareDateStrings b a) = - Z.sgn (compareDateStrings a b).
Proof.
  intros Hc. unfold compareDateStrings.
  destruct (truthy_opt a), (truthy_opt b); simpl; try reflexivity. apply Hc.
Qed.

Lemma sortTasks_antisym a b :
  collator_antisymmetric →
  Z.sgn (sortTasks b a) = - Z.sgn (sortTasks a b).
Proof.
  intros Hc. unfold sortTasks.
  destruct (decide (TaskRecord.status a ≠ TaskRecord.status b)) as [Hs|Hs].
  { rewrite decide_True by congruence.
    destruct (TaskRecord.status a), (TaskRecord.status b); try congruence;
      repeat case_decide; try congruence; reflexivity. }
  rewrite decide_False by (intros Hne; apply Hs; congruence).
  assert (∀ x y : Z, Z.sgn y = - Z.sgn x → (x ≠ 0 ↔ y ≠ 0)) as Hnz by lia.
  set (pa := priorityRank (TaskRecord.priority a)).
  set (pb := priorityRank (TaskRecord.priority b)).
  destruct (decide (pb - pa ≠ 0)) as [Hp|Hp].
  { rewrite decide_True by lia. lia. }
  rewrite decide_False by lia.
  pose proof (compareDateStrings_antisym (TaskRecord.scheduled_date a)
                (TaskRecord.scheduled_date b) Hc) as Hd.
  destruct (decide (compareDateStrings (TaskRecord.scheduled_date a)
                      (TaskRecord.scheduled_date b) ≠ 0)) as [Hd0|Hd0].
  { rewrite decide_True by (by apply (Hnz _ _ Hd)). exact Hd. }
  rewrite decide_False by (rewrite <- (Hnz _ _ Hd); exact Hd0).
  pose proof (compareDateStrings_antisym (TaskRecord.due_time a)
                (TaskRecord.due_time b) Hc) as Ht.
  destruct (decide (compareDateStrings (TaskRecord.due_time a)
                      (TaskRecord.due_time b) ≠ 0)) as [Ht0|Ht0].
  { rewrite decide_True by (by apply (Hnz _ _ Ht)). exact Ht. }
  rewrite decide_False by (rewrite <- (Hnz _ _ Ht); exact Ht0).
  apply (compareDateStrings_antisym (Some (TaskRecord.updated_at b))
           (Some (TaskRecord.updated_at a)) Hc).
Qed.

Lemma sortTasks_total : collator_antisymmetric → Total (not_after sortTasks).
Proof.
  intros Hc a b. unfold not_after. pose proof (sortTasks_antisym a b Hc). lia.
Qed.

Lemma not_after_done_last a b : not_after sortTasks a b → done_last a b.
Proof.
  unfold not_after, sortTasks, done_last. intros Hle Ha.
  destruct (TaskRecord.status b) eqn:Hb; [|reflexivity].
  rewrite Ha in Hle. rewrite decide_True in Hle by discriminate.
  rewrite decide_False in Hle by discriminate. lia.
Qed.

Lemma done_last_split (l : list TaskRecord.t) :
  StronglySorted done_last l → l = openTasks l ++ doneTasks l.
Proof.
  unfold openTasks, doneTasks.
  induction 1 as [|x l Hl IH Hx]; [reflexivity|].
  rewrite !filter_cons.
  destruct (TaskRecord.status x) eqn:Ex.
  - rewrite decide_True by reflexivity. rewrite decide_False by discriminate.
    simpl. by rewrite <- IH.
  - rewrite decide_False by discriminate. rewrite decide_True by reflexivity.
    assert (Forall (fun t => TaskRecord.status t = done) l) as Hall.
    { eapply Forall_impl; [exact Hx|]. intros t Ht. by apply Ht. }
    assert (filter (fun task => TaskRecord.status task = todo) l = []) as ->.
    { clear -Hall. induction Hall as [|t l Ht Hall IH]; [reflexivity|].
      rewrite filter_cons, decide_False by congruence. exact IH. }
    simpl. f_equal. symmetry. clear -Hall.
    induction Hall as [|t l Ht Hall IH]; [reflexivity|].
    rewrite filter_cons, decide_True by exact Ht. by rewrite IH.
Qed.

(** X18. When the collator is antisymmetric, the sorted task list is its
    open tasks followed by its done tasks. *)
Theorem open_tasks_sort_before_done (tasks : list TaskRecord.t) :
  collator_antisymmetric →
  sort_by sortTasks tasks
  = openTasks (sort_by sortTasks tasks) ++ doneTasks (sort_by sortTasks tasks).
Proof.
  intros Hc. apply done_last_split.
  apply Sorted_StronglySorted.
  - intros a b c Hab Hbc Ha. auto.
  - eapply Sorted_weaken; [apply not_after_done_last|].
    apply sort_by_Sorted. by apply sortTasks_total.
Qed.
End SortFacts.

(** ** The task handlers ([updateTask], [handleMoveToToday]) *)

Section HandlerFacts.
Import Js Db App.

Lemma find_task_Some d session taskId task :
  find_task d session taskId = Some task ↔
  tasks d !! taskId = Some task ∧ session = Some (TaskRecord.user_id task).
Proof.
  unfold find_task. destruct session as [userId|]; simpl.
  - destruct (tasks d !! taskId) as [t|]; simpl.
    + destruct (decide (TaskRecord.user_id t = userId)) as [<-|Hne].
      * split; [by intros [= <-]|]. by intros [[= <-] _].
      * split; [discriminate|]. intros [[= <-] [= Hu]]. by destruct Hne.
    + split; [discriminate|]. by intros [[=] _].
  - split; [discriminate|]. by intros [_ [=]].
Qed.

Lemma updateTask_found s d session taskId patch source :
  find_task d session taskId = Some source →
  TaskRecord.id source = taskId →
  find_task (updateTask s d session taskId patch) session taskId
  = Some (next_task s source patch)
  ∧ queue (updateTask s d session taskId patch) !! uuid s
    = Some (QueueOperation.mk (uuid s) (TaskRecord.user_id source) upsert_task taskId
              (PayloadTask (next_task s source patch)) (now_enqueued s) 0).
Proof.
  intros Hfind Hid. unfold updateTask. rewrite Hfind.
  apply find_task_Some in Hfind as [Hlook ->].
  assert (TaskRecord.id (next_task s source patch) = taskId) as Hnid.
  { unfold next_task. repeat case_decide; simpl; exact Hid. }
  assert (TaskRecord.user_id (next_task s source patch) = TaskRecord.user_id source)
    as Hnu.
  { unfold next_task. repeat case_decide; reflexivity. }
  split.
  - apply find_task_Some. split; [|by rewrite Hnu].
    unfold putTaskLocal, with_queue, with_tasks, tasks_put. simpl.
    rewrite Hnid. apply lookup_insert_eq.
  - unfold putTaskLocal, with_queue, with_tasks, enqueueTaskUpsert, queue_put. simpl.
    rewrite lookup_insert_eq, Hnid, Hnu. reflexivity.
Qed.

(** X19. Moving a task to today records the date it was scheduled for as
    its original date and takes it out of the overdue tasks; moving it again
    later changes the scheduled date and keeps the original date of the
    first move. *)
Theorem move_to_today_keeps_the_first_date
    (s1 s2 : Stamp) (d : Db.t) (sessionUserId : option string) (task : TaskRecord.t)
    (date today1 today2 : string) :
  find_task d sessionUserId (TaskRecord.id task) = Some task →
  TaskRecord.scheduled_date task = Some date →
  truthy date = true →
  truthy_opt (TaskRecord.original_scheduled_date task) = false →
  ∃ moved again,
    find_task (handleMoveToToday s1 d sessionUserId task today1) sessionUserId
      (TaskRecord.id task) = Some moved
    ∧ TaskRecord.scheduled_date moved = Some today1
    ∧ TaskRecord.original_scheduled_date moved = Some date
    ∧ before (TaskRecord.scheduled_date moved) today1 = false
    ∧ find_task
        (handleMoveToToday s2 (handleMoveToToday s1 d sessionUserId task today1)
           sessionUserId moved today2)
        sessionUserId (TaskRecord.id task) = Some again
    ∧ TaskRecord.scheduled_date again = Some today2
    ∧ TaskRecord.original_scheduled_date again = Some date.
Proof.
  intros Hfind Hdate Htruthy Horig.
  unfold handleMoveToToday.
  destruct (updateTask_found s1 d sessionUserId (TaskRecord.id task)
              (move_patch task today1) task Hfind eq_refl) as [Hmoved _].
  set (moved := next_task s1 task (move_patch task today1)) in *.
  assert (TaskRecord.id moved = TaskRecord.id task) as Hid by reflexivity.
  assert (TaskRecord.scheduled_date moved = Some today1) as Hsd by reflexivity.
  assert (TaskRecord.original_scheduled_date moved = Some date) as Hod.
  { unfold moved, next_task, move_patch. simpl. rewrite Horig, Hdate. simpl.
    by rewrite Htruthy. }
  destruct (updateTask_found s2 _ sessionUserId (TaskRecord.id task)
              (move_patch moved today2) moved Hmoved Hid) as [Hagain _].
  exists moved, (next_task s2 moved (move_patch moved today2)).
  rewrite Hid.
  split; [exact Hmoved|]. split; [exact Hsd|]. split; [exact Hod|]. split.
  - rewrite Hsd. simpl. unfold String.ltb. rewrite compare_refl. apply andb_false_r.
  - split; [exact Hagain|]. split; [reflexivity|].
    clearbody moved. unfold next_task, move_patch. simpl.
    rewrite Hod. simpl. rewrite Htruthy. reflexivity.
Qed.

(** X20. Completing an open task stamps it with the completion time;
    reopening it gives back the task as it was, [updated_at] apart. *)
Theorem complete_then_reopen_restores
    (s1 s2 : Stamp) (d : Db.t) (sessionUserId : option string) (task : TaskRecord.t) :
  find_task d sessionUserId (TaskRecord.id task) = Some task →
  TaskRecord.status task = todo →
  TaskRecord.completed_at task = None →
  ∃ completed,
    find_task (updateTask s1 d sessionUserId (TaskRecord.id task) (toggle_patch task))
      sessionUserId (TaskRecord.id task) = Some completed
    ∧ TaskRecord.status completed = done
    ∧ TaskRecord.completed_at completed = Some (now_completed s1)
    ∧ find_task
        (updateTask s2
           (updateTask s1 d sessionUserId (TaskRecord.id task) (toggle_patch task))
           sessionUserId (TaskRecord.id task) (toggle_patch completed))
        sessionUserId (TaskRecord.id task)
      = Some (spread task Patch.empty (now_updated s2)).
Proof.
  intros Hfind Hstatus Hcompleted.
  destruct (updateTask_found s1 d sessionUserId (TaskRecord.id task)
              (toggle_patch task) task Hfind eq_refl) as [Hdone _].
  set (completed := next_task s1 task (toggle_patch task)) in *.
  assert (completed
          = set_completed_at (spread task (toggle_patch task) (now_updated s1))
              (Some (now_completed s1))) as Hc.
  { unfold completed, next_task, toggle_patch. rewrite Hstatus, Hcompleted. reflexivity. }
  destruct (updateTask_found s2 _ sessionUserId (TaskRecord.id task)
              (toggle_patch completed) completed Hdone) as [Hagain _].
  { by rewrite Hc. }
  exists completed. split; [exact Hdone|].
  split; [rewrite Hc; simpl; by rewrite Hstatus|]. split; [by rewrite Hc|].
  rewrite Hagain. f_equal. rewrite Hc. unfold next_task, toggle_patch. simpl.
  unfold set_completed_at, spread. simpl.
  rewrite Hstatus, Hcompleted. reflexivity.
Qed.

End HandlerFacts.

Section UpdateFacts.
Import Js Db App.


End UpdateFacts.

(** ** The sync flag ([fireSync]) *)

Section FlagFacts.
Import App.

(** X22. With two calls of [syncNow] in flight, the first to settle clears
    [syncInProgress] while the other is still running, so the sync button
    is enabled again and starts a third. *)
Theorem flag_clears_at_the_first_settle
    (st : SyncState) (userId : string) (first second : trigger) :
  hasSupabaseClientConfig st = true →
  isOnline st = true →
  first ≠ SyncButton →
  second ≠ SyncButton →
  syncInProgress
    (run st [Trigger first userId; Trigger second userId; Settled userId]) = false
  ∧ flights (run st [Trigger first userId; Trigger second userId; Settled userId]) userId
    = S (flights st userId)
  ∧ flights
      (on_trigger
         (run st [Trigger first userId; Trigger second userId; Settled userId])
         SyncButton userId) userId
    = S (S (flights st userId)).
Proof.
  intros Hconfig Honline Hfirst Hsecond.
  destruct st as [config online progress flying]. simpl in Hconfig, Honline. subst.
  unfold run, flights.
  destruct first; try contradiction; destruct second; try contradiction;
    cbn; rewrite !decide_True by reflexivity; cbn;
    (split; [reflexivity|]); split; cbn; by rewrite ?decide_True.
Qed.

End FlagFacts.

(** ** What a run of the dispatcher changes ([handler]) *)

Section RunFacts.
Context `{Js.Host} `{Pg.Server}.
Import Js Pg Cron.

Lemma delete_subscription_sublist w id :
  push_subscriptions (delete_subscription w id) `sublist_of` push_subscriptions w.
Proof. apply sublist_filter. Qed.

Lemma deliver_counts o task subs st flag :
  (sentCount st ≤ sentCount (deliver o task subs st flag).1)%nat
  ∧ ((deliver o task subs st flag).2 = true → flag = false →
       (S (sentCount st) ≤ sentCount (deliver o task subs st flag).1)%nat).
Proof.
  revert st flag. induction subs as [|sub subs IH]; intros st flag.
  - simpl. split; [lia|]. intros -> [=].
  - cbn [deliver].
    destruct (sendWebPush o sub (payload_of task)) as [|code];
      [|destruct (isUnsubscribedError code)];
      match goal with |- context [deliver o task subs ?s ?b] =>
        destruct (IH s b) as [Hle Hlt] end;
      cbn [sentCount] in *.
    + split; [lia|]. intros _ _. lia.
    + split; [lia|]. exact Hlt.
    + split; [lia|]. exact Hlt.
Qed.

Lemma deliver_subscriptions o task subs st flag :
  push_subscriptions (pr_world (deliver o task subs st flag).1)
    `sublist_of` push_subscriptions (pr_world st)
  ∧ ∀ sub, sub ∈ push_subscriptions (pr_world st) →
      sub ∈ push_subscriptions (pr_world (deliver o task subs st flag).1)
      ∨ ∃ gone, gone ∈ subs ∧ Subscription.id gone = Subscription.id sub
          ∧ reported_gone o task gone.
Proof.
  revert st flag. induction subs as [|sub subs IH]; intros st flag.
  - simpl. split; [done|]. auto.
  - cbn [deliver].
    destruct (sendWebPush o sub (payload_of task)) as [|code] eqn:Esend;
      [|destruct (isUnsubscribedError code) eqn:Ecode];
      match goal with |- context [deliver o task subs ?s ?b] =>
        destruct (IH s b) as [Hsub Hkeep] end;
      cbn [pr_world] in *.
    + split; [exact Hsub|]. intros x Hx.
      destruct (Hkeep x Hx) as [?|(g & Hg & ?)]; [by left|right].
      exists g. split; [by right|done].
    + split; [etrans; [exact Hsub|apply delete_subscription_sublist]|].
      intros x Hx.
      destruct (decide (Subscription.id x = Subscription.id sub)) as [Heq|Hne].
      * right. exists sub. split; [left|]. split; [done|]. exists code. auto.
      * destruct (Hkeep x) as [?|(g & Hg & ?)]; [|by left|].
        -- unfold delete_subscription. simpl. apply list_elem_of_filter. auto.
        -- right. exists g. split; [by right|done].
    + split; [exact Hsub|]. intros x Hx.
      destruct (Hkeep x Hx) as [?|(g & Hg & ?)]; [by left|right].
      exists g. split; [by right|done].
Qed.

Lemma deliver_keeps_ids o task subs st flag :
  sentTaskIds (deliver o task subs st flag).1 = sentTaskIds st
  ∧ tasks (pr_world (deliver o task subs st flag).1) = tasks (pr_world st).
Proof. destruct (deliver_spec o task subs st flag) as (_ & ? & ? & _). auto. Qed.

Lemma length_set_add s x : (length s ≤ length (set_add s x) ≤ S (length s))%nat.
Proof.
  unfold set_add. destruct (decide (x ∈ s)); [lia|]. rewrite length_app. simpl. lia.
Qed.

Lemma dispatch_bounds o byUser due st :
  (length (sentTaskIds (dispatch o byUser due st)) ≤ length (sentTaskIds st) + length due)%nat
  ∧ (length (sentTaskIds (dispatch o byUser due st)) + sentCount st
     ≤ length (sentTaskIds st) + sentCount (dispatch o byUser due st))%nat
  ∧ tasks (pr_world (dispatch o byUser due st)) = tasks (pr_world st)
  ∧ push_subscriptions (pr_world (dispatch o byUser due st))
      `sublist_of` push_subscriptions (pr_world st)
  ∧ ∀ sub, sub ∈ push_subscriptions (pr_world st) →
      sub ∈ push_subscriptions (pr_world (dispatch o byUser due st))
      ∨ ∃ task gone, task ∈ due
          ∧ gone ∈ default [] (byUser !! Sql.user_id task)
          ∧ Subscription.id gone = Subscription.id sub
          ∧ reported_gone o task gone.
Proof.
  revert st. induction due as [|task due IH]; intros st.
  - simpl. split; [lia|]. split; [lia|]. split; [done|]. split; [done|]. auto.
  - cbn [dispatch length].
    destruct (default [] (byUser !! Sql.user_id task)) as [|sub subs] eqn:Esubs.
    + destruct (IH st) as (H1 & H2 & H3 & H4 & H5).
      split; [lia|]. split; [lia|]. split; [exact H3|]. split; [exact H4|].
      intros x Hx. destruct (H5 x Hx) as [?|(t & g & Ht & Hg & ?)]; [by left|right].
      exists t, g. split; [by right|done].
    + destruct (deliver_counts o task (sub :: subs) st false) as [Hle Hlt].
      destruct (deliver_keeps_ids o task (sub :: subs) st false) as [Hids Htasks].
      destruct (deliver_subscriptions o task (sub :: subs) st false) as [Hsl Hkeep].
      destruct (deliver o task (sub :: subs) st false) as [st' flag].
      cbn [fst snd] in *.
      match goal with |- context [dispatch o byUser due ?s] =>
        destruct (IH s) as (H1 & H2 & H3 & H4 & H5) end.
      assert (Hgone : ∀ x, x ∈ push_subscriptions (pr_world st) →
                x ∈ push_subscriptions (pr_world st')
                ∨ ∃ t g, t ∈ task :: due ∧ g ∈ default [] (byUser !! Sql.user_id t)
                    ∧ Subscription.id g = Subscription.id x ∧ reported_gone o t g).
      { intros x Hx. destruct (Hkeep x Hx) as [?|(g & Hg & ? & ?)]; [by left|right].
        exists task, g. split; [left|]. rewrite Esubs. auto. }
      destruct flag; cbn [sentTaskIds sentCount pr_world] in *.
      * pose proof (length_set_add (sentTaskIds st') (Sql.id task)) as Hadd.
        specialize (Hlt eq_refl eq_refl). rewrite Hids in *.
        split; [lia|]. split; [lia|]. split; [congruence|].
        split; [by etrans|].
        intros x Hx. destruct (Hgone x Hx) as [Hin|?]; [|by right].
        destruct (H5 x Hin) as [?|(t & g & Ht & ?)]; [by left|right].
        exists t, g. split; [by right|done].
      * rewrite Hids in *.
        split; [lia|]. split; [lia|]. split; [congruence|].
        split; [by etrans|].
        intros x Hx. destruct (Hgone x Hx) as [Hin|?]; [|by right].
        destruct (H5 x Hin) as [?|(t & g & Ht & ?)]; [by left|right].
        exists t, g. split; [by right|done].
Qed.

(** What a dispatch adds to the effects: the attempts for each task at the
    endpoints found for its owner. *)
Lemma dispatch_effects o byUser due st :
  pr_effects (dispatch o byUser due st)
  = pr_effects st
    ++ (due ≫= fun task => default [] (byUser !! Sql.user_id task) ≫= attempt o task).
Proof.
  revert st. induction due as [|task due IH]; intros st.
  - simpl. by rewrite (right_id_L [] (++)).
  - rewrite bind_cons. cbn [dispatch].
    destruct (default [] (byUser !! Sql.user_id task)) as [|sub subs] eqn:Esubs.
    + by rewrite IH.
    + destruct (deliver_spec o task (sub :: subs) st false) as (He & _).
      destruct (deliver o task (sub :: subs) st false) as [st' flag].
      cbn [fst] in He.
      destruct flag; rewrite IH; cbn [pr_effects]; rewrite He;
        by rewrite <- (assoc_L (++)).
Qed.

Lemma dispatch_sends o byUser due st task gone :
  task ∈ due → gone ∈ default [] (byUser !! Sql.user_id task) →
  SendWebPush gone (payload_of task) ∈ pr_effects (dispatch o byUser due st)
  ∧ (reported_gone o task gone →
       DeleteSubscription (Subscription.id gone)
       ∈ pr_effects (dispatch o byUser due st)).
Proof.
  intros Htask Hgone. rewrite dispatch_effects.
  split; [|intros (code & Hsend & Hcode)];
    apply elem_of_app; right; apply list_elem_of_bind; exists task;
    (split; [|exact Htask]); apply list_elem_of_bind; exists gone;
    (split; [|exact Hgone]); unfold attempt.
  - apply list_elem_of_here.
  - rewrite Hsend, Hcode. apply list_elem_of_further, list_elem_of_here.
Qed.

(** The ways a run of [handler] ends. *)
Lemma handler_cases env o w request :
  (world (handler env o w request) = w
   ∧ ∀ a b c, json (handler env o w request) ≠ Dispatched a b c)
  ∨ ∃ byUser due asked window_minutes,
      Sql.get_due_tasks (now_scan o) window_minutes (tasks w) = Some due
      ∧ (∀ userId sub, sub ∈ default [] (byUser !! userId) →
           sub ∈ push_subscriptions w ∧ Subscription.user_id sub = userId)
      ∧ push_subscriptions (world (handler env o w request))
        = push_subscriptions (pr_world (dispatch o byUser due (mkProgress w asked [] 0)))
      ∧ (tasks (world (handler env o w request)) = tasks w
         ∨ tasks (world (handler env o w request))
           = Sql.mark_tasks_notified (now_mark o)
               (sentTaskIds (dispatch o byUser due (mkProgress w asked [] 0))) (tasks w))
      ∧ (∀ e, e ∈ pr_effects (dispatch o byUser due (mkProgress w asked [] 0)) →
           e ∈ effects (handler env o w request))
      ∧ ∀ a b c, json (handler env o w request) = Dispatched a b c →
          a = length due
          ∧ b = length (sentTaskIds (dispatch o byUser due (mkProgress w asked [] 0)))
          ∧ c = sentCount (dispatch o byUser due (mkProgress w asked [] 0)).
Proof.
  unfold handler.
  destruct (canRun env request); cbn [negb]; [|left; split; [done|discriminate]].
  destruct (due_fails o); [left; split; [done|discriminate]|].
  destruct (int4_of_float (window_argument request)) as [window_minutes|];
    cbn [mbind option_bind]; [|left; split; [done|discriminate]].
  destruct (Sql.get_due_tasks (now_scan o) window_minutes (tasks w))
    as [[|task0 due0]|] eqn:Edue; try (left; split; [done|discriminate]).
  cbv beta iota zeta.
  destruct (subscriptions_fail o); [left; split; [done|discriminate]|].
  right.
  match goal with |- context [dispatch o ?b ?d ?st] =>
    exists b, d; pose proof (dispatch_bounds o b d st) as (_ & _ & Htasks & _);
    match st with mkProgress _ ?a _ _ => exists a end
  end.
  exists window_minutes. split; [done|]. split.
  { intros userId x Hx. rewrite group_by_user_lookup in Hx.
    apply list_elem_of_filter in Hx as [Hu Hx].
    by apply list_elem_of_filter in Hx as [_ Hx]. }
  cbn [pr_world tasks] in Htasks.
  match goal with |- context [dispatch o ?b ?d ?st] =>
    generalize dependent (dispatch o b d st) end.
  intros final Htasks.
  destruct (sentTaskIds final) as [|id0 ids] eqn:Eids.
  - cbn [world json effects]. split; [done|]. split; [by left|]. split; [done|].
    intros a b c [= <- <- <-]. auto.
  - destruct (mark_fails o); cbn [world json effects push_subscriptions tasks].
    + split; [done|]. split; [by left|].
      split; [intros e He; apply elem_of_app; by left|]. discriminate.
    + split; [done|]. split; [right; by rewrite Htasks|].
      split; [intros e He; apply elem_of_app; by left|].
      intros a b c [= <- <- <-]. auto.
Qed.

Lemma handler_dispatched env o w request a b c :
  json (handler env o w request) = Dispatched a b c →
  status (handler env o w request) = 200 ∧ (0 < a)%nat.
Proof.
  unfold handler.
  destruct (canRun env request); cbn [negb]; [|discriminate].
  destruct (if due_fails o then None else _) as [[|task due]|];
    cbv beta iota zeta; [discriminate| |discriminate].
  destruct (subscriptions_fail o); [discriminate|].
  destruct (sentTaskIds _); [|destruct (mark_fails o); [discriminate|]];
    intros [= <- _ _]; simpl; split; (reflexivity || lia).
Qed.

(** X24. A run that reports its counts answers 200 and reports at least
    one scanned task, no more notified tasks than scanned ones, and no more
    notified tasks than pushes sent. *)
Theorem dispatch_counts_are_consistent
    (env : ProcessEnv) (o : Oracle) (w : World) (request : Request)
    (scanned notified_tasks pushes_sent : nat) :
  json (handler env o w request) = Dispatched scanned notified_tasks pushes_sent →
  status (handler env o w request) = 200
  ∧ (0 < scanned)%nat
  ∧ (notified_tasks ≤ scanned)%nat
  ∧ (notified_tasks ≤ pushes_sent)%nat.
Proof.
  intros Hjson.
  destruct (handler_dispatched _ _ _ _ _ _ _ Hjson) as [Hstatus Hpos].
  split; [exact Hstatus|]. split; [exact Hpos|].
  destruct (handler_cases env o w request)
    as [[_ Hno]|(byUser & due & asked & wm & Hdue & _ & _ & _ & _ & Hcount)].
  { by destruct (Hno _ _ _ Hjson). }
  destruct (Hcount _ _ _ Hjson) as (-> & -> & ->).
  destruct (dispatch_bounds o byUser due (mkProgress w asked [] 0)) as (H1 & H2 & _).
  cbn [sentTaskIds sentCount length] in H1, H2. lia.
Qed.

(** X25. A run never adds or reorders an endpoint, and it removes one only
    when the push service answered 404 or 410 for a push to the endpoint of
    that id: a push that the run sent, for a task that the scan returned as
    due and that belongs to the endpoint's owner. *)
Theorem only_dead_endpoints_are_deleted
    (env : ProcessEnv) (o : Oracle) (w : World) (request : Request) :
  push_subscriptions (world (handler env o w request))
    `sublist_of` push_subscriptions w
  ∧ ∀ sub, sub ∈ push_subscriptions w →
      sub ∈ push_subscriptions (world (handler env o w request))
      ∨ ∃ window_minutes due task gone statusCode,
          Sql.get_due_tasks (now_scan o) window_minutes (tasks w) = Some due
          ∧ task ∈ due
          ∧ gone ∈ push_subscriptions w
          ∧ Subscription.id gone = Subscription.id sub
          ∧ Subscription.user_id gone = Sql.user_id task
          ∧ SendWebPush gone (payload_of task) ∈ effects (handler env o w request)
          ∧ sendWebPush o gone (payload_of task) = Refused statusCode
          ∧ (statusCode = Some 404 ∨ statusCode = Some 410)
          ∧ DeleteSubscription (Subscription.id gone)
            ∈ effects (handler env o w request).
Proof.
  destruct (handler_cases env o w request)
    as [[-> _]|(byUser & due & asked & wm & Hdue & Hby & -> & _ & Heff & _)].
  { split; [done|]. auto. }
  destruct (dispatch_bounds o byUser due (mkProgress w asked [] 0))
    as (_ & _ & _ & Hsub & Hkeep).
  cbn [pr_world] in Hsub, Hkeep. split; [exact Hsub|].
  intros sub Hin. destruct (Hkeep sub Hin) as [?|(task & gone & Ht & Hg & Hid & Hgone)];
    [by left|right].
  destruct (Hby _ _ Hg) as [Hgw Hgu].
  destruct (dispatch_sends o byUser due (mkProgress w asked [] 0) task gone Ht Hg)
    as [Hsent Hdeleted].
  pose proof Hgone as (code & Hsend & Hcode).
  exists wm, due, task, gone, code.
  split; [exact Hdue|]. split; [exact Ht|]. split; [exact Hgw|].
  split; [exact Hid|]. split; [exact Hgu|]. split; [by apply Heff|].
  split; [exact Hsend|]. split.
  - unfold isUnsubscribedError in Hcode. apply orb_true_iff in Hcode as [Hc|Hc];
      apply bool_decide_eq_true in Hc; auto.
  - by apply Heff, Hdeleted.
Qed.

(** X26. A run leaves every task either as it was or marked: the same row
    with [last_notified_at] and [updated_at] set to the time of the marking.
    It deletes no task and changes no other column. *)
Theorem dispatch_changes_only_notification_columns
    (env : ProcessEnv) (o : Oracle) (w : World) (request : Request) :
  Forall2 (fun old new => new = old ∨ new = Sql.notify (now_mark o) old)
    (tasks w) (tasks (world (handler env o w request))).
Proof.
  destruct (handler_cases env o w request)
    as [[-> _]|(byUser & due & asked & wm & _ & _ & _ & [->| ->] & _ & _)].
  - apply Forall_Forall2_diag, Forall_true. auto.
  - apply Forall_Forall2_diag, Forall_true. auto.
  - unfold Sql.mark_tasks_notified. apply Forall2_fmap_r, Forall_Forall2_diag, Forall_true.
    intros t. simpl. case_decide; auto.
Qed.

End RunFacts.

Section OpenFacts.
Context `{Js.Host} `{Pg.Server}.
Import Js Pg Cron.

Lemma handler_status env o w request :
  canRun env request = true →
  status (handler env o w request) = 200 ∨ status (handler env o w request) = 500.
Proof.
  intros Hrun. unfold handler. rewrite Hrun. cbn [negb].
  destruct (if due_fails o then None else _) as [[|task due]|];
    cbv beta iota zeta; [by left| |by right].
  destruct (subscriptions_fail o); [by right|].
  destruct (sentTaskIds _); [by left|]. destruct (mark_fails o); auto.
Qed.

(** X27. A call that carries the scheduler's marker runs whatever its
    [Authorization] header says, and so does a call whose header is
    [Bearer] followed by the configured secret: the answer is not 401 and
    the first thing done is the scan. *)
Theorem marker_or_bearer_opens_the_run
    (env : ProcessEnv) (o : Oracle) (w : World) (request : Request) (secret : string) :
  truthy_opt (headers request !! "x-vercel-cron") = true
  ∨ (CRON_SECRET env = Some secret
     ∧ headers request !! "authorization" = Some ("Bearer " +:+ secret)) →
  canRun env request = true
  ∧ (status (handler env o w request) = 200 ∨ status (handler env o w request) = 500)
  ∧ ∃ rest, effects (handler env o w request)
            = RpcGetDueTasks (window_argument request) :: rest.
Proof.
  intros Hopen.
  assert (canRun env request = true) as Hrun.
  { unfold canRun. destruct Hopen as [->|[Hsecret Hauth]]; [reflexivity|].
    destruct (truthy_opt (headers request !! "x-vercel-cron")); [reflexivity|].
    rewrite Hsecret, Hauth. simpl.
    destruct (truthy secret); simpl; [|reflexivity].
    apply bool_decide_eq_true. f_equal. apply replace_first_bearer. }
  split; [exact Hrun|]. split; [by apply handler_status|]. by apply handler_asks_first.
Qed.
End OpenFacts.

(** ** Scanning after a late marking *)

Section SuppressFacts.
Context `{Pg.Server}.
Import Pg Sql.

(** X28. A task that was marked is selected by a scan only if its due
    instant is strictly after the time of the marking: once marked at or
    after its due instant it is never selected again. *)
Theorem marked_at_or_after_due_is_not_selected_again
    (now marked : timestamptz) (window_minutes : Z) (task_ids : list string)
    (tasks : list Task.t) (rows : list due_task) (row : due_task) :
  get_due_tasks now window_minutes (mark_tasks_notified marked task_ids tasks)
  = Some rows →
  row ∈ rows →
  Sql.id row ∈ task_ids →
  marked < due_at row.
Proof.
  intros Hget Hrow Hid.
  apply (elem_of_get_due_tasks _ _ _ _ _ Hget) in Hrow
    as (t' & d & tm & due & Ht' & _ & _ & _ & _ & _ & _ & Hnot & Hrow).
  unfold mark_tasks_notified in Ht'. apply list_elem_of_fmap in Ht' as (t & -> & Ht).
  rewrite Hrow in Hid |- *. simpl in Hid |- *.
  destruct (decide (Task.id t ∈ task_ids)) as [Hin|Hout].
  - destruct Hnot as [Hnone|(notified & Hsome & Hlt)]; [discriminate|].
    simpl in Hsome. by injection Hsome as <-.
  - contradiction.
Qed.
End SuppressFacts.

(** ** From the dispatcher to the notification ([sendWebPush], the [push] listener) *)

Section PushFacts.
Context `{Pg.Server}.
Import Js.

(** X29. For the payload the dispatcher sends, the service worker shows the
    dispatcher's title, body, tag and target, none of its defaults.  A push
    without data, or whose data parses to [null], shows nothing: the
    listener throws.  Data that is not JSON is shown as the body under the
    default title. *)
Theorem push_shows_the_dispatched_task (task : Sql.due_task) (text : string) :
  ServiceWorker.on_push
    (Some (ServiceWorker.mkData
             (Some (ServiceWorker.JsonObject
                      (WebPush.message (WebPush.of_dispatch (Cron.payload_of task)))))
             text))
  = Some
      {| ServiceWorker.title := "Tâche à lancer maintenant";
         ServiceWorker.body := Cron.body (Cron.payload_of task);
         ServiceWorker.icon := "/icons/icon-192.png";
         ServiceWorker.badge := "/icons/icon-192.png";
         ServiceWorker.tag := "task-" +:+ Sql.id task;
         ServiceWorker.data_url := "/?tab=today&task=" +:+ Sql.id task |}
  ∧ ServiceWorker.on_push None = None
  ∧ ServiceWorker.on_push (Some (ServiceWorker.mkData (Some ServiceWorker.JsonNull) text))
    = None
  ∧ ServiceWorker.on_push (Some (ServiceWorker.mkData None text))
    = Some
        {| ServiceWorker.title := "Rappel de tâche";
           ServiceWorker.body := or_else (Some text) "Une tâche arrive maintenant.";
           ServiceWorker.icon := "/icons/icon-192.png";
           ServiceWorker.badge := "/icons/icon-192.png";
           ServiceWorker.tag := "fg-task-reminder";
           ServiceWorker.data_url := "/?tab=today" |}.
Proof.
  split; [|repeat split].
  unfold ServiceWorker.on_push. cbn [ServiceWorker.json mbind option_bind].
  unfold WebPush.message, WebPush.of_dispatch, Cron.payload_of.
  cbn [WebPush.m_title WebPush.m_body WebPush.m_icon WebPush.m_badge WebPush.m_tag
       WebPush.m_url WebPush.title WebPush.body WebPush.url WebPush.tag
       Cron.title Cron.body Cron.url Cron.tag].
  f_equal. f_equal.
  - apply or_else_Some. apply truthy_app_r, truthy_app_l. reflexivity.
Qed.

(** X30. With an internal secret configured, a request whose bearer token
    and [x-api-key] both differ from it never reaches [sendWebPush]: it is
    answered 405 or 401. *)
Theorem unauthenticated_push_is_refused
    (env : PushSend.ProcessEnv)
    (sendWebPush : WebPush.ServerPushSubscription → WebPush.PushPayload
                   → PushSend.send_result)
    (request : PushSend.Request) (secret : string) :
  PushSend.INTERNAL_API_SECRET env = Some secret →
  truthy secret = true →
  Cron.replace_first "Bearer " "" <$> (PushSend.headers request !! "authorization")
  ≠ Some secret →
  PushSend.headers request !! "x-api-key" ≠ Some secret →
  ∃ outcome,
    PushSend.handler env sendWebPush request = Some outcome
    ∧ PushSend.sent outcome = []
    ∧ (PushSend.status outcome = 405 ∨ PushSend.status outcome = 401).
Proof.
  intros Hsecret Htruthy Hbearer Hkey. unfold PushSend.handler.
  destruct (bool_decide (PushSend.method request = "POST")); simpl; [|eauto].
  unfold PushSend.isAuthorized. rewrite Hsecret. simpl. rewrite Htruthy. simpl.
  rewrite !bool_decide_eq_false_2 by assumption. simpl. eauto.
Qed.
End PushFacts.

(** * Scenarios

    The properties above, applied to the data of [Scenario] on the reference
    platform. *)

Section Scenarios.
Import Reference Scenario.

(** C2 on the scenario.  The queue holds three operations of [u1]; the
    remote refuses the second one.  The first is gone, the second stays with
    one retry, the third and the other owner's operation are untouched. *)
Lemma flush_second_of_three_refused :
  Sync.fl_attempted (Sync.flushQueue fresh pending_queue project "u1") = [op1; op2]
  ∧ Sync.fl_queue (Sync.flushQueue fresh pending_queue project "u1") !! "q1" = None
  ∧ QueueOperation.retries
      <$> Sync.fl_queue (Sync.flushQueue fresh pending_queue project "u1") !! "q2"
    = Some 1
  ∧ Sync.fl_queue (Sync.flushQueue fresh pending_queue project "u1") !! "q3" = Some op3
  ∧ Sync.fl_queue (Sync.flushQueue fresh pending_queue project "u1") !! "q4" = Some op4.
Proof.
  destruct (flush_stops_at_first_failure fresh pending_queue project
              project_after_report "u1" [op1] [op3] op2)
    as (_ & _ & _ & _ & Hlog & Hbefore & Hfailing & Hlater & Hother).
  - apply (bool_decide_unpack _). vm_compute. exact I.
  - vm_compute. reflexivity.
  - vm_compute. reflexivity.
  - vm_compute. reflexivity.
  - split; [exact Hlog|]. split; [exact (Hbefore op1 (list_elem_of_here _ _))|].
    split; [change "q2" with (QueueOperation.id op2); by rewrite Hfailing|].
    split; [exact (Hlater op3 (list_elem_of_here _ _))|].
    rewrite (Hother "q4"); [vm_compute; reflexivity| |discriminate].
    intros Hin. apply list_elem_of_singleton in Hin. discriminate Hin.
Defined.

(** C1 on the scenario.  The device holds the version of 09:30 as it pulled
    it; the version written a millisecond later replaces it. *)
Lemma a_millisecond_later_replaces :
  Db.upsertTasksFromRemote (Db.tasks synced)
    [Sync.normalizeTaskRecord fresh (Pg.to_json report_row_later)]
  = {[ "t1" := Sync.normalizeTaskRecord fresh (Pg.to_json report_row_later) ]}.
Proof.
  destruct (merge_last_write_wins (Db.tasks synced)
              (Sync.normalizeTaskRecord fresh (Pg.to_json report_row_later)) [])
    as (_ & _ & Hrows & _).
  destruct (Hrows fresh fresh report_row_later report_row eq_refl) as [Hnewer _].
  - reflexivity.
  - vm_compute. reflexivity.
  - vm_compute. reflexivity.
  - rewrite Hnewer by (vm_compute; reflexivity). vm_compute. reflexivity.
Defined.

(** Against C1 as stated.  The device holds the version of 09:30:00; the
    server holds a version written 999 microseconds later, which is
    strictly greater.  The merge keeps the stored version, and so does the
    pull, which moves the cursor past the version it did not take. *)
Lemma later_within_the_millisecond_is_kept :
  Pg.Task.updated_at report_row < Pg.Task.updated_at report_row_soon
  ∧ TaskRecord.updated_at (Sync.normalizeTaskRecord fresh (Pg.to_json report_row))
    = "2026-03-01T09:30:00+00:00"
  ∧ TaskRecord.updated_at (Sync.normalizeTaskRecord fresh (Pg.to_json report_row_soon))
    = "2026-03-01T09:30:00.000999+00:00"
  ∧ Db.tasks synced !! "t1"
    = Some (Sync.normalizeTaskRecord fresh (Pg.to_json report_row))
  ∧ Db.upsertTasksFromRemote (Db.tasks synced)
      [Sync.normalizeTaskRecord fresh (Pg.to_json report_row_soon)]
    = Db.tasks synced
  ∧ Db.tasks <$> Sync.pullUpdates fresh synced project_revised "u1"
    = Some (Db.tasks synced)
  ∧ (fun d => Db.meta d !! "tasks_last_pull_u1")
      <$> Sync.pullUpdates fresh synced project_revised "u1"
    = Some (Some "2026-03-01T09:30:00.000999+00:00").
Proof. vm_compute. repeat split. Qed.


(** C4 on the scenario.  The scan of 09:58 UTC with a window of five
    minutes selects the task due at 19:01 in Tokyo, which is 10:01 UTC,
    between the report, due at 10:00 UTC, and the call, due at 10:02. *)
Lemma tokyo_task_is_due_at_its_own_time :
  Sql.get_due_tasks scan_time 5 (server_tasks ++ [tokyo_row])
  = Some [report_due; tokyo_due; call_due]
  ∧ StronglySorted (fun a b => Sql.due_at a ≤ Sql.due_at b)
      [report_due; tokyo_due; call_due]
  ∧ length (filter (selected scan_time 5) (server_tasks ++ [tokyo_row])) = 3%nat.
Proof.
  assert (Sql.get_due_tasks scan_time 5 (server_tasks ++ [tokyo_row])
          = Some [report_due; tokyo_due; call_due]) as Hget
    by (vm_compute; reflexivity).
  destruct (proj2 (due_tasks_selected_and_ordered scan_time 5
                     (server_tasks ++ [tokyo_row])) _ Hget) as (_ & Hsorted & Hlen).
  split; [exact Hget|]. split; [exact Hsorted|]. by rewrite <- Hlen.
Defined.

(** Against C4 as stated.  The report is open, due at 10:00 UTC, within the
    five minutes that follow the scan of 09:58, and was never notified; the
    scan selects it.  With one more task in the table, open and dated, whose
    zone the server does not know, the scan raises an error and selects
    nothing: the run answers 500 and sends no push. *)
Lemma an_unknown_zone_fails_the_scan :
  report_row ∈ server_tasks ++ [martian_row]
  ∧ Pg.Task.status report_row = todo
  ∧ due_instant report_row = Some (instant 2026 3 1 10 0 0)
  ∧ scan_time ≤ instant 2026 3 1 10 0 0
  ∧ instant 2026 3 1 10 0 0 < scan_time + 5 * 60000000
  ∧ Pg.Task.last_notified_at report_row = None
  ∧ Sql.get_due_tasks scan_time 5 server_tasks = Some [report_due; call_due]
  ∧ Sql.get_due_tasks scan_time 5 (server_tasks ++ [martian_row]) = None
  ∧ Cron.handler secret_unset oracle
      (Cron.mkWorld (server_tasks ++ [martian_row]) [phone; laptop; tablet])
      (request_with None)
    = Cron.mkOutcome 500 Cron.DispatchFailed [Cron.RpcGetDueTasks 5]
        (Cron.mkWorld (server_tasks ++ [martian_row]) [phone; laptop; tablet]).
Proof.
  split; [apply elem_of_app; left; apply list_elem_of_here|].
  split; [reflexivity|]. split; [reflexivity|].
  split; [vm_compute; discriminate|]. split; [vm_compute; reflexivity|].
  split; [reflexivity|]. repeat split; vm_compute; reflexivity.
Qed.

(** C10 on the scenario.  A scan at 09:59:30 with a window of 0 minutes
    returns the report, due 30 seconds later, and not the call, due two and
    a half minutes later: it is the scan of one minute.  A call at 09:58
    whose [window] parameter is [abc] asks for 5 minutes and works on the
    two tasks due within them. *)
Lemma zero_window_scans_one_minute :
  Sql.get_due_tasks (instant 2026 3 1 9 59 (30 * micros_per_second)) 0 server_tasks
  = Some [report_due]
  ∧ Sql.get_due_tasks (instant 2026 3 1 9 59 (30 * micros_per_second)) 1 server_tasks
    = Some [report_due]
  ∧ (∃ rest,
       Cron.effects (Cron.handler secret_unset oracle world (request_window "abc"))
       = Cron.RpcGetDueTasks 5 :: rest)
  ∧ Cron.json (Cron.handler secret_unset oracle world (request_window "abc"))
    = Cron.Dispatched 2 1 1.
Proof.
  assert (Sql.get_due_tasks (instant 2026 3 1 9 59 (30 * micros_per_second)) 0
            server_tasks = Some [report_due]) as Hget by (vm_compute; reflexivity).
  destruct (scan_window_positive (instant 2026 3 1 9 59 (30 * micros_per_second)) 0
              server_tasks [report_due] secret_unset oracle world
              (request_window "abc") Hget) as (_ & _ & Hone & Hasks).
  split; [exact Hget|]. split; [apply Hone; lia|].
  destruct (Hasks eq_refl) as (_ & Hstring & _ & Hworks).
  destruct (Hstring "abc" eq_refl) as [rest Hrest].
  split; [exists rest; rewrite Hrest; reflexivity|].
  specialize (Hworks eq_refl 5%float rest 5 [report_due; call_due]).
  destruct (Cron.json (Cron.handler secret_unset oracle world (request_window "abc")))
    as [| |scanned notified sent|] eqn:Hjson;
    try (vm_compute in Hjson; discriminate Hjson).
  rewrite Hworks; [vm_compute in Hjson; by injection Hjson as _ <- <-| | |];
    [rewrite Hrest|..]; vm_compute; reflexivity.
Defined.

(** C5 on the scenario.  A run with one task delivered to the phone, the
    laptop's endpoint gone and the tablet unreachable: the report alone is
    marked, once, at the time of the marking. *)
Lemma dispatch_marks_the_report :
  marks (Cron.effects (Cron.handler secret_unset oracle world (request_with None)))
  = [["t1"]]
  ∧ Cron.tasks (Cron.world (Cron.handler secret_unset oracle world (request_with None)))
    = [Sql.notify mark_time report_row; call_row; laundry_row].
Proof.
  destruct (dispatch_marks_delivered_once secret_unset oracle world (request_with None) 5
              [report_due; call_due])
    as (_ & _ & _ & Hmarks & Htasks & _); try (vm_compute; reflexivity).
  rewrite Hmarks, Htasks. split; vm_compute; reflexivity.
Defined.

(** Against C5 as stated.  Two tasks are due and every push is refused: the
    run ends well and the marking is not requested at all, where the claim
    has it requested once. *)
Lemma marking_skipped_when_nothing_is_delivered :
  Cron.canRun secret_unset (request_with None) = true
  ∧ length <$> Sql.get_due_tasks scan_time 5 server_tasks = Some 2%nat
  ∧ Cron.status (Cron.handler secret_unset oracle_down world (request_with None)) = 200
  ∧ marks (Cron.effects (Cron.handler secret_unset oracle_down world (request_with None)))
    = [].
Proof. vm_compute. repeat split. Qed.

(** C7 on the scenario.  With a secret configured, a call that presents
    another token is turned away before anything happens. *)
Lemma wrong_bearer_is_rejected :
  Cron.handler secret_set oracle world (request_with (Some "Bearer guess"))
  = Cron.mkOutcome 401 Cron.Unauthorized [] world.
Proof.
  apply (unauthorized_call_rejected secret_set oracle world
           (request_with (Some "Bearer guess")) "s3cret");
    [reflexivity|reflexivity|reflexivity|].
  intros Heq. vm_compute in Heq. discriminate Heq.
Defined.

(** Against C7 as stated.  With no secret configured, a call that carries
    neither the scheduler's marker nor any token is answered 200 and runs
    the whole dispatch: seven effects, the laptop's endpoint deleted, the
    report marked. *)
Lemma open_when_no_secret_is_configured :
  Cron.CRON_SECRET secret_unset = None
  ∧ Cron.headers (request_with None) !! "x-vercel-cron" = None
  ∧ Cron.headers (request_with None) !! "authorization" = None
  ∧ Cron.status (Cron.handler secret_unset oracle world (request_with None)) = 200
  ∧ length (Cron.effects (Cron.handler secret_unset oracle world (request_with None)))
    = 7%nat
  ∧ Pg.Subscription.id
      <$> Cron.push_subscriptions
            (Cron.world (Cron.handler secret_unset oracle world (request_with None)))
    = ["s1"; "s3"]
  ∧ marks (Cron.effects (Cron.handler secret_unset oracle world (request_with None)))
    = [["t1"]].
Proof. vm_compute. repeat split. Qed.

(** C6 on the scenario.  A timer tick while a sync is in flight starts a
    second one. *)
Lemma timer_tick_during_a_sync :
  App.flights
    (App.on_trigger (App.mkSync true true true ["u1"]) App.TimerTick "u1") "u1"
  = 2%nat.
Proof.
  apply (proj1 (fireSync_starts_a_sync_per_trigger
                  (App.mkSync true true true ["u1"]) "u1" eq_refl eq_refl)).
  discriminate.
Defined.

(** Against C6 as stated.  From rest, a timer tick followed by the [online]
    event leaves two calls of [syncNow] for the same owner in flight. *)
Lemma two_syncs_in_flight :
  App.flights
    (App.run (App.mkSync true true false [])
       [App.Trigger App.TimerTick "u1"; App.Trigger App.OnlineEvent "u1"]) "u1"
  = 2%nat.
Proof. reflexivity. Qed.

(** C8 on the scenario.  The report is enqueued, then edited and deleted
    locally: the queued operation still carries the report as it was. *)
Lemma edits_after_enqueue_keep_the_payload :
  QueueOperation.payload
    <$> Db.queue
          (foldl apply_edit
             (Db.putTaskLocal "q1" "2026-03-01T09:00:00.000Z" Db.empty report true)
             [EditPut "q5" "2026-03-01T09:05:00.000Z" report_edited true;
              EditDelete "q6" "2026-03-01T09:06:00.000Z" "u1" "t1" true])
        !! "q1"
  = Some (PayloadTask report).
Proof.
  rewrite (queued_payload_is_snapshot "q1" "2026-03-01T09:00:00.000Z" Db.empty report).
  - reflexivity.
  - repeat constructor; discriminate.
Defined.

(** Against C9 as stated.  A row that is open but still carries a
    completion time comes out of the normalisation, and out of the merge,
    as it went in. *)
Lemma normalisation_keeps_a_stale_completion_time :
  TaskRecord.status (Sync.normalizeTaskRecord fresh reopened_row) = todo
  ∧ TaskRecord.completed_at (Sync.normalizeTaskRecord fresh reopened_row)
    = Some "2026-02-27T18:00:00+00:00"
  ∧ Db.upsertTasksFromRemote (Db.tasks device)
      [Sync.normalizeTaskRecord fresh reopened_row] !! "t7"
    = Some (Sync.normalizeTaskRecord fresh reopened_row).
Proof. vm_compute. repeat split. Qed.

(** C9 on the scenario.  Merging the remote version of the report, which is
    open and not completed, into the device keeps the invariant. *)
Lemma merge_of_a_consistent_row_is_consistent :
  store_consistent
    (apply_write device (MergePulled fresh [Pg.to_json report_row])).
Proof.
  refine (proj1 (writes_keep_completion_consistent device
                   (MergePulled fresh [Pg.to_json report_row]) _ _)).
  - unfold store_consistent, device. cbn [Db.tasks].
    apply map_Forall_singleton. split; [intros [? [=]]|discriminate].
  - constructor; [|constructor]. split; [intros [? [=]]|discriminate].
Defined.

(** X2 on the scenario.  After the run that marked the report at 09:58:02, a
    scan at 09:59:00 selects the report again: it is due at 10:00:00. *)
Lemma report_is_due_again_a_minute_later :
  ∃ rows,
    Sql.get_due_tasks (instant 2026 3 1 9 59 0) 5
      (Sql.mark_tasks_notified mark_time ["t1"] server_tasks) = Some rows
    ∧ report_due ∈ rows.
Proof.
  refine (marked_before_due_is_selected_again (instant 2026 3 1 9 59 0) mark_time 5
            ["t1"] server_tasks report_row (Pg.mkdate 2026 3 1) (Pg.mktime 10 0 0)
            (instant 2026 3 1 10 0 0) _ _ _ _ _ _ _ _ _ _); try reflexivity.
  - intros other Hother _. unfold server_tasks in Hother.
    repeat (apply elem_of_cons in Hother as [->|Hother]; [by eexists|]).
    by apply elem_of_nil in Hother.
  - apply list_elem_of_here.
  - apply list_elem_of_here.
  - vm_compute. discriminate.
Defined.

(** X3 on the scenario.  A remote that refuses nothing takes the three
    operations of [u1]. *)
Lemma flush_of_three_applied :
  Sync.fl_attempted
    (Sync.flushQueue fresh pending_queue project_open "u1") = [op1; op2; op3]
  ∧ Sync.fl_queue (Sync.flushQueue fresh pending_queue project_open "u1") !! "q2" = None
  ∧ Sync.fl_queue (Sync.flushQueue fresh pending_queue project_open "u1") !! "q4"
    = Some op4.
Proof.
  destruct (flush_applies_the_whole_batch fresh pending_queue project_open
              (Reference.mkProject server_tasks []
                 [Sync.normalizeTaskRecord fresh (Sync.of_payload (PayloadTask report));
                  Sync.normalizeTaskRecord fresh (Sync.of_payload (PayloadTask groceries))]
                 ["t3"] : @Sync.remote Reference.remote) "u1")
    as (Hlog & _ & Hgone & Hkept).
  - vm_compute. reflexivity.
  - split; [rewrite Hlog; vm_compute; reflexivity|]. split.
    + apply (Hgone op2). vm_compute. apply list_elem_of_further, list_elem_of_here.
    + rewrite (Hkept "q4"); [vm_compute; reflexivity|].
      vm_compute. intros Hin.
      repeat (apply elem_of_cons in Hin as [Hin|Hin]; [discriminate Hin|]).
      by apply elem_of_nil in Hin.
Defined.

(** X6 on the scenario.  After the flush that stopped at the refused upsert
    of the groceries, the next batch starts with that upsert, retried once,
    and the deletion follows it. *)
Lemma groceries_are_retried_first :
  Db.getPendingQueue
    (Sync.fl_queue (Sync.flushQueue fresh pending_queue project "u1")) "u1"
  = [QueueOperation.mk "q2" "u1" upsert_task "t2" (PayloadTask groceries)
       "2026-03-01T09:01:00.000Z" 1;
     op3].
Proof.
  rewrite (refused_operation_is_retried_first fresh pending_queue project
             project_after_report "u1" [op1] [op3] op2).
  - vm_compute. reflexivity.
  - apply (bool_decide_unpack _). vm_compute. exact I.
  - vm_compute. reflexivity.
  - vm_compute. reflexivity.
  - vm_compute. reflexivity.
Defined.

(** X7 on the scenario.  The remote takes the three operations of [u1]:
    nothing is left to send and the counter is back to zero. *)
Lemma queue_is_drained :
  Db.getPendingQueue
    (Sync.fl_queue (Sync.flushQueue fresh pending_queue project_open "u1")) "u1" = []
  ∧ Db.queueCount
      (Sync.fl_queue (Sync.flushQueue fresh pending_queue project_open "u1")) "u1"
    = 0%nat.
Proof.
  destruct (applied_batch_leaves_the_rest fresh pending_queue project_open
              (Reference.mkProject server_tasks []
                 [Sync.normalizeTaskRecord fresh (Sync.of_payload (PayloadTask report));
                  Sync.normalizeTaskRecord fresh (Sync.of_payload (PayloadTask groceries))]
                 ["t3"] : @Sync.remote Reference.remote) "u1") as [Hnext Hcount].
  - apply (bool_decide_unpack _). vm_compute. exact I.
  - vm_compute. reflexivity.
  - rewrite Hnext, Hcount. split; vm_compute; reflexivity.
Defined.

(** X8 on the scenario.  The flush of [u1] leaves the operation of [u2]
    where it is. *)
Lemma other_owner_is_left_alone :
  Sync.fl_queue (Sync.flushQueue fresh pending_queue project "u1") !! "q4" = Some op4.
Proof.
  destruct (flush_touches_only_the_owner_rows fresh pending_queue project "u1")
    as (_ & _ & Hother & _).
  - apply (bool_decide_unpack _). vm_compute. exact I.
  - apply Hother; [vm_compute; reflexivity|]. vm_compute. discriminate.
Defined.

(** X10 on the scenario.  The pull of [u1] leaves the queue and the cursor
    of [u2] as they were. *)
Lemma pull_leaves_the_rest :
  Db.queue pulled = Db.queue device
  ∧ Db.getMetaValue (Db.meta pulled) (Sync.lastPullKey "u2")
    = Db.getMetaValue (Db.meta device) (Sync.lastPullKey "u2").
Proof.
  destruct (pull_writes_only_its_owner fresh device pulled project "u1")
    as (Hqueue & _ & Hother & _).
  - vm_compute. reflexivity.
  - split; [exact Hqueue|]. apply Hother. discriminate.
Defined.

(** X11 on the scenario.  The pull that brought the report of 09:30, done a
    second time, changes nothing. *)
Lemma pulling_twice :
  ∃ d',
    Sync.pullUpdates fresh device project "u1" = Some d'
    ∧ Sync.pullUpdates fresh d' project "u1" = Some d'.
Proof.
  apply (second_pull_changes_nothing fresh fresh device project "u1" server_tasks
           (instant 2026 3 1 9 0 0)).
  - reflexivity.
  - vm_compute. reflexivity.
  - intros r Hr. unfold server_tasks in Hr.
    repeat (apply elem_of_cons in Hr as [->|Hr]; [vm_compute; reflexivity|]).
    by apply elem_of_nil in Hr.
  - intros r Hr. unfold server_tasks in Hr.
    repeat (apply elem_of_cons in Hr as [->|Hr]; [vm_compute; reflexivity|]).
    by apply elem_of_nil in Hr.
  - apply Nat.leb_le. vm_compute. reflexivity.
Defined.

(** X12 on the scenario.  The legacy task was migrated; a second call, with
    the legacy data still in place, does nothing. *)
Lemma second_migration_does_nothing :
  Db.getMetaValue (Db.meta (Migration.db migrated_store))
    (Migration.migrationMetaKey "u1") = Some "yes"
  ∧ Migration.migrateLegacyDataIfNeeded migration_environment legacy_storage
      migrated_store "u1" "UTC"
    = (migrated_store, Some (Migration.mkSummary 0 false)).
Proof.
  apply (migration_runs_once migration_environment migration_environment
           legacy_storage legacy_storage new_store migrated_store "u1" "UTC" "UTC"
           (Migration.mkSummary 1 true)).
  vm_compute. reflexivity.
Defined.

(** X13 on the scenario.  On the device that already holds the report, the
    legacy task is not converted. *)
Lemma migration_on_a_used_device :
  ∃ s1 summary,
    Migration.migrateLegacyDataIfNeeded migration_environment legacy_storage
      used_store "u1" "UTC" = (s1, Some summary)
    ∧ Migration.migratedTasks summary = 0%nat
    ∧ Db.tasks (Migration.db s1) = Db.tasks (Migration.db used_store)
    ∧ Db.queue (Migration.db s1) = Db.queue (Migration.db used_store).
Proof.
  exact (migration_keeps_existing_tasks migration_environment legacy_storage
           used_store "u1" "UTC" "t1" report eq_refl eq_refl).
Defined.

(** X14 on the scenario.  The legacy task comes out as a task of [u1] with
    its text trimmed for a title. *)
Lemma errand_is_migrated :
  Db.tasks (Migration.db new_store) !! "m1" = Some migrated_errand
  ∨ (TaskRecord.user_id migrated_errand = "u1"
     ∧ Js.truthy (TaskRecord.title migrated_errand) = true
     ∧ TaskRecord.timezone migrated_errand = "UTC").
Proof.
  refine (migrated_tasks_belong_to_the_user migration_environment legacy_storage
            new_store migrated_store "u1" "UTC" (Some (Migration.mkSummary 1 true))
            _ "m1" migrated_errand _).
  - vm_compute. reflexivity.
  - vm_compute. reflexivity.
Defined.

(** X16 on the scenario.  The backup of another account holds two copies
    of the report, both older than the one on the device: the import stores
    the second, as a task of [u1] that is done, stamped with the time of the
    import. *)
Lemma backup_replaces_the_report :
  ∃ stored,
    Db.tasks (Backup.import_tasks import_draws "u1" (Some backup_items) device).1 !! "t1"
    = Some stored
    ∧ TaskRecord.user_id stored = "u1"
    ∧ TaskRecord.title stored = "Write report (second copy)"
    ∧ TaskRecord.status stored = done
    ∧ TaskRecord.updated_at stored = "2026-03-02T08:00:00.002Z".
Proof.
  destruct (proj1 (import_overrides_and_takes_ownership import_draws "u1" backup_items
                     device eq_refl) 1%nat backup_row_again "t1" eq_refl eq_refl)
    as (stored & Hstored & -> & _).
  - intros j later Hlt Hj. destruct j as [|[|j]]; [lia|lia|discriminate Hj].
  - eexists. split; [exact Hstored|]. repeat split.
Defined.

(** X17 on the scenario.  The plan of Monday 2026-03-02: one task overdue,
    one for today, two for the week, two for later. *)
Lemma plan_of_the_week :
  App.overdueTasks "2026-03-02" plan ++ App.todayTasks "2026-03-02" plan
    ++ App.weekTasks "2026-03-02" "2026-03-08" plan
    ++ App.laterTasks "2026-03-08" plan
  ≡ₚ plan.
Proof.
  apply (sections_partition_the_open_tasks "2026-03-02" "2026-03-08" plan);
    reflexivity.
Defined.

Lemma reference_collator_antisymmetric : collator_antisymmetric.
Proof.
  intros x y. simpl. rewrite (String.compare_antisym y x).
  by destruct (String.compare x y).
Qed.

(** X18 on the scenario.  Two open and two done tasks, sorted. *)
Lemma open_tasks_come_first :
  App.sort_by App.sortTasks mixed
  = App.openTasks (App.sort_by App.sortTasks mixed)
    ++ App.doneTasks (App.sort_by App.sortTasks mixed).
Proof.
  exact (open_tasks_sort_before_done mixed reference_collator_antisymmetric).
Defined.

(** X19 on the scenario.  The report, scheduled for 2026-03-01, is moved to
    today on 03-02 and again on 03-03. *)
Lemma report_is_moved_twice :
  ∃ moved again,
    App.find_task (App.handleMoveToToday stamp1 device (Some "u1") report "2026-03-02")
      (Some "u1") "t1" = Some moved
    ∧ TaskRecord.scheduled_date moved = Some "2026-03-02"
    ∧ TaskRecord.original_scheduled_date moved = Some "2026-03-01"
    ∧ App.before (TaskRecord.scheduled_date moved) "2026-03-02" = false
    ∧ App.find_task
        (App.handleMoveToToday stamp2
           (App.handleMoveToToday stamp1 device (Some "u1") report "2026-03-02")
           (Some "u1") moved "2026-03-03")
        (Some "u1") "t1" = Some again
    ∧ TaskRecord.scheduled_date again = Some "2026-03-03"
    ∧ TaskRecord.original_scheduled_date again = Some "2026-03-01".
Proof.
  exact (move_to_today_keeps_the_first_date stamp1 stamp2 device (Some "u1") report
           "2026-03-01" "2026-03-02" "2026-03-03" eq_refl eq_refl eq_refl eq_refl).
Defined.

(** X20 on the scenario.  The report is completed, then reopened. *)
Lemma report_is_completed_and_reopened :
  ∃ completed,
    App.find_task (App.updateTask stamp1 device (Some "u1") "t1" (App.toggle_patch report))
      (Some "u1") "t1" = Some completed
    ∧ TaskRecord.status completed = done
    ∧ TaskRecord.completed_at completed = Some "2026-03-02T08:00:00.000Z"
    ∧ App.find_task
        (App.updateTask stamp2
           (App.updateTask stamp1 device (Some "u1") "t1" (App.toggle_patch report))
           (Some "u1") "t1" (App.toggle_patch completed))
        (Some "u1") "t1"
      = Some (App.spread report App.Patch.empty "2026-03-03T08:00:00.000Z").
Proof.
  exact (complete_then_reopen_restores stamp1 stamp2 device (Some "u1") report
           eq_refl eq_refl eq_refl).
Defined.


(** X22 on the scenario.  From rest, a timer tick and the [online] event
    start two syncs; when one settles the flag is down and one is still in
    flight. *)
Lemma flag_down_with_a_sync_in_flight :
  App.syncInProgress
    (App.run (App.mkSync true true false [])
       [App.Trigger App.TimerTick "u1"; App.Trigger App.OnlineEvent "u1";
        App.Settled "u1"]) = false
  ∧ App.flights
      (App.run (App.mkSync true true false [])
         [App.Trigger App.TimerTick "u1"; App.Trigger App.OnlineEvent "u1";
          App.Settled "u1"]) "u1" = 1%nat
  ∧ App.flights
      (App.on_trigger
         (App.run (App.mkSync true true false [])
            [App.Trigger App.TimerTick "u1"; App.Trigger App.OnlineEvent "u1";
             App.Settled "u1"])
         App.SyncButton "u1") "u1" = 2%nat.
Proof.
  apply (flag_clears_at_the_first_settle (App.mkSync true true false []) "u1"
           App.TimerTick App.OnlineEvent); (reflexivity || discriminate).
Defined.

(** X24 on the scenario.  The run that delivered the report to the phone
    reports two tasks scanned, one notified, one push sent. *)
Lemma counts_of_the_run :
  Cron.status (Cron.handler secret_unset oracle world (request_with None)) = 200
  ∧ (0 < 2)%nat ∧ (1 ≤ 2)%nat ∧ (1 ≤ 1)%nat.
Proof.
  apply (dispatch_counts_are_consistent secret_unset oracle world (request_with None)
           2 1 1).
  vm_compute. reflexivity.
Defined.

(** X27 on the scenario.  With a secret configured, the call that carries
    the marker runs although its token is not the secret. *)
Lemma marker_opens_the_run :
  Cron.canRun secret_set marked_request = true
  ∧ (Cron.status (Cron.handler secret_set oracle world marked_request) = 200
     ∨ Cron.status (Cron.handler secret_set oracle world marked_request) = 500)
  ∧ ∃ rest, Cron.effects (Cron.handler secret_set oracle world marked_request)
            = Cron.RpcGetDueTasks (Cron.window_argument marked_request) :: rest.
Proof.
  apply (marker_or_bearer_opens_the_run secret_set oracle world marked_request "s3cret").
  left. reflexivity.
Defined.

(** X28 on the scenario.  The report, marked at 09:58:02, is selected again
    at 09:59:00: it is due at 10:00:00, after the marking. *)
Lemma report_was_marked_before_it_was_due :
  mark_time < instant 2026 3 1 10 0 0.
Proof.
  refine (marked_at_or_after_due_is_not_selected_again (instant 2026 3 1 9 59 0)
            mark_time 5 ["t1"] server_tasks [report_due; call_due] report_due _ _ _).
  - vm_compute. reflexivity.
  - apply list_elem_of_here.
  - apply list_elem_of_here.
Defined.

(** X30 on the scenario.  A [POST] with a token that is not the secret is
    answered 401 and nothing is sent. *)
Lemma wrong_token_sends_nothing :
  ∃ outcome,
    PushSend.handler internal_secret (fun _ _ => PushSend.Sent) push_request
    = Some outcome
    ∧ PushSend.sent outcome = []
    ∧ (PushSend.status outcome = 405 ∨ PushSend.status outcome = 401).
Proof.
  apply (unauthenticated_push_is_refused internal_secret (fun _ _ => PushSend.Sent)
           push_request "s3cret").
  - reflexivity.
  - reflexivity.
  - intros Heq. vm_compute in Heq. discriminate Heq.
  - intros Heq. vm_compute in Heq. discriminate Heq.
Defined.

(** X23 on the scenario.  Of a thousand and one rows with the same
    [updated_at] the first batch holds a thousand; the one left out is in no
    batch of the next pull. *)
Lemma the_row_left_out_is_skipped :
  ∃ d',
    Sync.pullUpdates fresh device project_bulk "u1" = Some d'
    ∧ cursor_text d' "u1" = "2026-03-01T09:30:00+00:00"
    ∧ bool_decide
        (bulk_row 511
         ∈ first_batch
           ++ default [] (Sync.pull_request bulk "u1" (cursor_text d' "u1")))
      = false.
Proof.
  destruct (rows_tied_with_a_cut_batch_are_skipped fresh device project_bulk "u1"
              bulk first_batch (bulk_row 510)) as (d' & Hpull & Hcursor & Hskip).
  - reflexivity.
  - vm_compute. reflexivity.
  - vm_compute. reflexivity.
  - vm_compute. reflexivity.
  - vm_compute. reflexivity.
  - assert (Pg.Task.id (bulk_row 511) ∉ Pg.Task.id <$> first_batch) as Hcut
      by (apply (bool_decide_unpack _); vm_compute; exact I).
    exists d'. split; [exact Hpull|]. split; [rewrite Hcursor; vm_compute; reflexivity|].
    apply bool_decide_eq_false.
    destruct (Sync.pull_request bulk "u1" (cursor_text d' "u1")) as [batch'|] eqn:E.
    + apply (Hskip (bulk_row 511) batch').
      * apply list_elem_of_fmap. exists 511%nat. split; [reflexivity|].
        apply elem_of_seq. lia.
      * exact Hcut.
      * reflexivity.
      * reflexivity.
    + simpl. rewrite (right_id_L [] (++)).
      intros Hin. apply Hcut, list_elem_of_fmap. eauto.
Defined.

End Scenarios.
